(** * Provider runtime manager, outbound delivery and gateway supervision

    A shallow embedding of the orchestration code of the gateway:

    - [src/providers/plugins/*.ts]        the plugin registry,
    - [src/gateway/server-providers.ts]   the provider runtime manager,
    - [src/infra/outbound/targets.ts]     outbound target resolution,
    - [src/infra/outbound/deliver.ts]     the outbound delivery engine,
    - [src/infra/outbound/provider-selection.ts] the choice of a provider,
    - [src/infra/outbound/message.ts]     sending one message or poll,
    - [src/cli/gateway-cli.ts]            the restart loop of the gateway process,
                                          port options and the service commands.

    The first part of the file holds the definitions, the second part the
    statements proved about them. *)

From Stdlib Require Import ZArith Lia Sorted.
From Stdlib Require QArith Qround.
From stdpp Require Import gmap strings list fin_maps.

Local Open Scope Z_scope.
Local Open Scope string_scope.

(** ** Settled promises

    What an [await] observes: the promise either fulfils with a value or
    rejects with an error value.  Errors are kept as an opaque payload. *)

Inductive Settled (E A : Type) : Type :=
| Resolved (a : A)
| Rejected (e : E).
Arguments Resolved {E A} a.
Arguments Rejected {E A} e.

(** ** The plugin registry ([providers/plugins/index.ts], [types.ts]) *)

Module Providers.

Inductive ProviderId : Set :=
| whatsapp | telegram | discord | slack | signal | imessage | msteams.

#[global] Instance ProviderId_eq_dec : EqDecision ProviderId.
Proof. solve_decision. Defined.

Definition provider_index (p : ProviderId) : nat :=
  match p with
  | whatsapp => 0 | telegram => 1 | discord => 2 | slack => 3
  | signal => 4 | imessage => 5 | msteams => 6
  end%nat.

Definition provider_of_index (n : nat) : option ProviderId :=
  match n with
  | 0 => Some whatsapp | 1 => Some telegram | 2 => Some discord
  | 3 => Some slack | 4 => Some signal | 5 => Some imessage
  | 6 => Some msteams | _ => None
  end%nat.

#[global] Instance ProviderId_countable : Countable ProviderId.
Proof.
  apply (inj_countable provider_index provider_of_index).
  intros []; reflexivity.
Defined.

(** The [id] string of each provider. *)
Definition provider_name (p : ProviderId) : string :=
  match p with
  | whatsapp => "whatsapp" | telegram => "telegram" | discord => "discord"
  | slack => "slack" | signal => "signal" | imessage => "imessage"
  | msteams => "msteams"
  end.

(** [ProviderOutboundAdapter.chunker]: the field may be missing
    ([undefined]), explicitly [null], or one of the two chunkers of
    [auto-reply/chunk.ts]. *)
Inductive ChunkerName : Set := chunkText | chunkMarkdownText.

Inductive ChunkerField : Set :=
| ChunkerUndefined
| ChunkerNull
| ChunkerFn (c : ChunkerName).

Inductive DeliveryMode : Set := direct | gateway | hybrid.

Record ProviderOutboundAdapter : Set := {
  deliveryMode : DeliveryMode;
  chunker : ChunkerField;
  has_resolveTarget : bool;
  has_sendText : bool;
  has_sendMedia : bool;
}.

(** The optional members of a plugin that the orchestration code tests
    for.  The functions behind [config.*] read the configuration file and
    the credential store; their results are part of [Config] below. *)
Record ProviderPlugin : Set := {
  plugin_id : ProviderId;
  has_isConfigured : bool;
  has_defaultAccountId : bool;
  has_describeAccount : bool;
  outbound : option ProviderOutboundAdapter;
  has_startAccount : bool;
  has_stopAccount : bool;
}.

Definition mkOutbound (mode : DeliveryMode) (c : ChunkerField) :
  ProviderOutboundAdapter :=
  {| deliveryMode := mode; chunker := c; has_resolveTarget := true;
     has_sendText := true; has_sendMedia := true |}.

Definition mkPlugin (p : ProviderId) (o : ProviderOutboundAdapter) :
  ProviderPlugin :=
  {| plugin_id := p; has_isConfigured := true; has_defaultAccountId := true;
     has_describeAccount := true; outbound := Some o;
     has_startAccount := true; has_stopAccount := false |}.

Definition telegramPlugin := mkPlugin telegram (mkOutbound direct (ChunkerFn chunkMarkdownText)).
Definition whatsappPlugin := mkPlugin whatsapp (mkOutbound gateway (ChunkerFn chunkText)).
Definition discordPlugin := mkPlugin discord (mkOutbound direct ChunkerNull).
Definition slackPlugin := mkPlugin slack (mkOutbound direct ChunkerNull).
Definition signalPlugin := mkPlugin signal (mkOutbound direct (ChunkerFn chunkText)).
Definition imessagePlugin := mkPlugin imessage (mkOutbound direct ChunkerUndefined).
Definition msteamsPlugin := mkPlugin msteams (mkOutbound direct (ChunkerFn chunkMarkdownText)).

Definition PROVIDERS : list ProviderPlugin :=
  [telegramPlugin; whatsappPlugin; discordPlugin; slackPlugin;
   signalPlugin; imessagePlugin; msteamsPlugin].

(** [PROVIDERS.find((plugin) => plugin.id === id)] *)
Definition getProviderPlugin (p : ProviderId) : option ProviderPlugin :=
  List.find (fun plugin => bool_decide (plugin_id plugin = p)) PROVIDERS.

Section Listing.
(** [a.meta.order ?? (indexA === -1 ? 999 : indexA)]: the sort key of a
    plugin.  [CHAT_PROVIDER_ORDER] and the [meta] records come from
    [providers/registry.ts]; the resulting key is a parameter here. *)
Variable orderKey : ProviderId -> Z.

(** The comparator of [listProviderPlugins], as "a is not after b". *)
Definition plugin_leb (a b : ProviderPlugin) : bool :=
  let orderA := orderKey (plugin_id a) in
  let orderB := orderKey (plugin_id b) in
  if negb (Z.eqb orderA orderB) then Z.ltb orderA orderB
  else String.leb (provider_name (plugin_id a)) (provider_name (plugin_id b)).

Fixpoint insert_sorted (x : ProviderPlugin) (l : list ProviderPlugin) :
  list ProviderPlugin :=
  match l with
  | [] => [x]
  | y :: l' => if plugin_leb x y then x :: y :: l' else y :: insert_sorted x l'
  end.

(** [[...PROVIDERS].sort(cmp)] *)
Definition listProviderPlugins : list ProviderPlugin :=
  foldr insert_sorted [] PROVIDERS.
End Listing.

End Providers.

(** ** The provider runtime manager ([gateway/server-providers.ts]) *)

Module Manager.
Import Providers.

(** The fields of [ProviderAccountSnapshot] that the manager itself reads
    or writes.  A field that is [None] is absent from the object; for the
    nullable fields the inner [None] is JavaScript's [null].  The remaining
    fields of the TypeScript type are only copied around by the manager. *)
Record ProviderAccountSnapshot : Type := {
  accountId : string;
  running : option bool;
  connected : option bool;
  lastError : option (option string);
  lastStartAt : option (option Z);
  lastStopAt : option (option Z);
}.

(** A patch that only names the account. *)
Definition patch0 (id : string) : ProviderAccountSnapshot :=
  {| accountId := id; running := None; connected := None;
     lastError := None; lastStartAt := None; lastStopAt := None |}.

Definition with_running (b : bool) (s : ProviderAccountSnapshot) :=
  {| accountId := accountId s; running := Some b; connected := connected s;
     lastError := lastError s; lastStartAt := lastStartAt s;
     lastStopAt := lastStopAt s |}.
Definition with_connected (b : bool) (s : ProviderAccountSnapshot) :=
  {| accountId := accountId s; running := running s; connected := Some b;
     lastError := lastError s; lastStartAt := lastStartAt s;
     lastStopAt := lastStopAt s |}.
Definition with_lastError (e : option (option string)) (s : ProviderAccountSnapshot) :=
  {| accountId := accountId s; running := running s; connected := connected s;
     lastError := e; lastStartAt := lastStartAt s;
     lastStopAt := lastStopAt s |}.
Definition with_lastStartAt (t : Z) (s : ProviderAccountSnapshot) :=
  {| accountId := accountId s; running := running s; connected := connected s;
     lastError := lastError s; lastStartAt := Some (Some t);
     lastStopAt := lastStopAt s |}.
Definition with_lastStopAt (t : Z) (s : ProviderAccountSnapshot) :=
  {| accountId := accountId s; running := running s; connected := connected s;
     lastError := lastError s; lastStartAt := lastStartAt s;
     lastStopAt := Some (Some t) |}.

(** [DEFAULT_RUNTIME[providerId]], then [{ ...DEFAULT_RUNTIME[providerId],
    accountId }].  The WhatsApp default has [connected] and no start/stop
    stamps; the others have the stamps and no [connected]. *)
Definition cloneDefaultRuntime (providerId : ProviderId) (id : string) :
  ProviderAccountSnapshot :=
  match providerId with
  | whatsapp =>
      {| accountId := id; running := Some false; connected := Some false;
         lastError := Some None; lastStartAt := None; lastStopAt := None |}
  | _ =>
      {| accountId := id; running := Some false; connected := None;
         lastError := Some None; lastStartAt := Some None;
         lastStopAt := Some None |}
  end.

(** One member of an object spread: the later object wins where it has the
    key. *)
Definition over {A} (later earlier : option A) : option A :=
  match later with Some _ => later | None => earlier end.

(** [{ ...current, ...patch, accountId }] *)
Definition spread (current patch : ProviderAccountSnapshot) (id : string) :
  ProviderAccountSnapshot :=
  {| accountId := id;
     running := over (running patch) (running current);
     connected := over (connected patch) (connected current);
     lastError := over (lastError patch) (lastError current);
     lastStartAt := over (lastStartAt patch) (lastStartAt current);
     lastStopAt := over (lastStopAt patch) (lastStopAt current) |}.

(** [AbortController]s and task promises are heap objects; the store keeps
    references to them.  A reference is a number handed out by
    [nextHandle]. *)
Record ProviderRuntimeStore : Type := {
  aborts : gmap string nat;
  tasks : gmap string nat;
  runtimes : gmap string ProviderAccountSnapshot;
}.

Definition createRuntimeStore : ProviderRuntimeStore :=
  {| aborts := ∅; tasks := ∅; runtimes := ∅ |}.

(** What the manager does to its collaborators, in program order: the
    plugin hooks it invokes, the snapshot patches it applies and the lines
    it logs. *)
Inductive Effect : Type :=
| CallStartAccount (p : ProviderId) (id : string) (abort task : nat)
| CallStopAccount (p : ProviderId) (id : string) (abort : option nat)
| SetRuntime (p : ProviderId) (id : string) (patch : ProviderAccountSnapshot)
| LogError (p : ProviderId) (id : string) (message : string).

(** The closure state of [createProviderManager], together with the heap
    objects it refers to:
    - [providerStores]: the [Map] filled lazily by [getStore];
    - [nextHandle]: the next fresh object reference;
    - [aborted]: the controllers whose [abort()] has been called;
    - [live]: the connection tasks returned by [startAccount] that have
      not settled yet, each with the [(providerId, id)] its
      [.catch/.finally] handlers close over;
    - [effects]: the history of [Effect]s, oldest first. *)
Record ManagerState : Type := {
  providerStores : gmap ProviderId ProviderRuntimeStore;
  nextHandle : nat;
  aborted : gset nat;
  live : gmap nat (ProviderId * string);
  effects : list Effect;
}.

Definition initialState : ManagerState :=
  {| providerStores := ∅; nextHandle := 0%nat; aborted := ∅; live := ∅;
     effects := [] |}.

(** [getStore]: a provider without an entry gets a fresh empty store.  The
    map is only ever read through [getStore], so the lazily created entry
    and a missing entry cannot be told apart. *)
Definition getStore (providerId : ProviderId) (m : ManagerState) :
  ProviderRuntimeStore :=
  default createRuntimeStore (providerStores m !! providerId).

Definition putStore (providerId : ProviderId) (s : ProviderRuntimeStore)
  (m : ManagerState) : ManagerState :=
  {| providerStores := <[providerId := s]> (providerStores m);
     nextHandle := nextHandle m; aborted := aborted m; live := live m;
     effects := effects m |}.

Definition emit (e : Effect) (m : ManagerState) : ManagerState :=
  {| providerStores := providerStores m; nextHandle := nextHandle m;
     aborted := aborted m; live := live m; effects := effects m ++ [e] |}.

Definition getRuntime (providerId : ProviderId) (id : string)
  (m : ManagerState) : ProviderAccountSnapshot :=
  default (cloneDefaultRuntime providerId id)
          (runtimes (getStore providerId m) !! id).

Definition setRuntime (providerId : ProviderId) (id : string)
  (patch : ProviderAccountSnapshot) (m : ManagerState) : ManagerState :=
  let store := getStore providerId m in
  let current := getRuntime providerId id m in
  let next := spread current patch id in
  emit (SetRuntime providerId id patch)
    (putStore providerId
       {| aborts := aborts store; tasks := tasks store;
          runtimes := <[id := next]> (runtimes store) |} m).

(** [store.aborts.set(id, abort)], [store.tasks.set(id, tracked)] and the
    two [delete]s. *)
Definition setAbort (providerId : ProviderId) (id : string) (a : nat)
  (m : ManagerState) : ManagerState :=
  let store := getStore providerId m in
  putStore providerId
    {| aborts := <[id := a]> (aborts store); tasks := tasks store;
       runtimes := runtimes store |} m.

Definition setTask (providerId : ProviderId) (id : string) (t : nat)
  (m : ManagerState) : ManagerState :=
  let store := getStore providerId m in
  putStore providerId
    {| aborts := aborts store; tasks := <[id := t]> (tasks store);
       runtimes := runtimes store |} m.

Definition deleteAbort (providerId : ProviderId) (id : string)
  (m : ManagerState) : ManagerState :=
  let store := getStore providerId m in
  putStore providerId
    {| aborts := delete id (aborts store); tasks := tasks store;
       runtimes := runtimes store |} m.

Definition deleteTask (providerId : ProviderId) (id : string)
  (m : ManagerState) : ManagerState :=
  let store := getStore providerId m in
  putStore providerId
    {| aborts := aborts store; tasks := delete id (tasks store);
       runtimes := runtimes store |} m.

(** [new AbortController()] / a promise coming back from the plugin. *)
Definition fresh (m : ManagerState) : nat * ManagerState :=
  (nextHandle m,
   {| providerStores := providerStores m; nextHandle := S (nextHandle m);
      aborted := aborted m; live := live m; effects := effects m |}).

Definition markAborted (a : nat) (m : ManagerState) : ManagerState :=
  {| providerStores := providerStores m; nextHandle := nextHandle m;
     aborted := {[a]} ∪ aborted m; live := live m; effects := effects m |}.

Definition addLive (t : nat) (p : ProviderId) (id : string)
  (m : ManagerState) : ManagerState :=
  {| providerStores := providerStores m; nextHandle := nextHandle m;
     aborted := aborted m; live := <[t := (p, id)]> (live m);
     effects := effects m |}.

Definition dropLive (t : nat) (m : ManagerState) : ManagerState :=
  {| providerStores := providerStores m; nextHandle := nextHandle m;
     aborted := aborted m; live := delete t (live m); effects := effects m |}.

(** *** Configuration

    [loadConfig()] is called afresh by every operation, and the plugin's
    [config] adapter interprets the result.  [Config] is what one such
    reading yields for the manager: the resolved accounts and the answers
    of the adapter functions. *)

(** The part of a resolved account that [isAccountEnabled] looks at. *)
Record Account : Type := { enabled : option bool }.

Record Config (Err : Type) : Type := {
  web_enabled : option bool;                       (* cfg.web?.enabled *)
  listAccountIds : ProviderId -> list string;
  resolveAccount : ProviderId -> string -> Account;
  isConfigured : ProviderId -> string -> Settled Err bool;
  describe_configured : ProviderId -> string -> option bool;
  defaultAccountId : ProviderId -> string;
  resolveDefaultWhatsAppAccountId : string;
}.
Arguments web_enabled {Err} _.
Arguments listAccountIds {Err} _ _.
Arguments resolveAccount {Err} _ _ _.
Arguments isConfigured {Err} _ _ _.
Arguments describe_configured {Err} _ _ _.
Arguments defaultAccountId {Err} _ _.
Arguments resolveDefaultWhatsAppAccountId {Err} _.

(** [enabled !== false] (a resolved account is always an object). *)
Definition isAccountEnabled (account : Account) : bool :=
  negb (bool_decide (enabled account = Some false)).

(** Truthiness of an optional string argument: [undefined] and the empty
    string select the other branch of [accountId ? ... : ...]. *)
Definition truthy (accountId : option string) : option string :=
  match accountId with
  | Some s => if bool_decide (s = "") then None else Some s
  | None => None
  end.

(** How a call made by a client of the manager ends: the returned promise
    fulfils, rejects, or stays pending for ever. *)
Inductive CallResult (E : Type) : Type :=
| Returns
| Throws (e : E)
| Hangs.
Arguments Returns {E}.
Arguments Throws {E} e.
Arguments Hangs {E}.

(** [Promise.all] over two members: the first rejection wins, otherwise
    the result is pending as long as one member is. *)
Definition bothResults {E} (r1 r2 : CallResult E) : CallResult E :=
  match r1, r2 with
  | Throws e, _ => Throws e
  | _, Throws e => Throws e
  | Hangs, _ => Hangs
  | _, Hangs => Hangs
  | Returns, Returns => Returns
  end.

Section Operations.
Context {Err : Type}.

(** [formatErrorMessage] of [infra/errors.ts] and [DEFAULT_ACCOUNT_ID] of
    [routing/session-key.ts]. *)
Variable formatErrorMessage : Err -> string.
Variable DEFAULT_ACCOUNT_ID : string.
Variable orderKey : ProviderId -> Z.

(** [isAccountEnabled(account) &&
     !(providerId === "whatsapp" && cfg.web?.enabled === false)] *)
Definition accountEnabled (cfg : Config Err) (providerId : ProviderId)
  (account : Account) : bool :=
  isAccountEnabled account
  && negb (bool_decide (providerId = whatsapp)
           && bool_decide (web_enabled cfg = Some false)).

Definition disabledPatch (id : string) : ProviderAccountSnapshot :=
  with_lastError (Some (Some "disabled")) (with_running false (patch0 id)).

Definition notConfiguredPatch (providerId : ProviderId) (id : string) :
  ProviderAccountSnapshot :=
  with_lastError
    (Some (Some (if bool_decide (providerId = whatsapp)
                 then "not linked" else "not configured")))
    (with_running false (patch0 id)).

Definition startedPatch (id : string) (now : Z) : ProviderAccountSnapshot :=
  with_lastError (Some None)
    (with_lastStartAt now (with_running true (patch0 id))).

Definition stoppedPatch (id : string) (now : Z) : ProviderAccountSnapshot :=
  with_lastStopAt now (with_running false (patch0 id)).

(** *** startProvider

    The body of the [accountIds.map(async (id) => ...)] callback is cut at
    its only suspension point, [await plugin.config.isConfigured(...)]. *)

(** From [new AbortController()] to [store.tasks.set(id, tracked)].  The
    promise returned by [startAccount] and the [tracked] promise chained
    onto it share one handle.  What the connection task itself writes
    through [ctx.setStatus] while it runs is the plugin's business and not
    part of the manager's transitions. *)
Definition launchAccount (providerId : ProviderId) (id : string) (now : Z)
  (m : ManagerState) : ManagerState :=
  let '(abort, m) := fresh m in
  let m := setAbort providerId id abort m in
  let m := setRuntime providerId id (startedPatch id now) m in
  let '(task, m) := fresh m in
  let m := emit (CallStartAccount providerId id abort task) m in
  let m := addLive task providerId id m in
  setTask providerId id task m.

Inductive StartPhase : Set := StartReturned | StartAwaitsConfigured.

(** The callback up to the [await]. *)
Definition startAccountEnter (plugin : ProviderPlugin) (cfg : Config Err)
  (providerId : ProviderId) (id : string) (now : Z) (m : ManagerState) :
  ManagerState * StartPhase :=
  if bool_decide (is_Some (tasks (getStore providerId m) !! id)) then
    (m, StartReturned)
  else
    let account := resolveAccount cfg providerId id in
    if negb (accountEnabled cfg providerId account) then
      (setRuntime providerId id (disabledPatch id) m, StartReturned)
    else if has_isConfigured plugin then (m, StartAwaitsConfigured)
    else (launchAccount providerId id now m, StartReturned).

(** The callback from the [await] on, given what [isConfigured] settled
    to. *)
Definition startAccountResume (providerId : ProviderId) (id : string)
  (configured : Settled Err bool) (now : Z) (m : ManagerState) :
  ManagerState * CallResult Err :=
  match configured with
  | Rejected e => (m, Throws e)
  | Resolved false =>
      (setRuntime providerId id (notConfiguredPatch providerId id) m, Returns)
  | Resolved true => (launchAccount providerId id now m, Returns)
  end.

(** [accountIds.map(...)] runs every callback up to its [await], in list
    order; the ids whose callback is suspended are returned. *)
Fixpoint startEnterAll (plugin : ProviderPlugin) (cfg : Config Err)
  (providerId : ProviderId) (now : Z) (ids : list string) (m : ManagerState) :
  ManagerState * list string :=
  match ids with
  | [] => (m, [])
  | id :: rest =>
      let '(m1, phase) := startAccountEnter plugin cfg providerId id now m in
      let '(m2, suspended) := startEnterAll plugin cfg providerId now rest m1 in
      (m2, match phase with
           | StartAwaitsConfigured => id :: suspended
           | StartReturned => suspended
           end)
  end.

(** The suspended callbacks then run to their end, one after the other. *)
Fixpoint startResumeAll (cfg : Config Err) (providerId : ProviderId) (now : Z)
  (suspended : list string) (m : ManagerState) : ManagerState * CallResult Err :=
  match suspended with
  | [] => (m, Returns)
  | id :: rest =>
      let '(m1, r) :=
        startAccountResume providerId id (isConfigured cfg providerId id) now m in
      let '(m2, rs) := startResumeAll cfg providerId now rest m1 in
      (m2, bothResults r rs)
  end.

(** An awaited call of [startProvider(providerId, accountId)]. *)
Definition startProvider (cfg : Config Err) (providerId : ProviderId)
  (accountId : option string) (now : Z) (m : ManagerState) :
  ManagerState * CallResult Err :=
  match getProviderPlugin providerId with
  | None => (m, Returns)
  | Some plugin =>
      if negb (has_startAccount plugin) then (m, Returns)
      else
        let accountIds :=
          match truthy accountId with
          | Some a => [a]
          | None => listAccountIds cfg providerId
          end in
        match accountIds with
        | [] => (m, Returns)
        | _ =>
            let '(m1, suspended) :=
              startEnterAll plugin cfg providerId now accountIds m in
            startResumeAll cfg providerId now suspended m1
        end
  end.

(** *** Settlement of a tracked task

    [Promise.resolve(task).catch(onRejected).finally(onSettled)]: the two
    handlers of the task with handle [t]. *)
Definition taskCatch (t : nat) (err : Err) (m : ManagerState) : ManagerState :=
  match live m !! t with
  | None => m
  | Some (providerId, id) =>
      let message := formatErrorMessage err in
      emit (LogError providerId id
              ("[" ++ id ++ "] provider exited: " ++ message))
        (setRuntime providerId id
           (with_lastError (Some (Some message)) (patch0 id)) m)
  end.

Definition taskFinally (t : nat) (now : Z) (m : ManagerState) : ManagerState :=
  match live m !! t with
  | None => m
  | Some (providerId, id) =>
      dropLive t
        (setRuntime providerId id (stoppedPatch id now)
           (deleteTask providerId id (deleteAbort providerId id m)))
  end.

(** The connection task [t] ends: it fulfils or rejects with an error. *)
Definition settleTask (t : nat) (outcome : Settled Err unit) (now : Z)
  (m : ManagerState) : ManagerState :=
  taskFinally t now
    (match outcome with
     | Rejected e => taskCatch t e m
     | Resolved _ => m
     end).

(** *** stopProvider *)

(** What the plugin side does while [stopProvider] is suspended: how the
    optional [stopAccount] hook of an account settles, and how a connection
    task ends once its signal is aborted ([None]: it never settles). *)
Record StopEnv : Type := {
  stopAccountEnds : string -> Settled Err unit;
  taskEnds : nat -> option (Settled Err unit);
}.

Inductive StopPhase : Set :=
| StopReturned
| StopAwaits (task : option nat).

Definition hasStopAccount (plugin : option ProviderPlugin) : bool :=
  match plugin with
  | Some pl => has_stopAccount pl
  | None => false
  end.

(** The callback of [stopProvider] up to its first [await]. *)
Definition stopAccountEnter (plugin : option ProviderPlugin)
  (providerId : ProviderId) (id : string) (m : ManagerState) :
  ManagerState * StopPhase :=
  let store := getStore providerId m in
  let abort := aborts store !! id in
  let task := tasks store !! id in
  if bool_decide (abort = None) && bool_decide (task = None)
     && negb (hasStopAccount plugin)
  then (m, StopReturned)
  else
    let m := match abort with Some a => markAborted a m | None => m end in
    let m := if hasStopAccount plugin
             then emit (CallStopAccount providerId id abort) m else m in
    (m, StopAwaits task).

(** The statements after [try { await task } catch { }]. *)
Definition stopAccountFinish (providerId : ProviderId) (id : string) (now : Z)
  (m : ManagerState) : ManagerState :=
  setRuntime providerId id (stoppedPatch id now)
    (deleteTask providerId id (deleteAbort providerId id m)).

(** The rest of the callback: [await stopAccount(...)] when the plugin has
    the hook, then [await task] with any rejection swallowed, then the
    clean-up.  The awaited task settles, and its own handlers run, before
    the [await] returns. *)
Definition stopAccountResume (plugin : option ProviderPlugin) (env : StopEnv)
  (providerId : ProviderId) (id : string) (task : option nat) (now : Z)
  (m : ManagerState) : ManagerState * CallResult Err :=
  match (if hasStopAccount plugin then stopAccountEnds env id
         else Resolved tt) with
  | Rejected e => (m, Throws e)
  | Resolved _ =>
      match task with
      | None => (stopAccountFinish providerId id now m, Returns)
      | Some t =>
          match live m !! t with
          | None => (stopAccountFinish providerId id now m, Returns)
          | Some _ =>
              match taskEnds env t with
              | None => (m, Hangs)
              | Some outcome =>
                  (stopAccountFinish providerId id now
                     (settleTask t outcome now m), Returns)
              end
          end
      end
  end.

Fixpoint stopEnterAll (plugin : option ProviderPlugin) (providerId : ProviderId)
  (ids : list string) (m : ManagerState) :
  ManagerState * list (string * option nat) :=
  match ids with
  | [] => (m, [])
  | id :: rest =>
      let '(m1, phase) := stopAccountEnter plugin providerId id m in
      let '(m2, suspended) := stopEnterAll plugin providerId rest m1 in
      (m2, match phase with
           | StopAwaits task => (id, task) :: suspended
           | StopReturned => suspended
           end)
  end.

Fixpoint stopResumeAll (plugin : option ProviderPlugin) (env : StopEnv)
  (providerId : ProviderId) (now : Z) (suspended : list (string * option nat))
  (m : ManagerState) : ManagerState * CallResult Err :=
  match suspended with
  | [] => (m, Returns)
  | (id, task) :: rest =>
      let '(m1, r) := stopAccountResume plugin env providerId id task now m in
      let '(m2, rs) := stopResumeAll plugin env providerId now rest m1 in
      (m2, bothResults r rs)
  end.

(** The ids [stopProvider] works on.  A [Set] keeps insertion order and
    drops repetitions; the key order of the two [Map]s is not kept by
    [gmap], their keys come in the order of [map_to_list]. *)
Definition knownIds (plugin : option ProviderPlugin) (cfg : Config Err)
  (providerId : ProviderId) (accountId : option string) (m : ManagerState) :
  list string :=
  match truthy accountId with
  | Some a => [a]
  | None =>
      let store := getStore providerId m in
      remove_dups
        ((map_to_list (aborts store)).*1 ++ (map_to_list (tasks store)).*1
         ++ match plugin with
            | Some _ => listAccountIds cfg providerId
            | None => []
            end)
  end.

(** An awaited call of [stopProvider(providerId, accountId)]. *)
Definition stopProvider (cfg : Config Err) (env : StopEnv)
  (providerId : ProviderId) (accountId : option string) (now : Z)
  (m : ManagerState) : ManagerState * CallResult Err :=
  let plugin := getProviderPlugin providerId in
  let ids := knownIds plugin cfg providerId accountId m in
  let '(m1, suspended) := stopEnterAll plugin providerId ids m in
  stopResumeAll plugin env providerId now suspended m1.

(** *** startProviders

    [for (const plugin of listProviderPlugins()) await startProvider(plugin.id)].
    While the loop is suspended in an [await], connection tasks that were
    already started may end; [between p] lists the tasks that settle
    after the call for provider [p] has returned. *)
Definition settleAll (now : Z) (events : list (nat * Settled Err unit))
  (m : ManagerState) : ManagerState :=
  foldl (fun m ev => settleTask ev.1 ev.2 now m) m events.

Fixpoint startProvidersLoop (cfg : Config Err) (now : Z)
  (between : ProviderId -> list (nat * Settled Err unit))
  (plugins : list ProviderPlugin) (m : ManagerState) :
  ManagerState * CallResult Err :=
  match plugins with
  | [] => (m, Returns)
  | plugin :: rest =>
      let '(m1, r) := startProvider cfg (plugin_id plugin) None now m in
      match r with
      | Returns =>
          startProvidersLoop cfg now between rest
            (settleAll now (between (plugin_id plugin)) m1)
      | _ => (m1, r)
      end
  end.

Definition startProviders (cfg : Config Err) (now : Z)
  (between : ProviderId -> list (nat * Settled Err unit)) (m : ManagerState) :
  ManagerState * CallResult Err :=
  startProvidersLoop cfg now between (listProviderPlugins orderKey) m.

(** *** markWhatsAppLoggedOut *)
Definition markWhatsAppLoggedOut (cfg : Config Err) (cleared : bool)
  (accountId : option string) (m : ManagerState) : ManagerState :=
  let resolvedId := default (resolveDefaultWhatsAppAccountId cfg) accountId in
  let current := getRuntime whatsapp resolvedId m in
  setRuntime whatsapp resolvedId
    {| accountId := resolvedId; running := Some false;
       connected := Some false;
       lastError := if cleared then Some (Some "logged out")
                    else lastError current;
       lastStartAt := None; lastStopAt := None |} m.

(** *** getRuntimeSnapshot *)

(** JavaScript truthiness of the optional [running] flag. *)
Definition isRunning (s : ProviderAccountSnapshot) : bool :=
  bool_decide (running s = Some true).

(** [next.lastError ??= message] *)
Definition defaultLastError (message : string) (s : ProviderAccountSnapshot) :
  ProviderAccountSnapshot :=
  match lastError s with
  | Some (Some _) => s
  | _ => with_lastError (Some (Some message)) s
  end.

(** The body of the loop over [accountIds]. *)
Definition accountSnapshot (cfg : Config Err) (plugin : ProviderPlugin)
  (id : string) (m : ManagerState) : ProviderAccountSnapshot :=
  let providerId := plugin_id plugin in
  let account := resolveAccount cfg providerId id in
  let enabled := accountEnabled cfg providerId account in
  let configured :=
    if has_describeAccount plugin then describe_configured cfg providerId id
    else None in
  let current := default (cloneDefaultRuntime providerId id)
                         (runtimes (getStore providerId m) !! id) in
  let next := spread current (patch0 id) id in
  if negb (isRunning next) then
    if negb enabled then defaultLastError "disabled" next
    else if bool_decide (configured = Some false)
         then defaultLastError "not configured" next
         else next
  else next.

(** [accounts] is a plain object: an assignment to the key ["__proto__"]
    does not make an entry but makes the assigned snapshot the prototype
    of the object; every other key becomes an own key. *)
Record AccountsObject : Type := {
  ownAccounts : gmap string ProviderAccountSnapshot;
  accountsProto : option ProviderAccountSnapshot;
}.

Definition emptyAccounts : AccountsObject :=
  {| ownAccounts := ∅; accountsProto := None |}.

(** [accounts[id] = next] *)
Definition setAccount (id : string) (next : ProviderAccountSnapshot)
  (accounts : AccountsObject) : AccountsObject :=
  if bool_decide (id = "__proto__") then
    {| ownAccounts := ownAccounts accounts; accountsProto := Some next |}
  else
    {| ownAccounts := <[id := next]> (ownAccounts accounts);
       accountsProto := accountsProto accounts |}.

(** The members that every plain object inherits from
    [Object.prototype], and the keys that a snapshot object may hold
    (the members of [ProviderAccountSnapshot] in [types.ts]). *)
Definition objectPrototypeMembers : list string :=
  ["constructor"; "__defineGetter__"; "__defineSetter__"; "hasOwnProperty";
   "__lookupGetter__"; "__lookupSetter__"; "isPrototypeOf";
   "propertyIsEnumerable"; "toString"; "valueOf"; "__proto__";
   "toLocaleString"].

Definition snapshotMembers : list string :=
  ["accountId"; "name"; "enabled"; "configured"; "linked"; "running";
   "connected"; "reconnectAttempts"; "lastConnectedAt"; "lastDisconnect";
   "lastMessageAt"; "lastEventAt"; "lastError"; "lastStartAt"; "lastStopAt";
   "lastInboundAt"; "lastOutboundAt"; "mode"; "dmPolicy"; "allowFrom";
   "tokenSource"; "botTokenSource"; "appTokenSource"; "baseUrl";
   "allowUnmentionedGroups"; "cliPath"; "dbPath"; "port"; "probe";
   "lastProbeAt"; "audit"; "application"; "bot"].

(** What [accounts[defaultAccountId] ?? cloneDefaultRuntime(..)] yields:
    - a snapshot: the own entry of the object, or the snapshot that is
      its prototype when the key is ["__proto__"], or the default record
      when the key is found nowhere;
    - a member of [Object.prototype], which is no snapshot at all;
    - when a snapshot is the prototype and the key names one of its
      members: the value of that member if the snapshot has one that is
      not [null], and [otherwise] if not. *)
Inductive DefaultAccount : Type :=
| TheAccount (snapshot : ProviderAccountSnapshot)
| PrototypeMember (key : string)
| MemberOfPrototype (proto : ProviderAccountSnapshot) (key : string)
    (otherwise : ProviderAccountSnapshot).

Definition defaultAccountOf (accounts : AccountsObject) (key : string)
  (fallback : ProviderAccountSnapshot) : DefaultAccount :=
  match ownAccounts accounts !! key with
  | Some snapshot => TheAccount snapshot
  | None =>
      match accountsProto accounts with
      | Some proto =>
          if bool_decide (key = "__proto__") then TheAccount proto
          else if bool_decide (key ∈ snapshotMembers)
               then MemberOfPrototype proto key fallback
               else if bool_decide (key ∈ objectPrototypeMembers)
                    then PrototypeMember key
                    else TheAccount fallback
      | None =>
          if bool_decide (key ∈ objectPrototypeMembers)
          then PrototypeMember key
          else TheAccount fallback
      end
  end.

(** The two entries written for one plugin: the snapshot of its default
    account and the snapshots of all its configured accounts. *)
Definition pluginSnapshot (cfg : Config Err) (plugin : ProviderPlugin)
  (m : ManagerState) : DefaultAccount * AccountsObject :=
  let providerId := plugin_id plugin in
  let accountIds := listAccountIds cfg providerId in
  let defaultId :=
    if has_defaultAccountId plugin then defaultAccountId cfg providerId
    else default DEFAULT_ACCOUNT_ID (head accountIds) in
  let accounts :=
    foldl (fun acc id => setAccount id (accountSnapshot cfg plugin id m) acc)
          emptyAccounts accountIds in
  (defaultAccountOf accounts defaultId
     (cloneDefaultRuntime providerId defaultId),
   accounts).

Definition getRuntimeSnapshot (cfg : Config Err) (m : ManagerState) :
  gmap ProviderId (DefaultAccount * AccountsObject) :=
  foldl (fun snapshot plugin =>
           <[plugin_id plugin := pluginSnapshot cfg plugin m]> snapshot)
        ∅ (listProviderPlugins orderKey).

(** *** The manager as a transition system

    One [Op] is one operation of the manager run to its end, or the end of
    one connection task. *)
Inductive Op : Type :=
| OpStartProvider (cfg : Config Err) (providerId : ProviderId)
    (accountId : option string) (now : Z)
| OpStopProvider (cfg : Config Err) (env : StopEnv) (providerId : ProviderId)
    (accountId : option string) (now : Z)
| OpTaskSettles (t : nat) (outcome : Settled Err unit) (now : Z)
| OpMarkWhatsAppLoggedOut (cfg : Config Err) (cleared : bool)
    (accountId : option string)
| OpGetRuntimeSnapshot (cfg : Config Err).

Definition runOp (op : Op) (m : ManagerState) : ManagerState :=
  match op with
  | OpStartProvider cfg p a now => (startProvider cfg p a now m).1
  | OpStopProvider cfg env p a now => (stopProvider cfg env p a now m).1
  | OpTaskSettles t outcome now => settleTask t outcome now m
  | OpMarkWhatsAppLoggedOut cfg cleared a => markWhatsAppLoggedOut cfg cleared a m
  | OpGetRuntimeSnapshot cfg => let _ := getRuntimeSnapshot cfg m in m
  end.

Definition runOps (ops : list Op) (m : ManagerState) : ManagerState :=
  foldl (fun m op => runOp op m) m ops.

(** The consistency between snapshot and task table: an account whose
    snapshot does not say [running] has no task registered. *)
Definition consistentAt (providerId : ProviderId) (id : string)
  (m : ManagerState) : Prop :=
  isRunning (getRuntime providerId id m) = false ->
  tasks (getStore providerId m) !! id = None.

(** How often [lastStartAt] was written for an account, and how often its
    connection was started, according to the history. *)
Definition isStartStamp (providerId : ProviderId) (id : string) (e : Effect) :
  bool :=
  match e with
  | SetRuntime p i patch =>
      bool_decide (p = providerId) && bool_decide (i = id)
      && bool_decide (is_Some (lastStartAt patch))
  | _ => false
  end.

Definition isStartCall (providerId : ProviderId) (id : string) (e : Effect) :
  bool :=
  match e with
  | CallStartAccount p i _ _ =>
      bool_decide (p = providerId) && bool_decide (i = id)
  | _ => false
  end.

Definition countEffects (f : Effect -> bool) (m : ManagerState) : nat :=
  length (List.filter f (effects m)).

(** The unsettled connection tasks that belong to an account. *)
Definition liveTasksOf (providerId : ProviderId) (id : string)
  (m : ManagerState) : list nat :=
  (map_to_list (filter (fun kv => kv.2 = (providerId, id)) (live m))).*1.

(** *** Notions used to state the properties of the manager *)

(** The account that [markWhatsAppLoggedOut] writes to. *)
Definition markTarget (cfg : Config Err) (accountId : option string) : string :=
  default (resolveDefaultWhatsAppAccountId cfg) accountId.

(** The side condition under which an operation is run:
    [markWhatsAppLoggedOut] is applied to an account without a registered
    task, that is, to an account that is not running. *)
Definition guarded (op : Op) (m : ManagerState) : Prop :=
  match op with
  | OpMarkWhatsAppLoggedOut cfg _ a =>
      tasks (getStore whatsapp m) !! markTarget cfg a = None
  | _ => True
  end.

Fixpoint guardedRun (ops : list Op) (m : ManagerState) : Prop :=
  match ops with
  | [] => True
  | op :: rest => guarded op m /\ guardedRun rest (runOp op m)
  end.

Definition consistent (m : ManagerState) : Prop :=
  forall p id, consistentAt p id m.

(** What a stop of one account leaves behind. *)
Definition stoppedAt (p : ProviderId) (a : string) (now : Z)
  (m : ManagerState) : Prop :=
  aborts (getStore p m) !! a = None
  /\ tasks (getStore p m) !! a = None
  /\ running (getRuntime p a m) = Some false
  /\ lastStopAt (getRuntime p a m) = Some (Some now).

(** The history of [m'] continues the history of [m]. *)
Definition grows (m m' : ManagerState) : Prop :=
  effects m `prefix_of` effects m'.

End Operations.

End Manager.

(** ** Outbound target resolution ([infra/outbound/targets.ts] and the
    [outbound.resolveTarget] member of every plugin) *)

Module Targets.
Import Providers.

(** A JavaScript string is a sequence of UTF-16 code units. *)
Definition JsString : Type := list N.

(** The code units removed by [String.prototype.trim]: the white space and
    line terminator code points of ECMAScript, all of them in the basic
    plane. *)
Definition isWhiteSpace (c : N) : bool :=
  ((9 <=? c) && (c <=? 13) || (c =? 32) || (c =? 160) || (c =? 5760)
   || (8192 <=? c) && (c <=? 8202) || (c =? 8232) || (c =? 8233)
   || (c =? 8239) || (c =? 8287) || (c =? 12288) || (c =? 65279))%N.

Fixpoint trimStart (s : JsString) : JsString :=
  match s with
  | [] => []
  | c :: s' => if isWhiteSpace c then trimStart s' else s
  end.

Definition trimEnd (s : JsString) : JsString := rev (trimStart (rev s)).

Definition trim (s : JsString) : JsString := trimEnd (trimStart s).

(** [{ ok: true, to }] or [{ ok: false, error: new Error(message) }]. *)
Inductive OutboundTargetResolution : Type :=
| TargetOk (to : JsString)
| TargetError (message : string).

Definition ok (r : OutboundTargetResolution) : bool :=
  match r with
  | TargetOk _ => true
  | TargetError _ => false
  end.

(** The [provider] argument of [resolveOutboundTarget]: a plugin id or
    ["webchat"]. *)
Inductive TargetProvider : Set :=
| Chat (p : ProviderId)
| webchat.

(** The message of the error that both the plugins and the built-in
    fallback raise for a missing destination. *)
Definition missingTargetMessage (p : ProviderId) : string :=
  match p with
  | whatsapp =>
      "Delivering to WhatsApp requires --to <E.164> or whatsapp.allowFrom[0]"
  | telegram => "Delivering to Telegram requires --to <chatId>"
  | discord =>
      "Delivering to Discord requires --to <channelId|user:ID|channel:ID>"
  | slack =>
      "Delivering to Slack requires --to <channelId|user:ID|channel:ID>"
  | signal =>
      "Delivering to Signal requires --to <E.164|group:ID|signal:group:ID|signal:+E.164>"
  | imessage => "Delivering to iMessage requires --to <handle|chat_id:ID>"
  | msteams =>
      "Delivering to MS Teams requires --to <conversationId|user:ID|conversation:ID>"
  end.

Definition webchatMessage : string :=
  "Delivering to WebChat is not supported via `clawdbot agent`; use WhatsApp/Telegram or run with --deliver=false.".

(** [x?.trim()] followed by a truthiness test: the trimmed string when it
    is not empty. *)
Definition trimmedTruthy (x : option JsString) : option JsString :=
  match x with
  | None => None
  | Some s => match trim s with [] => None | t => Some t end
  end.

(** [allowFrom?.[0]] *)
Definition firstAllowFrom (allowFrom : option (list JsString)) :
  option JsString :=
  match allowFrom with
  | None => None
  | Some l => head l
  end.

Section Resolve.
(** [normalizeE164] of [utils.ts]. *)
Variable normalizeE164 : JsString -> JsString.

(** [plugin.outbound.resolveTarget({ to, allowFrom })] of the plugin with
    id [p]. *)
Definition pluginResolveTarget (p : ProviderId) (to : option JsString)
  (allowFrom : option (list JsString)) : OutboundTargetResolution :=
  match p with
  | whatsapp =>
      match trimmedTruthy to with
      | Some trimmed => TargetOk (normalizeE164 trimmed)
      | None =>
          match trimmedTruthy (firstAllowFrom allowFrom) with
          | Some fallback => TargetOk (normalizeE164 fallback)
          | None => TargetError (missingTargetMessage whatsapp)
          end
      end
  | _ =>
      match trimmedTruthy to with
      | None => TargetError (missingTargetMessage p)
      | Some trimmed => TargetOk trimmed
      end
  end.

(** The code of [resolveOutboundTarget] after the plugin lookup, used when
    there is no plugin resolver. *)
Definition builtinResolveTarget (provider : TargetProvider)
  (to : option JsString) (allowFrom : option (list JsString)) :
  OutboundTargetResolution :=
  let trimmed := match to with Some s => trim s | None => [] end in
  match provider with
  | Chat whatsapp =>
      match trimmed with
      | _ :: _ => TargetOk (normalizeE164 trimmed)
      | [] =>
          match trimmedTruthy (firstAllowFrom allowFrom) with
          | Some fallback => TargetOk fallback
          | None => TargetError (missingTargetMessage whatsapp)
          end
      end
  | Chat p =>
      match trimmed with
      | [] => TargetError (missingTargetMessage p)
      | _ :: _ => TargetOk trimmed
      end
  | webchat => TargetError webchatMessage
  end.

Definition resolveOutboundTarget (provider : TargetProvider)
  (to : option JsString) (allowFrom : option (list JsString)) :
  OutboundTargetResolution :=
  let plugin :=
    match provider with
    | webchat => None
    | Chat p => getProviderPlugin p
    end in
  let resolver :=
    match plugin with
    | Some pl =>
        match outbound pl with
        | Some o => if has_resolveTarget o then Some (plugin_id pl) else None
        | None => None
        end
    | None => None
    end in
  match resolver with
  | Some p => pluginResolveTarget p to allowFrom
  | None => builtinResolveTarget provider to allowFrom
  end.
End Resolve.

(** [needle] occurs in [hay]. *)
Fixpoint occursIn (needle hay : string) : bool :=
  String.prefix needle hay
  || match hay with
     | EmptyString => false
     | String _ hay' => occursIn needle hay'
     end.

(** What a message has to spell out in order to name the address syntax
    that a provider expects, in the notation of the [--to] option. *)
Definition expectedSyntax (p : ProviderId) : string :=
  match p with
  | whatsapp => "<E.164>"
  | telegram => "<chatId>"
  | discord | slack => "<channelId|user:ID|channel:ID>"
  | signal => "<E.164|group:ID|signal:group:ID|signal:+E.164>"
  | imessage => "<handle|chat_id:ID>"
  | msteams => "<conversationId|user:ID|conversation:ID>"
  end.

(** A destination that is missing, empty, or made of white space only. *)
Definition blank (to : option JsString) : Prop :=
  match to with
  | None => True
  | Some s => forallb isWhiteSpace s = true
  end.

End Targets.

(** ** The outbound delivery engine ([infra/outbound/deliver.ts]) *)

Module Deliver.
Import Providers.

(** One unit of [normalizeOutboundPayloads]' result. *)
Record NormalizedOutboundPayload : Type := {
  text : string;
  mediaUrls : list string;
}.

(** A call of one of the two members of the [ProviderHandler]. *)
Inductive SendCall : Type :=
| SendText (text : string)
| SendMedia (caption mediaUrl : string).

Section Engine.
(** [Err]: what a send may throw; [Res]: an [OutboundDeliveryResult];
    [ReplyPayload]: the raw payloads given by the caller. *)
Context {Err Res ReplyPayload : Type}.

(** The collaborators from [auto-reply/chunk.ts] and [payloads.ts]. *)
Variable chunkTextFn : string -> Z -> list string.
Variable chunkMarkdownTextFn : string -> Z -> list string.
Variable resolveTextChunkLimit : ProviderId -> option string -> Z.
Variable normalizeOutboundPayloads :
  list ReplyPayload -> list NormalizedOutboundPayload.

(** The provider side: what a send settles to, given the sends that were
    completed before it. *)
Variable respond : list SendCall -> SendCall -> Settled Err Res.

Definition Chunker : Type := string -> Z -> list string.

Definition chunkerOf (c : ChunkerName) : Chunker :=
  match c with
  | chunkText => chunkTextFn
  | chunkMarkdownText => chunkMarkdownTextFn
  end.

(** [providerCaps] *)
Definition providerCaps (p : ProviderId) : option Chunker :=
  match p with
  | whatsapp => Some chunkTextFn
  | telegram => Some chunkMarkdownTextFn
  | discord => None
  | slack => None
  | signal => Some chunkTextFn
  | imessage => Some chunkTextFn
  | msteams => Some chunkMarkdownTextFn
  end.

(** The [chunker] member of the handler made by [createPluginHandler];
    [None] when the plugin lacks [sendText] or [sendMedia]. *)
Definition createPluginHandler (outbound : option ProviderOutboundAdapter)
  (provider : ProviderId) : option (option Chunker) :=
  match outbound with
  | None => None
  | Some o =>
      if negb (has_sendText o) || negb (has_sendMedia o) then None
      else Some (match chunker o with
                 | ChunkerUndefined => providerCaps provider
                 | ChunkerNull => None
                 | ChunkerFn c => Some (chunkerOf c)
                 end)
  end.

(** [createProviderHandler]: the plugin's handler, else the built-in one.
    Both send through the same [deps], so the handler is known by its
    chunker. *)
Definition createProviderHandler (provider : ProviderId) : option Chunker :=
  let outbound :=
    match getProviderPlugin provider with
    | Some plugin => outbound plugin
    | None => None
    end in
  match createPluginHandler outbound provider with
  | Some pluginHandler => pluginHandler
  | None => providerCaps provider
  end.

(** The local state of one [deliverOutboundPayloads] call and the calls it
    has made: the sends in program order, the [results] array, and the
    arguments of the [onPayload] and [onError] invocations. *)
Record DeliveryState : Type := {
  sent : list SendCall;
  results : list Res;
  announced : list NormalizedOutboundPayload;
  reported : list (Err * NormalizedOutboundPayload);
}.

Definition emptyDelivery : DeliveryState :=
  {| sent := []; results := []; announced := []; reported := [] |}.

(** Statements that read and write the delivery state and may throw. *)
Definition Eff (A : Type) : Type :=
  DeliveryState -> DeliveryState * Settled Err A.

Definition ret {A} (a : A) : Eff A := fun s => (s, Resolved a).

Definition throw {A} (e : Err) : Eff A := fun s => (s, Rejected e).

Definition bind {A B} (c : Eff A) (k : A -> Eff B) : Eff B :=
  fun s =>
    match c s with
    | (s', Resolved a) => k a s'
    | (s', Rejected e) => (s', Rejected e)
    end.

(** [try { c } catch (err) { h err }] *)
Definition tryCatch {A} (c : Eff A) (h : Err -> Eff A) : Eff A :=
  fun s =>
    match c s with
    | (s', Resolved a) => (s', Resolved a)
    | (s', Rejected e) => h e s'
    end.

#[local] Instance Eff_ret : MRet Eff := @ret.
#[local] Instance Eff_bind : MBind Eff := fun A B k c => bind c k.

(** [for (const x of xs) { body x }] *)
Fixpoint forEach {A} (xs : list A) (body : A -> Eff unit) : Eff unit :=
  match xs with
  | [] => ret tt
  | x :: xs' => body x ;; forEach xs' body
  end.

(** [results.push(await handler.sendText(..))] and the same for
    [sendMedia]: the call is made, awaited, and its result appended. *)
Definition send (c : SendCall) : Eff unit :=
  fun s =>
    let s1 := {| sent := sent s ++ [c]; results := results s;
                 announced := announced s; reported := reported s |} in
    match respond (sent s) c with
    | Resolved r =>
        ({| sent := sent s1; results := results s1 ++ [r];
            announced := announced s1; reported := reported s1 |},
         Resolved tt)
    | Rejected e => (s1, Rejected e)
    end.

(** [params.onPayload?.(payload)]; the callback may throw. *)
Definition callOnPayload
  (onPayload : option (NormalizedOutboundPayload -> option Err))
  (payload : NormalizedOutboundPayload) : Eff unit :=
  match onPayload with
  | None => ret tt
  | Some f =>
      fun s =>
        let s1 := {| sent := sent s; results := results s;
                     announced := announced s ++ [payload];
                     reported := reported s |} in
        match f payload with
        | None => (s1, Resolved tt)
        | Some e => (s1, Rejected e)
        end
  end.

(** [params.onError?.(err, payload)] *)
Definition callOnError (onError : bool) (err : Err)
  (payload : NormalizedOutboundPayload) : Eff unit :=
  fun s =>
    if onError then
      ({| sent := sent s; results := results s; announced := announced s;
          reported := reported s ++ [(err, payload)] |}, Resolved tt)
    else (s, Resolved tt).

Definition sendTextChunks (handlerChunker : option Chunker)
  (textLimit : option Z) (text : string) : Eff unit :=
  match handlerChunker, textLimit with
  | Some chunk, Some limit =>
      forEach (chunk text limit) (fun piece => send (SendText piece))
  | _, _ => send (SendText text)
  end.

(** The [for (const url of payload.mediaUrls)] loop with its [first]
    flag. *)
Fixpoint sendMediaFrom (first : bool) (text : string) (urls : list string) :
  Eff unit :=
  match urls with
  | [] => ret tt
  | url :: rest =>
      let caption := if first then text else "" in
      send (SendMedia caption url) ;; sendMediaFrom false text rest
  end.

(** The options of a delivery that steer its control flow. *)
Record DeliverOptions : Type := {
  bestEffort : bool;
  onError : bool;
  onPayload : option (NormalizedOutboundPayload -> option Err);
}.

(** The [try] block of the loop body. *)
Definition deliverPayload (opts : DeliverOptions)
  (handlerChunker : option Chunker) (textLimit : option Z)
  (payload : NormalizedOutboundPayload) : Eff unit :=
  callOnPayload (onPayload opts) payload ;;
  match mediaUrls payload with
  | [] => sendTextChunks handlerChunker textLimit (text payload)
  | urls => sendMediaFrom true (text payload) urls
  end.

(** [for (const payload of normalizedPayloads) try { .. } catch (err) { .. }] *)
Fixpoint deliverLoop (opts : DeliverOptions) (handlerChunker : option Chunker)
  (textLimit : option Z) (payloads : list NormalizedOutboundPayload) :
  Eff unit :=
  match payloads with
  | [] => ret tt
  | payload :: rest =>
      tryCatch (deliverPayload opts handlerChunker textLimit payload)
        (fun err =>
           if negb (bestEffort opts) then throw err
           else callOnError (onError opts) err payload) ;;
      deliverLoop opts handlerChunker textLimit rest
  end.

(** [textLimit = handler.chunker ? resolveTextChunkLimit(..) : undefined] *)
Definition textLimitOf (handlerChunker : option Chunker)
  (provider : ProviderId) (accountId : option string) : option Z :=
  match handlerChunker with
  | Some _ => Some (resolveTextChunkLimit provider accountId)
  | None => None
  end.

(** The delivery of already normalized payloads. *)
Definition deliverNormalized (opts : DeliverOptions) (provider : ProviderId)
  (accountId : option string) (payloads : list NormalizedOutboundPayload) :
  Eff unit :=
  let handlerChunker := createProviderHandler provider in
  deliverLoop opts handlerChunker
    (textLimitOf handlerChunker provider accountId) payloads.

(** [deliverOutboundPayloads]: the final state of the call, and either the
    returned [results] or the error thrown to the caller. *)
Definition deliverOutboundPayloads (opts : DeliverOptions)
  (provider : ProviderId) (accountId : option string)
  (payloads : list ReplyPayload) :
  DeliveryState * Settled Err (list Res) :=
  match deliverNormalized opts provider accountId
          (normalizeOutboundPayloads payloads) emptyDelivery with
  | (s, Resolved _) => (s, Resolved (results s))
  | (s, Rejected e) => (s, Rejected e)
  end.

(** What [deliverOutboundPayloads] makes of the end of the loop. *)
Definition returned (end_ : DeliveryState * Settled Err unit) :
  DeliveryState * Settled Err (list Res) :=
  match end_ with
  | (s, Resolved _) => (s, Resolved (results s))
  | (s, Rejected e) => (s, Rejected e)
  end.

(** *** Reference behaviour of a run of sends

    [answer hist calls]: the provider is asked [calls] one after the
    other, each call after the previous one has completed, starting from
    the history [hist]; the run ends at the first rejection.  The result
    is the calls made, the results received and the error, if any. *)
Fixpoint answer (hist : list SendCall) (calls : list SendCall) :
  list SendCall * list Res * option Err :=
  match calls with
  | [] => ([], [], None)
  | c :: rest =>
      match respond hist c with
      | Resolved r =>
          let '(made, rs, e) := answer (hist ++ [c]) rest in
          (c :: made, r :: rs, e)
      | Rejected e => ([c], [], Some e)
      end
  end.

(** Every call of the run is answered with a result. *)
Fixpoint succeeds (hist : list SendCall) (calls : list SendCall) : Prop :=
  match calls with
  | [] => True
  | c :: rest =>
      (exists r, respond hist c = Resolved r) /\ succeeds (hist ++ [c]) rest
  end.

Definition responses (hist : list SendCall) (calls : list SendCall) :
  list Res := (answer hist calls).1.2.

(** The sends that a payload with media asks for. *)
Definition mediaCalls (text : string) (urls : list string) : list SendCall :=
  match urls with
  | [] => []
  | url :: rest => SendMedia text url :: map (SendMedia "") rest
  end.

(** The sends that a payload asks for, given the handler's chunker and
    the text limit. *)
Definition plannedCalls (handlerChunker : option Chunker)
  (textLimit : option Z) (payload : NormalizedOutboundPayload) :
  list SendCall :=
  match mediaUrls payload with
  | [] =>
      match handlerChunker, textLimit with
      | Some chunk, Some limit => map SendText (chunk (text payload) limit)
      | _, _ => [SendText (text payload)]
      end
  | urls => mediaCalls (text payload) urls
  end.

(** The [onPayload] callback, if there is one, returns normally. *)
Definition quietOnPayload (opts : DeliverOptions)
  (payload : NormalizedOutboundPayload) : Prop :=
  forall f, onPayload opts = Some f -> f payload = None.

Definition announce (opts : DeliverOptions)
  (payload : NormalizedOutboundPayload) (s : DeliveryState) : DeliveryState :=
  match onPayload opts with
  | None => s
  | Some _ =>
      {| sent := sent s; results := results s;
         announced := announced s ++ [payload]; reported := reported s |}
  end.

(** The state after a run of sends. *)
Definition afterSends (made : list SendCall) (rs : list Res)
  (s : DeliveryState) : DeliveryState :=
  {| sent := sent s ++ made; results := results s ++ rs;
     announced := announced s; reported := reported s |}.

Definition report (e : Err) (payload : NormalizedOutboundPayload)
  (s : DeliveryState) : DeliveryState :=
  {| sent := sent s; results := results s; announced := announced s;
     reported := reported s ++ [(e, payload)] |}.

Definition reportIf (opts : DeliverOptions) (e : Err)
  (payload : NormalizedOutboundPayload) (s : DeliveryState) : DeliveryState :=
  if onError opts then report e payload s else s.

Definition settledOf (e : option Err) : Settled Err unit :=
  match e with
  | None => Resolved tt
  | Some err => Rejected err
  end.

End Engine.

End Deliver.

(** ** The restart loop of the gateway process ([runGatewayLoop] in
    [cli/gateway-cli.ts]) *)

Module Supervisor.

Inductive GatewayRunSignalAction : Set := stop | restart.

Inductive Signal : Set := SIGTERM | SIGINT | SIGUSR1.

(** [onSigterm], [onSigint] and [onSigusr1]. *)
Definition actionOf (sig : Signal) : GatewayRunSignalAction :=
  match sig with
  | SIGTERM => stop
  | SIGINT => stop
  | SIGUSR1 => restart
  end.

Definition signalName (sig : Signal) : string :=
  match sig with
  | SIGTERM => "SIGTERM"
  | SIGINT => "SIGINT"
  | SIGUSR1 => "SIGUSR1"
  end.

(** Where the [while (true)] loop is suspended. *)
Inductive LoopPhase : Set :=
| Starting                 (* in [server = await params.start()] *)
| Waiting (promise : nat)  (* in [await new Promise((resolve) => ...)] *)
| Left.                    (* [params.start()] rejected, the loop is left *)

(** The variables of [runGatewayLoop] and what the process around it has
    seen:
    - [server], [shuttingDown], [restartResolver]: the three [let]s; the
      resolver is known by the promise it resolves;
    - [forceExitTimer]: the delay of the timer while it is armed;
    - [closing]: the action of the asynchronous block that is suspended
      in [await server?.close(..)];
    - [listening]: the three signal handlers are installed;
    - [exited]: the code given to [params.runtime.exit];
    - [started]: how often [params.start()] has been called;
    - [closeCalls]: the servers whose [close] was called, with the reason;
    - [logged]: the lines given to [gatewayLog]. *)
Record GatewayLoop : Type := {
  server : option nat;
  shuttingDown : bool;
  restartResolver : option nat;
  phase : LoopPhase;
  nextPromise : nat;
  forceExitTimer : option Z;
  closing : option GatewayRunSignalAction;
  listening : bool;
  exited : option Z;
  started : nat;
  closeCalls : list (nat * string);
  logged : list string;
}.

(** The state when [runGatewayLoop] reaches its first [await]: handlers
    installed, the first [params.start()] under way. *)
Definition initialLoop : GatewayLoop :=
  {| server := None; shuttingDown := false; restartResolver := None;
     phase := Starting; nextPromise := 0%nat; forceExitTimer := None;
     closing := None; listening := true; exited := None; started := 1%nat;
     closeCalls := []; logged := [] |}.

Definition logLine (line : string) (s : GatewayLoop) : GatewayLoop :=
  {| server := server s; shuttingDown := shuttingDown s;
     restartResolver := restartResolver s; phase := phase s;
     nextPromise := nextPromise s; forceExitTimer := forceExitTimer s;
     closing := closing s; listening := listening s; exited := exited s;
     started := started s; closeCalls := closeCalls s;
     logged := logged s ++ [line] |}.

(** [cleanupSignals(); params.runtime.exit(0)] *)
Definition cleanupAndExit (s : GatewayLoop) : GatewayLoop :=
  {| server := server s; shuttingDown := shuttingDown s;
     restartResolver := restartResolver s; phase := phase s;
     nextPromise := nextPromise s; forceExitTimer := forceExitTimer s;
     closing := closing s; listening := false; exited := Some 0;
     started := started s; closeCalls := closeCalls s;
     logged := logged s |}.

(** [request(action, signal)] up to the [await] inside its asynchronous
    block. *)
Definition request (action : GatewayRunSignalAction) (signal : string)
  (s : GatewayLoop) : GatewayLoop :=
  if shuttingDown s then
    logLine ("received " ++ signal ++ " during shutdown; ignoring") s
  else
    let isRestart := match action with restart => true | stop => false end in
    {| server := server s;
       shuttingDown := true;
       restartResolver := restartResolver s;
       phase := phase s;
       nextPromise := nextPromise s;
       forceExitTimer := Some 5000;
       closing := Some action;
       listening := listening s;
       exited := exited s;
       started := started s;
       closeCalls :=
         match server s with
         | Some h =>
             closeCalls s
             ++ [(h, if isRestart then "gateway restarting"
                     else "gateway stopping")]
         | None => closeCalls s
         end;
       logged :=
         logged s
         ++ ["received " ++ signal ++ "; "
             ++ (if isRestart then "restarting" else "shutting down")] |}.

(** [restartResolver?.()]: the loop goes on only when it is suspended on
    the promise of this resolver; it then calls [params.start()] again. *)
Definition callRestartResolver (s : GatewayLoop) : GatewayLoop :=
  match restartResolver s, phase s with
  | Some k, Waiting k' =>
      if bool_decide (k = k') then
        {| server := server s; shuttingDown := shuttingDown s;
           restartResolver := restartResolver s; phase := Starting;
           nextPromise := nextPromise s; forceExitTimer := forceExitTimer s;
           closing := closing s; listening := listening s;
           exited := exited s; started := S (started s);
           closeCalls := closeCalls s; logged := logged s |}
      else s
  | _, _ => s
  end.

(** The [catch] and [finally] of the asynchronous block, once
    [server?.close(..)] has settled. *)
Definition closeSettled (action : GatewayRunSignalAction)
  (r : Settled string unit) (s : GatewayLoop) : GatewayLoop :=
  let s :=
    match r with
    | Rejected err => logLine ("shutdown error: " ++ err) s
    | Resolved _ => s
    end in
  let s :=
    {| server := None; shuttingDown := shuttingDown s;
       restartResolver := restartResolver s; phase := phase s;
       nextPromise := nextPromise s; forceExitTimer := None;
       closing := None; listening := listening s; exited := exited s;
       started := started s; closeCalls := closeCalls s;
       logged := logged s |} in
  match action with
  | restart =>
      callRestartResolver
        {| server := server s; shuttingDown := false;
           restartResolver := restartResolver s; phase := phase s;
           nextPromise := nextPromise s; forceExitTimer := forceExitTimer s;
           closing := closing s; listening := listening s;
           exited := exited s; started := started s;
           closeCalls := closeCalls s; logged := logged s |}
  | stop => cleanupAndExit s
  end.

(** The callback of [setTimeout(.., 5000)]. *)
Definition forceExit (s : GatewayLoop) : GatewayLoop :=
  cleanupAndExit
    (logLine "shutdown timed out; exiting without full cleanup"
       {| server := server s; shuttingDown := shuttingDown s;
          restartResolver := restartResolver s; phase := phase s;
          nextPromise := nextPromise s; forceExitTimer := None;
          closing := closing s; listening := listening s;
          exited := exited s; started := started s;
          closeCalls := closeCalls s; logged := logged s |}).

(** [params.start()] has settled while the loop waits for it. *)
Definition startSettled (r : Settled string nat) (s : GatewayLoop) :
  GatewayLoop :=
  match r with
  | Resolved h =>
      {| server := Some h; shuttingDown := shuttingDown s;
         restartResolver := Some (nextPromise s);
         phase := Waiting (nextPromise s);
         nextPromise := S (nextPromise s);
         forceExitTimer := forceExitTimer s; closing := closing s;
         listening := listening s; exited := exited s;
         started := started s; closeCalls := closeCalls s;
         logged := logged s |}
  | Rejected _ =>
      {| server := server s; shuttingDown := shuttingDown s;
         restartResolver := restartResolver s; phase := Left;
         nextPromise := nextPromise s; forceExitTimer := forceExitTimer s;
         closing := closing s; listening := false; exited := exited s;
         started := started s; closeCalls := closeCalls s;
         logged := logged s |}
  end.

(** What can happen to the process. *)
Inductive Event : Type :=
| Receive (sig : Signal)
| StartSettles (r : Settled string nat)
| CloseSettles (r : Settled string unit)
| TimerFires.

(** One turn of the event loop.  Nothing runs once the process has
    exited; an event without a waiting continuation changes nothing. *)
Definition step (e : Event) (s : GatewayLoop) : GatewayLoop :=
  match exited s with
  | Some _ => s
  | None =>
      match e with
      | Receive sig =>
          if listening s then request (actionOf sig) (signalName sig) s
          else s
      | StartSettles r =>
          match phase s with
          | Starting => startSettled r s
          | _ => s
          end
      | CloseSettles r =>
          match closing s with
          | Some action => closeSettled action r s
          | None => s
          end
      | TimerFires =>
          match forceExitTimer s with
          | Some _ => forceExit s
          | None => s
          end
      end
  end.

Definition run (events : list Event) (s : GatewayLoop) : GatewayLoop :=
  foldl (fun s e => step e s) s events.

(** Normal operation: a server is up, the loop waits for a restart, and
    no shutdown is under way. *)
Definition serving (h : nat) (s : GatewayLoop) : Prop :=
  server s = Some h /\ shuttingDown s = false /\ closing s = None
  /\ forceExitTimer s = None /\ listening s = true /\ exited s = None
  /\ exists k, phase s = Waiting k /\ restartResolver s = Some k.

(** Events that neither complete the pending [close] nor fire the
    timer. *)
Definition isBystander (e : Event) : bool :=
  match e with
  | Receive _ => true
  | StartSettles _ => true
  | CloseSettles _ => false
  | TimerFires => false
  end.

(** A stop request is being carried out: the close is pending and the
    forced-exit timer is armed. *)
Definition stopping (s : GatewayLoop) : Prop :=
  exited s = None /\ shuttingDown s = true /\ closing s = Some stop
  /\ forceExitTimer s = Some 5000.

End Supervisor.

(** ** The destination of heartbeat messages
    ([resolveHeartbeatDeliveryTarget] in [infra/outbound/targets.ts]) *)

Module Heartbeat.
Import Providers Targets.

(** [OutboundProvider]: a plugin id or ["none"]. *)
Inductive OutboundProvider : Set :=
| To (p : ProviderId)
| none.

(** [HeartbeatTarget = OutboundProvider | "last"] *)
Inductive HeartbeatTarget : Set :=
| Fixed (p : OutboundProvider)
| Last.

Inductive Reason : Set := TargetNone | NoTarget | AllowFromFallback.

Definition reasonText (r : Reason) : string :=
  match r with
  | TargetNone => "target-none"
  | NoTarget => "no-target"
  | AllowFromFallback => "allowFrom-fallback"
  end.

(** [OutboundTarget] *)
Record OutboundTarget : Type := {
  target_provider : OutboundProvider;
  target_to : option JsString;
  target_reason : option Reason;
}.

(** What the function reads of the configuration:
    [cfg.agents?.defaults?.heartbeat?.target], the same path ending in
    [to] when a string is stored there, and [cfg.whatsapp?.allowFrom]. *)
Record HeartbeatConfig : Type := {
  heartbeat_target : option string;
  heartbeat_to : option JsString;
  whatsapp_allowFrom : option (list JsString);
}.

(** What it reads of the session entry.  [lastProvider] may name the web
    chat, which is no outbound provider. *)
Record SessionEntry : Type := {
  lastProvider : option TargetProvider;
  lastTo : option JsString;
}.

Definition allProviders : list ProviderId :=
  [whatsapp; telegram; discord; slack; signal; imessage; msteams].

(** The provider whose id is the given string. *)
Definition providerOfName (s : string) : option ProviderId :=
  List.find (fun p => bool_decide (provider_name p = s)) allProviders.

(** The chain of comparisons that yields [target]: one of the nine known
    values is kept, anything else counts as ["last"]. *)
Definition heartbeatTargetOf (rawTarget : option string) : HeartbeatTarget :=
  match rawTarget with
  | None => Last
  | Some s =>
      match providerOfName s with
      | Some p => Fixed (To p)
      | None => if bool_decide (s = "none") then Fixed none else Last
      end
  end.

(** [entry?.lastProvider && entry.lastProvider !== "webchat"
     ? entry.lastProvider : undefined] *)
Definition lastProviderOf (entry : option SessionEntry) : option ProviderId :=
  match entry with
  | Some e =>
      match lastProvider e with
      | Some (Chat p) => Some p
      | _ => None
      end
  | None => None
  end.

(** [typeof entry?.lastTo === "string" ? entry.lastTo.trim() : ""] *)
Definition lastToOf (entry : option SessionEntry) : JsString :=
  match entry with
  | Some e => match lastTo e with Some s => trim s | None => [] end
  | None => []
  end.

(** The [provider] constant. *)
Definition heartbeatProvider (target : HeartbeatTarget)
  (entry : option SessionEntry) : option ProviderId :=
  match target with
  | Last => lastProviderOf entry
  | Fixed (To p) => Some p
  | Fixed none => None
  end.

(** A string as the operand of [||] and [!]: the empty string counts as
    absent. *)
Definition nonEmpty (s : JsString) : option JsString :=
  match s with [] => None | _ => Some s end.

(** The [to] constant:
    [explicitTo || (provider && lastProvider === provider ? lastTo : undefined)
     || (target === "last" ? lastTo : undefined)]. *)
Definition heartbeatTo (cfg : HeartbeatConfig) (target : HeartbeatTarget)
  (entry : option SessionEntry) : option JsString :=
  let explicitTo := trimmedTruthy (heartbeat_to cfg) in
  let provider := heartbeatProvider target entry in
  let fromSession :=
    match provider with
    | Some p =>
        if bool_decide (lastProviderOf entry = Some p)
        then nonEmpty (lastToOf entry) else None
    | None => None
    end in
  let fromLast :=
    match target with
    | Last => nonEmpty (lastToOf entry)
    | Fixed _ => None
    end in
  match explicitTo with
  | Some t => Some t
  | None => match fromSession with Some t => Some t | None => fromLast end
  end.

Definition noTarget : OutboundTarget :=
  {| target_provider := none; target_to := None;
     target_reason := Some NoTarget |}.

Definition deliverTo (p : ProviderId) (to : JsString) : OutboundTarget :=
  {| target_provider := To p; target_to := Some to; target_reason := None |}.

Section Resolve.
Variable normalizeE164 : JsString -> JsString.

(** [rawAllow.map((val) => normalizeE164(val)).filter((val) => val.length > 1)] *)
Definition normalizedAllowFrom (rawAllow : list JsString) : list JsString :=
  List.filter (fun val => (1 <? length val)%nat) (map normalizeE164 rawAllow).

(** The tail of the function, for WhatsApp. *)
Definition whatsappHeartbeatTarget (cfg : HeartbeatConfig) (to : JsString) :
  OutboundTarget :=
  let rawAllow := default [] (whatsapp_allowFrom cfg) in
  match resolveOutboundTarget normalizeE164 (Chat whatsapp) (Some to)
          (Some rawAllow) with
  | TargetError _ => noTarget
  | TargetOk resolved =>
      if bool_decide ([42%N] ∈ rawAllow) then deliverTo whatsapp resolved
      else
        let allowFrom := normalizedAllowFrom rawAllow in
        match allowFrom with
        | [] => deliverTo whatsapp resolved
        | first :: _ =>
            if bool_decide (resolved ∈ allowFrom)
            then deliverTo whatsapp resolved
            else {| target_provider := To whatsapp; target_to := Some first;
                    target_reason := Some AllowFromFallback |}
        end
  end.

Definition resolveHeartbeatDeliveryTarget (cfg : HeartbeatConfig)
  (entry : option SessionEntry) : OutboundTarget :=
  let target := heartbeatTargetOf (heartbeat_target cfg) in
  match target with
  | Fixed none =>
      {| target_provider := none; target_to := None;
         target_reason := Some TargetNone |}
  | _ =>
      match heartbeatProvider target entry, heartbeatTo cfg target entry with
      | Some provider, Some to =>
          if bool_decide (provider = whatsapp)
          then whatsappHeartbeatTarget cfg to
          else
            match resolveOutboundTarget normalizeE164 (Chat provider)
                    (Some to) None with
            | TargetOk resolved => deliverTo provider resolved
            | TargetError _ => noTarget
            end
      | _, _ => noTarget
      end
  end.
End Resolve.

End Heartbeat.

(** ** Notions used to state further properties of the manager *)

Module ManagerNotions.
Import Providers Manager.

(** The accounts with a cancellation handle are the accounts with a
    task. *)
Definition paired (m : ManagerState) : Prop :=
  forall p, dom (aborts (getStore p m)) = dom (tasks (getStore p m)).

(** The snapshot of an account says that it was stopped at [now]. *)
Definition halted (p : ProviderId) (id : string) (now : Z)
  (m : ManagerState) : Prop :=
  running (getRuntime p id m) = Some false
  /\ lastStopAt (getRuntime p id m) = Some (Some now).

(** The task table and the unsettled connection tasks agree: a
    registered task has not settled and belongs to the account it is
    registered for, an unsettled task is registered, and the handles in
    use are older than the next fresh one. *)
Definition tracked (m : ManagerState) : Prop :=
  (forall p id t, tasks (getStore p m) !! id = Some t ->
                  live m !! t = Some (p, id))
  /\ (forall t p id, live m !! t = Some (p, id) ->
                     tasks (getStore p m) !! id = Some t)
  /\ (forall t, is_Some (live m !! t) -> (t < nextHandle m)%nat).

(** An operation whose configuration lists no account twice. *)
Definition wellFormed {Err} (op : @Op Err) : Prop :=
  match op with
  | OpStartProvider cfg p _ _ => NoDup (listAccountIds cfg p)
  | _ => True
  end.

(** The tasks of [m'] are among the tasks of [m]. *)
Definition fewer (m m' : ManagerState) : Prop :=
  forall q i, tasks (getStore q m') !! i = None
              \/ tasks (getStore q m') !! i = tasks (getStore q m) !! i.

End ManagerNotions.

(** ** The choice of a message provider
    ([infra/outbound/provider-selection.ts]) *)

Module Selection.
Import Providers Manager.

(** What a call may reject with: a value thrown by a plugin function, or
    an [Error] made here with the given message. *)
Inductive SelectionError (Err : Type) : Type :=
| Thrown (e : Err)
| ErrorMessage (message : string).
Arguments Thrown {Err} e.
Arguments ErrorMessage {Err} message.

Section Select.
Context {Err : Type}.
Variable orderKey : ProviderId -> Z.

(** [normalizeMessageProvider] of [utils/message-provider.ts]. *)
Variable normalizeMessageProvider : option string -> option string.

(** [listMessageProviders]: the ids of the listed plugins.  The cache
    holds the result of the first call; the list is the same at every
    call. *)
Definition listMessageProviders : list ProviderId :=
  plugin_id <$> listProviderPlugins orderKey.

(** [isKnownProvider]: the listed provider whose id is the string. *)
Definition isKnownProvider (value : string) : option ProviderId :=
  List.find (fun p => bool_decide (provider_name p = value))
            listMessageProviders.

(** The loop of [isProviderConfigured] over the account ids that are
    left. *)
Fixpoint isProviderConfiguredFrom (plugin : ProviderPlugin)
  (cfg : Config Err) (accountIds : list string) : Settled Err bool :=
  match accountIds with
  | [] => Resolved false
  | accountId :: rest =>
      let account := resolveAccount cfg (plugin_id plugin) accountId in
      if bool_decide (enabled account = Some false)
      then isProviderConfiguredFrom plugin cfg rest
      else if has_isConfigured plugin then
        match isConfigured cfg (plugin_id plugin) accountId with
        | Rejected e => Rejected e
        | Resolved true => Resolved true
        | Resolved false => isProviderConfiguredFrom plugin cfg rest
        end
      else Resolved true
  end.

Definition isProviderConfigured (plugin : ProviderPlugin) (cfg : Config Err) :
  Settled Err bool :=
  isProviderConfiguredFrom plugin cfg (listAccountIds cfg (plugin_id plugin)).

(** The loop of [listConfiguredMessageProviders]: [providers] is the
    array built so far. *)
Fixpoint listConfiguredFrom (cfg : Config Err) (plugins : list ProviderPlugin)
  (providers : list ProviderId) : Settled Err (list ProviderId) :=
  match plugins with
  | [] => Resolved providers
  | plugin :: rest =>
      match isProviderConfigured plugin cfg with
      | Rejected e => Rejected e
      | Resolved true =>
          listConfiguredFrom cfg rest (providers ++ [plugin_id plugin])
      | Resolved false => listConfiguredFrom cfg rest providers
      end
  end.

Definition listConfiguredMessageProviders (cfg : Config Err) :
  Settled Err (list ProviderId) :=
  listConfiguredFrom cfg (listProviderPlugins orderKey) [].

(** [configured.join(", ")] *)
Definition joinProviders (configured : list ProviderId) : string :=
  String.concat ", " (provider_name <$> configured).

Definition resolveMessageProviderSelection (cfg : Config Err)
  (provider : option string) :
  Settled (SelectionError Err) (ProviderId * list ProviderId) :=
  match truthy (normalizeMessageProvider provider) with
  | Some normalized =>
      match isKnownProvider normalized with
      | None => Rejected (ErrorMessage ("Unknown provider: " ++ normalized))
      | Some p =>
          match listConfiguredMessageProviders cfg with
          | Rejected e => Rejected (Thrown e)
          | Resolved configured => Resolved (p, configured)
          end
      end
  | None =>
      match listConfiguredMessageProviders cfg with
      | Rejected e => Rejected (Thrown e)
      | Resolved configured =>
          match configured with
          | [p] => Resolved (p, configured)
          | [] =>
              Rejected (ErrorMessage
                "Provider is required (no configured providers detected).")
          | _ =>
              Rejected (ErrorMessage
                ("Provider is required when multiple providers are configured: "
                 ++ joinProviders configured))
          end
      end
  end.

(** An account that counts for the selection: not disabled, and
    [isConfigured] answers yes. *)
Definition usable (cfg : Config Err) (p : ProviderId) (id : string) : Prop :=
  enabled (resolveAccount cfg p id) <> Some false
  /\ isConfigured cfg p id = Resolved true.

(** No [isConfigured] check rejects. *)
Definition checksSettle (cfg : Config Err) : Prop :=
  forall p id, exists b, isConfigured cfg p id = Resolved b.

End Select.
End Selection.

(** ** Sending one message or poll ([infra/outbound/message.ts]) *)

Module Message.
Import Providers Targets.

(** A JavaScript number: a finite double is a rational number. *)
Inductive JsNumber : Type :=
| Finite (q : QArith_base.Q)
| NotANumber
| Infinite (negative : bool).

Inductive GatewayCallMode : Set := cli | agent.

(** [MessageGatewayOptions] *)
Record MessageGatewayOptions : Type := {
  opt_url : option string;
  opt_token : option string;
  opt_timeoutMs : option JsNumber;
  opt_clientName : option GatewayCallMode;
  opt_mode : option GatewayCallMode;
}.

(** The result of [resolveGatewayOptions]. *)
Record GatewayOptions : Type := {
  url : option string;
  token : option string;
  timeoutMs : Z;
  clientName : GatewayCallMode;
  mode : GatewayCallMode;
}.

(** [typeof opts?.timeoutMs === "number" && Number.isFinite(opts.timeoutMs)
     ? Math.max(1, Math.floor(opts.timeoutMs)) : 10_000] *)
Definition resolveTimeoutMs (timeout : option JsNumber) : Z :=
  match timeout with
  | Some (Finite q) => Z.max 1 (Qround.Qfloor q)
  | _ => 10000
  end.

Definition resolveGatewayOptions (opts : option MessageGatewayOptions) :
  GatewayOptions :=
  {| url := opts ≫= opt_url;
     token := opts ≫= opt_token;
     timeoutMs := resolveTimeoutMs (opts ≫= opt_timeoutMs);
     clientName := default cli (opts ≫= opt_clientName);
     mode := default cli (opts ≫= opt_mode) |}.

(** The [params] object of a gateway call. *)
Inductive GatewayParams (Poll : Type) : Type :=
| SendParams (to : JsString) (message : string) (mediaUrl : option string)
    (gifPlayback : option bool) (accountId : option string)
    (provider : string) (idempotencyKey : string)
| PollParams (to : JsString) (poll : Poll) (provider : string)
    (idempotencyKey : string).
Arguments SendParams {Poll} to message mediaUrl gifPlayback accountId
  provider idempotencyKey.
Arguments PollParams {Poll} to poll provider idempotencyKey.

(** The argument of [callGateway]. *)
Record GatewayCall (Poll : Type) : Type := {
  call_method : string;
  call_params : GatewayParams Poll;
  call_options : GatewayOptions;
}.
Arguments call_method {Poll} _.
Arguments call_params {Poll} _.
Arguments call_options {Poll} _.

(** [MessageSendParams]; [deps] and [cfg] are what the delivery engine
    below is closed over. *)
Record MessageSendParams : Type := {
  send_to : JsString;
  send_content : string;
  send_provider : option string;
  send_mediaUrl : option string;
  send_gifPlayback : option bool;
  send_accountId : option string;
  send_dryRun : bool;
  send_bestEffort : bool;
  send_gateway : option MessageGatewayOptions;
  send_idempotencyKey : option string;
}.

Inductive Via : Set := ViaDirect | ViaGateway.

(** The payload [{ text: params.content, mediaUrl: params.mediaUrl }]. *)
Record MessagePayload : Type := {
  payload_text : string;
  payload_mediaUrl : option string;
}.

(** [MessageSendResult]; [sent_result] is absent in a dry run and when
    the delivery returned no result. *)
Record MessageSendResult (Res GatewayRes : Type) : Type := {
  sent_provider : string;
  sent_to : JsString;
  sent_via : Via;
  sent_mediaUrl : option string;
  sent_result : option (Res + GatewayRes);
  sent_dryRun : bool;
}.
Arguments sent_provider {Res GatewayRes} _.
Arguments sent_to {Res GatewayRes} _.
Arguments sent_via {Res GatewayRes} _.
Arguments sent_mediaUrl {Res GatewayRes} _.
Arguments sent_result {Res GatewayRes} _.
Arguments sent_dryRun {Res GatewayRes} _.

(** [MessagePollParams], with the four members of the poll kept together. *)
Record MessagePollParams (PollInput : Type) : Type := {
  poll_to : JsString;
  poll_input : PollInput;
  poll_provider : option string;
  poll_dryRun : bool;
  poll_gateway : option MessageGatewayOptions;
  poll_idempotencyKey : option string;
}.
Arguments poll_to {PollInput} _.
Arguments poll_input {PollInput} _.
Arguments poll_provider {PollInput} _.
Arguments poll_dryRun {PollInput} _.
Arguments poll_gateway {PollInput} _.
Arguments poll_idempotencyKey {PollInput} _.

(** [MessagePollResult] *)
Record MessagePollResult (Poll GatewayRes : Type) : Type := {
  polled_provider : string;
  polled_to : JsString;
  polled_poll : Poll;
  polled_result : option GatewayRes;
  polled_dryRun : bool;
}.
Arguments polled_provider {Poll GatewayRes} _.
Arguments polled_to {Poll GatewayRes} _.
Arguments polled_poll {Poll GatewayRes} _.
Arguments polled_result {Poll GatewayRes} _.
Arguments polled_dryRun {Poll GatewayRes} _.

(** What a call has done when it ends: the direct sends it made and the
    address they went to, the gateway calls it made, and what the caller
    gets. *)
Record Outcome (Err Poll A : Type) : Type := {
  sends : list Deliver.SendCall;
  target : option JsString;
  gatewayCalls : list (GatewayCall Poll);
  outcome : Settled (Selection.SelectionError Err) A;
}.
Arguments sends {Err Poll A} _.
Arguments target {Err Poll A} _.
Arguments gatewayCalls {Err Poll A} _.
Arguments outcome {Err Poll A} _.

(** [PROVIDERS.find((plugin) => plugin.id === id)] for an id given as a
    string. *)
Definition pluginByName (name : string) : option ProviderPlugin :=
  List.find (fun plugin => bool_decide (provider_name (plugin_id plugin) = name))
            PROVIDERS.

Section Send.
Context {Err Res GatewayRes PollInput Poll : Type}.

(** The collaborators of the delivery engine, [normalizeE164], and
    [normalizeMessageProvider] of [utils/message-provider.ts]. *)
Variable chunkTextFn : string -> Z -> list string.
Variable chunkMarkdownTextFn : string -> Z -> list string.
Variable resolveTextChunkLimit : ProviderId -> option string -> Z.
Variable normalizeOutboundPayloads :
  list MessagePayload -> list Deliver.NormalizedOutboundPayload.
Variable normalizeE164 : JsString -> JsString.
Variable normalizeMessageProvider : option string -> option string.

(** The provider side of the direct sends to one address, the gateway
    ([callGateway] of [gateway/call.ts]), the key that
    [randomIdempotencyKey()] yields, and [normalizePollInput] of
    [polls.ts], which may throw. *)
Variable respondAt :
  JsString -> list Deliver.SendCall -> Deliver.SendCall -> Settled Err Res.
Variable callGateway : GatewayCall Poll -> Settled Err GatewayRes.
Variable randomIdempotencyKey : string.
Variable normalizePollInput : PollInput -> Z -> Settled Err Poll.

Local Abbreviation Thrown := Selection.Thrown.
Local Abbreviation ErrorMessage := Selection.ErrorMessage.

(** [plugin?.outbound?.deliveryMode ?? (provider === "whatsapp" ? "gateway"
     : "direct")] *)
Definition deliveryModeOf (plugin : ProviderPlugin) (provider : string) :
  DeliveryMode :=
  match outbound plugin with
  | Some o => deliveryMode o
  | None => if bool_decide (provider = "whatsapp") then gateway else direct
  end.

Definition sendMessage (params : MessageSendParams) :
  Outcome Err Poll (MessageSendResult Res GatewayRes) :=
  let provider :=
    default "whatsapp" (normalizeMessageProvider (send_provider params)) in
  let nothing r :=
    {| sends := []; target := None; gatewayCalls := []; outcome := r |} in
  match pluginByName provider with
  | None => nothing (Rejected (ErrorMessage ("Unknown provider: " ++ provider)))
  | Some plugin =>
      let mode := deliveryModeOf plugin provider in
      let isGateway :=
        match mode with gateway => true | _ => false end in
      if send_dryRun params then
        nothing (Resolved
          {| sent_provider := provider; sent_to := send_to params;
             sent_via := if isGateway then ViaGateway else ViaDirect;
             sent_mediaUrl := send_mediaUrl params; sent_result := None;
             sent_dryRun := true |})
      else if negb isGateway then
        if bool_decide (provider = "none") then
          nothing (Rejected
                     (ErrorMessage "Provider 'none' cannot send messages."))
        else
          match resolveOutboundTarget normalizeE164 (Chat (plugin_id plugin))
                  (Some (send_to params)) None with
          | TargetError message => nothing (Rejected (ErrorMessage message))
          | TargetOk resolved =>
              let run :=
                Deliver.deliverOutboundPayloads chunkTextFn
                  chunkMarkdownTextFn resolveTextChunkLimit
                  normalizeOutboundPayloads (respondAt resolved)
                  {| Deliver.bestEffort := send_bestEffort params;
                     Deliver.onError := false; Deliver.onPayload := None |}
                  (plugin_id plugin) (send_accountId params)
                  [{| payload_text := send_content params;
                      payload_mediaUrl := send_mediaUrl params |}] in
              {| sends := Deliver.sent run.1;
                 target := Some resolved;
                 gatewayCalls := [];
                 outcome :=
                   match run.2 with
                   | Rejected e => Rejected (Thrown e)
                   | Resolved results =>
                       Resolved
                         {| sent_provider := provider;
                            sent_to := send_to params;
                            sent_via := ViaDirect;
                            sent_mediaUrl := send_mediaUrl params;
                            sent_result := inl <$> last results;
                            sent_dryRun := false |}
                   end |}
          end
      else
        let call :=
          {| call_method := "send";
             call_params :=
               SendParams (send_to params) (send_content params)
                 (send_mediaUrl params) (send_gifPlayback params)
                 (send_accountId params) provider
                 (default randomIdempotencyKey (send_idempotencyKey params));
             call_options := resolveGatewayOptions (send_gateway params) |} in
        {| sends := []; target := None; gatewayCalls := [call];
           outcome :=
             match callGateway call with
             | Rejected e => Rejected (Thrown e)
             | Resolved result =>
                 Resolved
                   {| sent_provider := provider; sent_to := send_to params;
                      sent_via := ViaGateway;
                      sent_mediaUrl := send_mediaUrl params;
                      sent_result := Some (inr result);
                      sent_dryRun := false |}
             end |}
  end.

Definition sendPoll (params : MessagePollParams PollInput) :
  Outcome Err Poll (MessagePollResult Poll GatewayRes) :=
  let provider :=
    default "whatsapp" (normalizeMessageProvider (poll_provider params)) in
  let nothing r :=
    {| sends := []; target := None; gatewayCalls := []; outcome := r |} in
  if negb (bool_decide (provider = "whatsapp")
           || bool_decide (provider = "discord")
           || bool_decide (provider = "msteams"))
  then nothing (Rejected
                  (ErrorMessage ("Unsupported poll provider: " ++ provider)))
  else
    let maxOptions := if bool_decide (provider = "discord") then 10 else 12 in
    match normalizePollInput (poll_input params) maxOptions with
    | Rejected e => nothing (Rejected (Thrown e))
    | Resolved normalized =>
        if poll_dryRun params then
          nothing (Resolved
            {| polled_provider := provider; polled_to := poll_to params;
               polled_poll := normalized; polled_result := None;
               polled_dryRun := true |})
        else
          let call :=
            {| call_method := "poll";
               call_params :=
                 PollParams (poll_to params) normalized provider
                   (default randomIdempotencyKey
                      (poll_idempotencyKey params));
               call_options := resolveGatewayOptions (poll_gateway params) |}
          in
          {| sends := []; target := None; gatewayCalls := [call];
             outcome :=
               match callGateway call with
               | Rejected e => Rejected (Thrown e)
               | Resolved result =>
                   Resolved
                     {| polled_provider := provider;
                        polled_to := poll_to params;
                        polled_poll := normalized;
                        polled_result := Some result;
                        polled_dryRun := false |}
               end |}
    end.

End Send.
End Message.

(** ** Port options and the service commands ([cli/gateway-cli.ts]) *)

Module GatewayCli.
Import Manager Targets.

(** The value of an option as the command line parser hands it over
    ([unknown]): [undefined], [null], a string, a number or bigint (known
    by the text that [toString()] gives), or anything else. *)
Inductive RawOption : Type :=
| RawUndefined
| RawNull
| RawString (s : JsString)
| RawNumber (text : JsString)
| RawOther.

Definition isDigit (c : N) : bool := ((48 <=? c) && (c <=? 57))%N.

(** The longest initial run of decimal digits. *)
Fixpoint leadingDigits (s : JsString) : JsString :=
  match s with
  | [] => []
  | c :: s' => if isDigit c then c :: leadingDigits s' else []
  end.

(** The integer that a run of decimal digits writes. *)
Definition digitsValue (digits : JsString) : Z :=
  foldl (fun acc c => 10 * acc + (Z.of_N c - 48)) 0 digits.

(** [Number.parseInt(value, 10)] as a mathematical integer, before it is
    made a number: leading white space is skipped, a sign is read and
    removed, then the longest run of digits is taken; [None] is [NaN]. *)
Definition parseInt10 (value : JsString) : option Z :=
  let s := trimStart value in
  let negative := bool_decide (head s = Some 45%N) in
  let s :=
    if negative || bool_decide (head s = Some 43%N) then tail s else s in
  match leadingDigits s with
  | [] => None
  | digits =>
      Some (if negative then - digitsValue digits else digitsValue digits)
  end.

(** [toString()] of a number that is a non-negative integer below 10^21:
    its decimal digits. *)
Fixpoint decimalFrom (fuel : nat) (n : Z) (acc : JsString) : JsString :=
  let acc := Z.to_N (48 + n mod 10) :: acc in
  match fuel with
  | O => acc
  | S fuel => if (n <? 10)%Z then acc else decimalFrom fuel (n / 10) acc
  end.

Definition decimal (n : Z) : JsString :=
  decimalFrom (Z.to_nat (Z.log2 n)) n [].

Section Ports.
(** The number that an integer becomes ([None]: it is beyond the finite
    numbers). *)
Variable roundToNumber : Z -> option Z.

Definition parsePort (raw : RawOption) : option Z :=
  match raw with
  | RawUndefined | RawNull | RawOther => None
  | RawString value | RawNumber value =>
      match parseInt10 value ≫= roundToNumber with
      | None => None
      | Some parsed => if (parsed <=? 0)%Z then None else Some parsed
      end
  end.
End Ports.

(** What is assumed of the rounding: the integers up to 2^53 are numbers
    themselves, and no integer changes its sign. *)
Definition rounds (roundToNumber : Z -> option Z) : Prop :=
  (forall n, - 2 ^ 53 <= n <= 2 ^ 53 -> roundToNumber n = Some n)
  /\ (forall n r, roundToNumber n = Some r -> n <= 0 -> r <= 0).

(** The text is white space, then a plus sign or nothing, then the
    digits, then a rest that does not go on with a digit. *)
Definition readsAs (text digits : JsString) : Prop :=
  exists ws sign rest : JsString,
    text = (ws ++ sign ++ digits ++ rest)%list
    /\ forallb isWhiteSpace ws = true
    /\ (sign = [] \/ sign = [43%N])
    /\ digits <> [] /\ forallb isDigit digits = true
    /\ match rest with c :: _ => isDigit c = false | [] => True end.

(** *** The service commands

    What a command does is the list of its effects, in order.  After
    [exit] nothing else of the command runs.  A call of the service's
    [install] is known by what the command computes for it: the program
    (arguments and working directory) that [resolveGatewayProgramArguments]
    yields, and the token and the password put into the environment. *)

Inductive ServiceCall (Args : Type) : Type :=
| CallIsLoaded
| CallStop
| CallRestart
| CallUninstall
| CallReadCommand
| CallResolveProgramArguments (port : QArith_base.Q) (dev : bool)
| CallInstall (program : Args) (token password : option string).
Arguments CallIsLoaded {Args}.
Arguments CallStop {Args}.
Arguments CallRestart {Args}.
Arguments CallUninstall {Args}.
Arguments CallReadCommand {Args}.
Arguments CallResolveProgramArguments {Args} port dev.
Arguments CallInstall {Args} program token password.

Inductive CliEffect (Args : Type) : Type :=
| LogLine (line : string)
| ErrorLine (line : string)
| Exit (code : Z)
| Service (call : ServiceCall Args).
Arguments LogLine {Args} line.
Arguments ErrorLine {Args} line.
Arguments Exit {Args} code.
Arguments Service {Args} call.

(** What [service.readCommand] yields. *)
Record ServiceCommand : Type := {
  programArguments : list string;
  workingDirectory : option string;
}.

(** The service of the platform ([resolveGatewayService()]), by what its
    functions answer. *)
Record GatewayService (Err : Type) : Type := {
  loadedText : string;
  notLoadedText : string;
  isLoaded : Settled Err bool;
  stop : Settled Err unit;
  restart : Settled Err unit;
  uninstall : Settled Err unit;
  install : Settled Err unit;
  readCommand : Settled Err (option ServiceCommand);
}.
Arguments loadedText {Err} _.
Arguments notLoadedText {Err} _.
Arguments isLoaded {Err} _.
Arguments stop {Err} _.
Arguments restart {Err} _.
Arguments uninstall {Err} _.
Arguments install {Err} _.
Arguments readCommand {Err} _.

(** [GatewayServiceInstallOpts]; [opt_token] and [opt_password] hold the
    text of a truthy option. *)
Record GatewayServiceInstallOpts : Type := {
  opt_port : RawOption;
  opt_token : option string;
  opt_password : option string;
  opt_reinstall : bool;
}.

Section Commands.
Context {Err Cfg Args : Type}.
Variable roundToNumber : Z -> option Z.

(** [String(err)] *)
Variable stringOf : Err -> string.

(** [renderGatewayServiceStartHints()], which depends on the platform. *)
Variable startHints : list string.

Variable service : GatewayService Err.
Variable loadConfig : Settled Err Cfg.
Variable resolveGatewayPort : Cfg -> Message.JsNumber.
Variable devMode : bool.
Variable resolveGatewayProgramArguments :
  QArith_base.Q -> bool -> Settled Err Args.

Local Abbreviation Run := (list (CliEffect Args) * Settled Err unit)%type.

Definition renderGatewayServiceInstallHints : list string :=
  ["Install with: clawdbot gateway install";
   "Or: clawdbot onboard --install-daemon";
   "Or: clawdbot configure"].

(** The [catch] branch of a command: the message and [exit(1)]. *)
Definition failWith (what : string) (err : Err) : list (CliEffect Args) :=
  [ErrorLine (what ++ stringOf err); Exit 1].

Definition stopGatewayService : Run :=
  match isLoaded service with
  | Rejected err =>
      (Service CallIsLoaded :: failWith "Gateway service check failed: " err,
       Resolved tt)
  | Resolved false =>
      ([Service CallIsLoaded;
        LogLine ("Gateway service " ++ notLoadedText service ++ ".")],
       Resolved tt)
  | Resolved true =>
      match stop service with
      | Resolved _ => ([Service CallIsLoaded; Service CallStop], Resolved tt)
      | Rejected err =>
          (([Service CallIsLoaded; Service CallStop]
            ++ failWith "Gateway stop failed: " err)%list, Resolved tt)
      end
  end.

Definition restartGatewayService : Run :=
  match isLoaded service with
  | Rejected err =>
      (Service CallIsLoaded :: failWith "Gateway service check failed: " err,
       Resolved tt)
  | Resolved false =>
      (([Service CallIsLoaded;
         LogLine ("Gateway service " ++ notLoadedText service ++ ".")]
        ++ ((fun hint => LogLine ("Start with: " ++ hint)%string)
              <$> startHints)
        ++ (LogLine <$> renderGatewayServiceInstallHints))%list,
       Resolved tt)
  | Resolved true =>
      match restart service with
      | Resolved _ =>
          ([Service CallIsLoaded; Service CallRestart], Resolved tt)
      | Rejected err =>
          (([Service CallIsLoaded; Service CallRestart]
            ++ failWith "Gateway restart failed: " err)%list, Resolved tt)
      end
  end.

Definition uninstallGatewayService : Run :=
  match uninstall service with
  | Resolved _ => ([Service CallUninstall], Resolved tt)
  | Rejected err =>
      (Service CallUninstall :: failWith "Gateway uninstall failed: " err,
       Resolved tt)
  end.

Definition statusGatewayService : Run :=
  match isLoaded service with
  | Rejected err =>
      (Service CallIsLoaded :: failWith "Gateway service check failed: " err,
       Resolved tt)
  | Resolved loaded =>
      let first :=
        [Service CallIsLoaded;
         LogLine ("Gateway service "
                  ++ (if loaded then loadedText service
                      else notLoadedText service) ++ ".");
         Service CallReadCommand] in
      match readCommand service with
      | Rejected err =>
          ((first ++ [ErrorLine ("Gateway service status failed: "
                                 ++ stringOf err)%string])%list,
           Resolved tt)
      | Resolved command =>
          ((first
            ++ match programArguments <$> command with
               | Some (argument :: arguments) =>
                   [LogLine ("Command: "
                             ++ String.concat " " (argument :: arguments))%string]
               | _ => []
               end
            ++ match truthy (command ≫= workingDirectory) with
               | Some directory =>
                   [LogLine ("Working directory: " ++ directory)%string]
               | None => []
               end)%list, Resolved tt)
      end
  end.

(** [portOverride ?? resolveGatewayPort(cfg)], when it is finite and
    above 0. *)
Definition validPort (portOverride : option Z) (cfg : Cfg) :
  option QArith_base.Q :=
  match match portOverride with
        | Some n => Message.Finite (QArith_base.inject_Z n)
        | None => resolveGatewayPort cfg
        end with
  | Message.Finite q =>
      if QArith_base.Qle_bool q (QArith_base.inject_Z 0) then None else Some q
  | _ => None
  end.

Definition invalidPort : Run := ([ErrorLine "Invalid port"; Exit 1], Resolved tt).

(** [installGatewayService] from [resolveGatewayService()] on, the port
    being known. *)
Definition installAtPort (opts : GatewayServiceInstallOpts)
  (port : QArith_base.Q) : Run :=
  match isLoaded service with
  | Rejected err =>
      (Service CallIsLoaded :: failWith "Gateway service check failed: " err,
       Resolved tt)
  | Resolved loaded =>
      if loaded && negb (opt_reinstall opts) then
        ([Service CallIsLoaded;
          LogLine ("Gateway service already " ++ loadedText service ++ ".");
          LogLine "Use: clawdbot gateway uninstall (or --reinstall)"],
         Resolved tt)
      else
        let removal :=
          if loaded && opt_reinstall opts
          then [Service CallUninstall] else [] in
        match (if loaded && opt_reinstall opts
               then uninstall service else Resolved tt) with
        | Rejected err => (Service CallIsLoaded :: removal, Rejected err)
        | Resolved _ =>
            let before :=
              (Service CallIsLoaded :: removal
               ++ [Service (CallResolveProgramArguments port devMode)])%list
            in
            match resolveGatewayProgramArguments port devMode with
            | Rejected err => (before, Rejected err)
            | Resolved program =>
                let call :=
                  Service (CallInstall program (opt_token opts)
                             (opt_password opts)) in
                match install service with
                | Resolved _ => ((before ++ [call])%list, Resolved tt)
                | Rejected err =>
                    ((before ++ call
                      :: failWith "Gateway install failed: " err)%list,
                     Resolved tt)
                end
            end
        end
  end.

Definition installGatewayService (opts : GatewayServiceInstallOpts) : Run :=
  match loadConfig with
  | Rejected err => ([], Rejected err)
  | Resolved cfg =>
      let portOverride := parsePort roundToNumber (opt_port opts) in
      match opt_port opts, portOverride with
      | RawUndefined, _ | _, Some _ =>
          match validPort portOverride cfg with
          | None => invalidPort
          | Some port => installAtPort opts port
          end
      | _, None => invalidPort
      end
  end.

End Commands.
End GatewayCli.

(** ** Sample configurations and providers

    Concrete inputs on which the statements below are exercised. *)

Module Examples.
Import Providers Manager Deliver.

(** One account ["main"] per provider, enabled and configured. *)
Definition oneAccount : Config string :=
  {| web_enabled := None;
     listAccountIds := fun _ => ["main"];
     resolveAccount := fun _ _ => {| enabled := Some true |};
     isConfigured := fun _ _ => Resolved true;
     describe_configured := fun _ _ => Some true;
     defaultAccountId := fun _ => "main";
     resolveDefaultWhatsAppAccountId := "main" |}.

(** The same, with the Telegram account disabled and the Discord account
    lacking its token. *)
Definition mixedAccounts : Config string :=
  {| web_enabled := None;
     listAccountIds := fun _ => ["main"];
     resolveAccount := fun p _ =>
       {| enabled := if bool_decide (p = telegram) then Some false
                     else Some true |};
     isConfigured := fun p _ =>
       Resolved (negb (bool_decide (p = discord)));
     describe_configured := fun p _ =>
       Some (negb (bool_decide (p = discord)));
     defaultAccountId := fun _ => "main";
     resolveDefaultWhatsAppAccountId := "main" |}.

(** As [oneAccount], but the credential check of Slack throws. *)
Definition throwingCheck : Config string :=
  {| web_enabled := None;
     listAccountIds := fun _ => ["main"];
     resolveAccount := fun _ _ => {| enabled := Some true |};
     isConfigured := fun p _ =>
       if bool_decide (p = slack) then Rejected "EACCES" else Resolved true;
     describe_configured := fun _ _ => Some true;
     defaultAccountId := fun _ => "main";
     resolveDefaultWhatsAppAccountId := "main" |}.

(** Every connection task ends with an error once it is aborted. *)
Definition crashingTasks : @StopEnv string :=
  {| stopAccountEnds := fun _ => Resolved tt;
     taskEnds := fun _ => Some (Rejected "socket closed") |}.

Definition noOrder (p : ProviderId) : Z := 0.
Definition sameMessage (e : string) : string := e.

(** A chunker that cuts a text in two after [limit] characters. *)
Definition cutOnce (text : string) (limit : Z) : list string :=
  [String.substring 0 (Z.to_nat limit) text;
   String.substring (Z.to_nat limit)
     (String.length text - Z.to_nat limit) text].

Definition limitFive (p : ProviderId) (accountId : option string) : Z := 5.

Definition asGiven (payloads : list NormalizedOutboundPayload) :
  list NormalizedOutboundPayload := payloads.

(** A provider that accepts everything. *)
Definition accepting (hist : list SendCall) (c : SendCall) :
  Settled string string := Resolved "sent".

(** A provider that rejects the text ["two"] and the medium ["b.png"]. *)
Definition rejectingSome (hist : list SendCall) (c : SendCall) :
  Settled string string :=
  match c with
  | SendText t =>
      if bool_decide (t = "two") then Rejected "refused" else Resolved "sent"
  | SendMedia _ url =>
      if bool_decide (url = "b.png") then Rejected "refused"
      else Resolved "sent"
  end.

Definition plainOptions (best : bool) : Deliver.DeliverOptions (Err := string) :=
  {| bestEffort := best; onError := true; onPayload := None |}.

Definition textOnly (t : string) : NormalizedOutboundPayload :=
  {| text := t; mediaUrls := [] |}.
End Examples.

(** Inputs for the statements on the provider selection and on
    [sendMessage]. *)

Module MessageExamples.
Import Providers Manager Deliver Message.

(** Only the Slack account is configured. *)
Definition onlySlack : Config string :=
  {| web_enabled := None;
     listAccountIds := fun _ => ["main"];
     resolveAccount := fun _ _ => {| enabled := Some true |};
     isConfigured := fun p _ => Resolved (bool_decide (p = slack));
     describe_configured := fun p _ => Some (bool_decide (p = slack));
     defaultAccountId := fun _ => "main";
     resolveDefaultWhatsAppAccountId := "main" |}.

(** Provider names taken as they are typed. *)
Definition asTyped (provider : option string) : option string := provider.

(** One normalized payload per payload. *)
Definition onePerPayload (payloads : list MessagePayload) :
  list NormalizedOutboundPayload :=
  (fun p => {| text := payload_text p;
               mediaUrls := option_list (payload_mediaUrl p) |}) <$> payloads.

(** A provider that rejects every send. *)
Definition rejectingAll (hist : list SendCall) (c : SendCall) :
  Settled string string := Rejected "refused".

(** A gateway that accepts every call. *)
Definition queueing (call : GatewayCall unit) : Settled string string :=
  Resolved "queued".

Definition message (to : Targets.JsString) (provider : string)
  (dryRun bestEffort : bool) : MessageSendParams :=
  {| send_to := to; send_content := "hello"; send_provider := Some provider;
     send_mediaUrl := None; send_gifPlayback := None;
     send_accountId := None; send_dryRun := dryRun;
     send_bestEffort := bestEffort; send_gateway := None;
     send_idempotencyKey := None |}.
End MessageExamples.

(** Inputs for the statements on [parsePort]. *)

Module PortExamples.
(** A rounding that keeps the integers up to 2^53 and has no number for
    the others. *)
Definition exactUpTo53 (n : Z) : option Z :=
  if (Z.abs n <=? 9007199254740992)%Z then Some n else None.
End PortExamples.

(** * Properties *)

Set Default Proof Using "Type".

(** ** Target resolution *)

Section TargetProps.
Import Providers Targets.

Lemma trimStart_blank (s : JsString) :
  forallb isWhiteSpace s = true -> trimStart s = [].
Proof.
  induction s as [|c s IH]; simpl; [done|].
  intros [Hc Hs]%andb_prop. rewrite Hc. auto.
Qed.

Lemma trimStart_nil_blank (s : JsString) :
  trimStart s = [] -> forallb isWhiteSpace s = true.
Proof.
  induction s as [|c s IH]; simpl; [done|].
  destruct (isWhiteSpace c); simpl; [exact IH | discriminate].
Qed.

Lemma trimStart_head (s : JsString) c t :
  trimStart s = c :: t -> isWhiteSpace c = false.
Proof.
  induction s as [|d s IH]; simpl; [discriminate|].
  destruct (isWhiteSpace d) eqn:Hd; [exact IH|].
  intros [= <- _]. exact Hd.
Qed.

Lemma trimStart_keeps_nonblank (s : JsString) :
  forallb isWhiteSpace s = false -> trimStart s <> [].
Proof.
  intros Hs Hnil. apply trimStart_nil_blank in Hnil. congruence.
Qed.

Lemma forallb_rev {A} (f : A -> bool) (l : list A) :
  forallb f (rev l) = forallb f l.
Proof.
  induction l as [|x l IH]; simpl; [done|].
  rewrite forallb_app, IH. simpl. rewrite andb_true_r. apply andb_comm.
Qed.

Lemma trimStart_suffix_nonblank (s : JsString) :
  forallb isWhiteSpace s = false -> forallb isWhiteSpace (trimStart s) = false.
Proof.
  induction s as [|c s IH]; simpl; [done|].
  destruct (isWhiteSpace c) eqn:Hc; simpl; [exact IH|].
  intros _. rewrite Hc. done.
Qed.

Lemma trim_blank (s : JsString) :
  forallb isWhiteSpace s = true -> trim s = [].
Proof.
  intros Hs. unfold trim, trimEnd. rewrite (trimStart_blank s Hs). done.
Qed.

Lemma trim_nonblank (s : JsString) :
  forallb isWhiteSpace s = false -> trim s <> [].
Proof.
  intros Hs. unfold trim, trimEnd. intros Hnil.
  apply (f_equal (@rev N)) in Hnil. rewrite rev_involutive in Hnil.
  simpl in Hnil. apply trimStart_nil_blank in Hnil.
  rewrite forallb_rev in Hnil.
  rewrite (trimStart_suffix_nonblank s Hs) in Hnil. discriminate.
Qed.

Lemma trimmedTruthy_blank to : blank to -> trimmedTruthy to = None.
Proof.
  destruct to as [s|]; simpl; [|done].
  intros Hs. rewrite (trim_blank s Hs). done.
Qed.

Lemma trimmedTruthy_nonblank to :
  ~ blank to -> exists t, trimmedTruthy to = Some t /\ t <> [].
Proof.
  destruct to as [s|]; simpl; [|intros H; destruct H; exact I].
  intros Hs. destruct (forallb isWhiteSpace s) eqn:Hb; [done|].
  pose proof (trim_nonblank s Hb) as Hne.
  destruct (trim s) as [|c t] eqn:Ht; [done|]. eauto.
Qed.

Lemma every_plugin_resolves (p : ProviderId) normalizeE164 to allowFrom :
  resolveOutboundTarget normalizeE164 (Chat p) to allowFrom
  = pluginResolveTarget normalizeE164 p to allowFrom.
Proof. destruct p; reflexivity. Qed.

(** C8 (target resolution).  For each of the seven providers: a
    destination that is missing, empty or all white space, with no
    fallback list, is refused with the error message of that provider,
    which spells out the address syntax that its [--to] option expects;
    a destination with any other content is accepted.  The resolver is a
    total function of its arguments: it reads no state, performs no I/O
    and has no point at which it could suspend. *)
Theorem resolveOutboundTarget_blank_or_ok
  (normalizeE164 : JsString -> JsString) (p : ProviderId)
  (to : option JsString) (allowFrom : option (list JsString)) :
  (blank to -> firstAllowFrom allowFrom = None ->
     resolveOutboundTarget normalizeE164 (Chat p) to allowFrom
     = TargetError (missingTargetMessage p)
     /\ occursIn ("--to " ++ expectedSyntax p) (missingTargetMessage p) = true)
  /\ (~ blank to ->
      ok (resolveOutboundTarget normalizeE164 (Chat p) to allowFrom) = true).
Proof.
  rewrite every_plugin_resolves. split.
  - intros Hb Hf. split.
    + unfold pluginResolveTarget. rewrite (trimmedTruthy_blank to Hb), Hf.
      destruct p; reflexivity.
    + destruct p; vm_compute; reflexivity.
  - intros Hn. destruct (trimmedTruthy_nonblank to Hn) as (t & Ht & _).
    unfold pluginResolveTarget. rewrite Ht. destruct p; reflexivity.
Qed.

End TargetProps.

Lemma resolveOutboundTarget_blank_or_ok_witness :
  Targets.ok (Targets.resolveOutboundTarget (fun s => s)
     (Targets.Chat Providers.telegram) (Some [32; 9]%N) None) = false
  /\ Targets.ok (Targets.resolveOutboundTarget (fun s => s)
     (Targets.Chat Providers.whatsapp) (Some [32; 43; 49; 53]%N) None) = true.
Proof.
  split.
  - destruct (resolveOutboundTarget_blank_or_ok (fun s => s)
      Providers.telegram (Some [32; 9]%N) None) as [H _].
    destruct H as [H _]; [reflexivity | reflexivity |].
    rewrite H. reflexivity.
  - destruct (resolveOutboundTarget_blank_or_ok (fun s => s)
      Providers.whatsapp (Some [32; 43; 49; 53]%N) None) as [_ H].
    apply H. simpl. discriminate.
Defined.

(** ** Delivery *)

Section DeliverProps.
Import Providers Deliver.
Context {Err Res ReplyPayload : Type}.
Variable chunkTextFn : string -> Z -> list string.
Variable chunkMarkdownTextFn : string -> Z -> list string.
Variable resolveTextChunkLimit : ProviderId -> option string -> Z.
Variable normalizeOutboundPayloads :
  list ReplyPayload -> list NormalizedOutboundPayload.
Variable respond : list SendCall -> SendCall -> Settled Err Res.

Local Abbreviation State := (@DeliveryState Err Res).
Local Abbreviation send := (@Deliver.send Err Res respond).
Local Abbreviation answer := (Deliver.answer respond).
Local Abbreviation succeeds := (Deliver.succeeds respond).
Local Abbreviation responses := (Deliver.responses respond).

Lemma afterSends_nil (s : State) : afterSends [] [] s = s.
Proof. destruct s. unfold afterSends. simpl. by rewrite !app_nil_r. Qed.

Lemma forEach_send (calls : list SendCall) (s : State) :
  forEach calls send s
  = (afterSends (answer (sent s) calls).1.1 (answer (sent s) calls).1.2 s,
     settledOf (answer (sent s) calls).2).
Proof.
  revert s. induction calls as [|c calls IH]; intros s.
  - simpl. unfold ret. by rewrite afterSends_nil.
  - cbn [forEach Deliver.answer]. unfold mbind, Eff_bind, bind.
    unfold Deliver.send at 1.
    destruct (respond (sent s) c) as [r|e] eqn:Hr.
    + rewrite IH. cbn [sent results announced reported].
      destruct (answer (sent s ++ [c]) calls) as [[made rs] e]. simpl.
      unfold afterSends. simpl. by rewrite <- !app_assoc.
    + simpl. unfold afterSends. simpl. by rewrite app_nil_r.
Qed.

Lemma forEach_map {A B} (f : A -> B) (xs : list A)
  (body : B -> @Eff Err Res unit) (s : State) :
  forEach (map f xs) body s = forEach xs (fun x => body (f x)) s.
Proof.
  revert s. induction xs as [|x xs IH]; intros s; simpl; [done|].
  unfold mbind, Eff_bind, bind. destruct (body (f x) s) as [s' [a|e]]; auto.
Qed.

Lemma send_single (c : SendCall) (s : State) :
  send c s = forEach [c] send s.
Proof.
  simpl. unfold mbind, Eff_bind, bind, ret.
  destruct (send c s) as [s' [[]|e]]; reflexivity.
Qed.

Lemma sendMediaFrom_false (text : string) (urls : list string) (s : State) :
  sendMediaFrom respond false text urls s
  = forEach (map (SendMedia "") urls) send s.
Proof.
  revert s. induction urls as [|u urls IH]; intros s; simpl; [done|].
  unfold mbind, Eff_bind, bind.
  destruct (send (SendMedia "" u) s) as [s' [a|e]]; auto.
Qed.

Lemma sendMediaFrom_true (text : string) (urls : list string) (s : State) :
  sendMediaFrom respond true text urls s
  = forEach (mediaCalls text urls) send s.
Proof.
  destruct urls as [|u urls]; simpl; [done|].
  unfold mbind, Eff_bind, bind.
  destruct (send (SendMedia text u) s) as [s' [a|e]]; [|done].
  apply sendMediaFrom_false.
Qed.

(** The body of one payload is the run of its planned sends. *)
Lemma deliverPayload_planned (opts : @DeliverOptions Err)
  (h : option Chunker) (limit : option Z)
  (payload : NormalizedOutboundPayload) (s : State) :
  quietOnPayload opts payload ->
  deliverPayload respond opts h limit payload s
  = forEach (plannedCalls h limit payload) send (announce opts payload s).
Proof.
  intros Hq.
  assert (Hbody : forall s : State,
    match mediaUrls payload with
    | [] => sendTextChunks respond h limit (text payload)
    | u :: l => sendMediaFrom respond true (text payload) (u :: l)
    end s = forEach (plannedCalls h limit payload) send s).
  { intros s0. unfold plannedCalls.
    destruct (mediaUrls payload) as [|u l] eqn:Hm.
    - unfold sendTextChunks. destruct h as [chunk|], limit as [lim|];
        rewrite ?forEach_map; try reflexivity; apply send_single.
    - apply sendMediaFrom_true. }
  unfold deliverPayload, mbind, Eff_bind, bind, callOnPayload, announce.
  destruct (onPayload opts) as [f|] eqn:Hf.
  - rewrite (Hq f Hf). apply Hbody.
  - unfold ret. apply Hbody.
Qed.

(** The run of sends a payload causes, in full. *)
Lemma deliverPayload_answer (opts : @DeliverOptions Err)
  (h : option Chunker) (limit : option Z)
  (payload : NormalizedOutboundPayload) (s : State) :
  quietOnPayload opts payload ->
  deliverPayload respond opts h limit payload s
  = (afterSends (answer (sent s) (plannedCalls h limit payload)).1.1
       (answer (sent s) (plannedCalls h limit payload)).1.2
       (announce opts payload s),
     settledOf (answer (sent s) (plannedCalls h limit payload)).2).
Proof.
  intros Hq. rewrite (deliverPayload_planned _ _ _ _ _ Hq), forEach_send.
  assert (sent (announce opts payload s) = sent s) as ->; [|done].
  unfold announce. by destruct (onPayload opts).
Qed.

Lemma answer_succeeds (hist calls : list SendCall) :
  succeeds hist calls ->
  (answer hist calls).1.1 = calls
  /\ length (answer hist calls).1.2 = length calls
  /\ (answer hist calls).2 = None.
Proof.
  revert hist. induction calls as [|c calls IH]; intros hist; simpl; [done|].
  intros [[r Hr] Hs]. rewrite Hr.
  destruct (IH _ Hs) as (H1 & H2 & H3).
  destruct (answer (hist ++ [c]) calls) as [[made rs] e]. simpl in *.
  subst. auto.
Qed.

(** A run that goes well up to its [n]-th call, which is rejected. *)
Lemma answer_fails_at (hist calls : list SendCall) (n : nat) (c : SendCall)
  (e : Err) :
  succeeds hist (take n calls) ->
  calls !! n = Some c ->
  respond (hist ++ take n calls) c = Rejected e ->
  answer hist calls
  = (take (S n) calls, responses hist (take n calls), Some e).
Proof.
  revert hist n. induction calls as [|d calls IH]; intros hist n; [done|].
  destruct n as [|n]; simpl.
  - intros _ [= ->]. rewrite app_nil_r. intros ->. by rewrite take_0.
  - intros [[r Hr] Hs] Hc He. rewrite Hr.
    rewrite (IH (hist ++ [d])%list n Hs Hc); [|by rewrite <- app_assoc].
    unfold Deliver.responses. simpl. rewrite Hr.
    destruct (answer (hist ++ [d]) (take n calls)) as [[made rs] e']. done.
Qed.


Lemma answer_prefix (hist calls : list SendCall) :
  exists n, (answer hist calls).1.1 = take n calls.
Proof.
  revert hist. induction calls as [|c calls IH]; intros hist; simpl.
  - by exists 0%nat.
  - destruct (respond hist c) as [r|e].
    + destruct (IH (hist ++ [c])%list) as [n Hn].
      destruct (answer (hist ++ [c]) calls) as [[made rs] e]. simpl in *.
      exists (S n). simpl. by rewrite Hn.
    + exists 1%nat. simpl. by rewrite take_0.
Qed.

Lemma sent_announce (opts : @DeliverOptions Err)
  (payload : NormalizedOutboundPayload) (s : State) :
  sent (announce opts payload s) = sent s
  /\ results (announce opts payload s) = results s
  /\ reported (announce opts payload s) = reported s.
Proof. unfold announce. by destruct (onPayload opts). Qed.

(** The plugin of every provider brings its own handler, and its chunker
    is the one of the [providerCaps] table. *)
Lemma createProviderHandler_caps (provider : ProviderId) :
  createProviderHandler chunkTextFn chunkMarkdownTextFn provider
  = providerCaps chunkTextFn chunkMarkdownTextFn provider.
Proof. destruct provider; reflexivity. Qed.

(** One turn of the loop over the payloads. *)
Lemma deliverLoop_cons (opts : @DeliverOptions Err) (h : option Chunker)
  (limit : option Z) (payload : NormalizedOutboundPayload)
  (rest : list NormalizedOutboundPayload) (s : State) :
  deliverLoop respond opts h limit (payload :: rest) s
  = match deliverPayload respond opts h limit payload s with
    | (s', Resolved _) => deliverLoop respond opts h limit rest s'
    | (s', Rejected e) =>
        if bestEffort opts
        then deliverLoop respond opts h limit rest (reportIf opts e payload s')
        else (s', Rejected e)
    end.
Proof.
  cbn [deliverLoop]. unfold mbind, Eff_bind, bind, tryCatch.
  destruct (deliverPayload respond opts h limit payload s) as [s' [a|e]];
    [done|].
  destruct (bestEffort opts); simpl; [|done].
  unfold callOnError, reportIf, report. by destruct (onError opts).
Qed.

Lemma deliverLoop_ok (opts : @DeliverOptions Err) (h : option Chunker)
  (limit : option Z) (payload : NormalizedOutboundPayload)
  (rest : list NormalizedOutboundPayload) (s : State) :
  quietOnPayload opts payload ->
  succeeds (sent s) (plannedCalls h limit payload) ->
  deliverLoop respond opts h limit (payload :: rest) s
  = deliverLoop respond opts h limit rest
      (afterSends (plannedCalls h limit payload)
         (responses (sent s) (plannedCalls h limit payload))
         (announce opts payload s)).
Proof.
  intros Hq Hs. rewrite deliverLoop_cons, (deliverPayload_answer _ _ _ _ _ Hq).
  destruct (answer_succeeds _ _ Hs) as (H1 & _ & H3).
  rewrite H1, H3. reflexivity.
Qed.

Lemma deliverLoop_failing (opts : @DeliverOptions Err) (h : option Chunker)
  (limit : option Z) (payload : NormalizedOutboundPayload)
  (rest : list NormalizedOutboundPayload) (s : State) (n : nat)
  (c : SendCall) (e : Err) :
  quietOnPayload opts payload ->
  succeeds (sent s) (take n (plannedCalls h limit payload)) ->
  plannedCalls h limit payload !! n = Some c ->
  respond (sent s ++ take n (plannedCalls h limit payload)) c = Rejected e ->
  deliverLoop respond opts h limit (payload :: rest) s
  = let s' :=
      afterSends (take (S n) (plannedCalls h limit payload))
        (responses (sent s) (take n (plannedCalls h limit payload)))
        (announce opts payload s) in
    if bestEffort opts
    then deliverLoop respond opts h limit rest (reportIf opts e payload s')
    else (s', Rejected e).
Proof.
  intros Hq Hs Hc He.
  rewrite deliverLoop_cons, (deliverPayload_answer _ _ _ _ _ Hq).
  rewrite (answer_fails_at _ _ n c e Hs Hc He). reflexivity.
Qed.

(** C7 (best effort versus fail fast).  Three normalized payloads are
    delivered; every send of the first succeeds, the first send [c2] of the
    second is rejected with [e], and every send of the third would
    succeed.  With [bestEffort] the call returns the results of the first
    and the third payload and [onError] is invoked once, with [e] and the
    second payload.  Without [bestEffort] the call throws [e] to its
    caller right after the rejected send: nothing of the third payload is
    sent, [onError] is not invoked, and the results gathered up to then
    are those of the first payload. *)
Theorem best_effort_versus_fail_fast (opts : @DeliverOptions Err)
  (provider : ProviderId) (accountId : option string)
  (raw : list ReplyPayload) (p1 p2 p3 : NormalizedOutboundPayload)
  (c2 : SendCall) (more2 : list SendCall) (e : Err) :
  let h := createProviderHandler chunkTextFn chunkMarkdownTextFn provider in
  let limit := textLimitOf resolveTextChunkLimit h provider accountId in
  let calls1 := plannedCalls h limit p1 in
  let calls3 := plannedCalls h limit p3 in
  normalizeOutboundPayloads raw = [p1; p2; p3] ->
  onPayload opts = None ->
  onError opts = true ->
  succeeds [] calls1 ->
  plannedCalls h limit p2 = c2 :: more2 ->
  respond calls1 c2 = Rejected e ->
  succeeds (calls1 ++ [c2])%list calls3 ->
  let out :=
    deliverOutboundPayloads chunkTextFn chunkMarkdownTextFn
      resolveTextChunkLimit normalizeOutboundPayloads respond
      opts provider accountId raw in
  if bestEffort opts then
    out.2 = Resolved (responses [] calls1
                      ++ responses (calls1 ++ [c2])%list calls3)%list
    /\ length (responses [] calls1) = length calls1
    /\ length (responses (calls1 ++ [c2])%list calls3) = length calls3
    /\ sent out.1 = (calls1 ++ [c2] ++ calls3)%list
    /\ reported out.1 = [(e, p2)]
  else
    out.2 = Rejected e
    /\ results out.1 = responses [] calls1
    /\ length (responses [] calls1) = length calls1
    /\ sent out.1 = (calls1 ++ [c2])%list
    /\ reported out.1 = [].
Proof.
  intros h limit calls1 calls3 Hn Hp Herr Hs1 Hc2 He Hs3 out.
  assert (Hq : forall p, quietOnPayload opts p).
  { intros p f Hf. congruence. }
  assert (Han : forall p (s : State), announce opts p s = s).
  { intros p s. unfold announce. by rewrite Hp. }
  assert (Hl1 : length (responses [] calls1) = length calls1).
  { by destruct (answer_succeeds _ _ Hs1) as (_ & ? & _). }
  assert (Hl3 : length (responses (calls1 ++ [c2])%list calls3) = length calls3).
  { by destruct (answer_succeeds _ _ Hs3) as (_ & ? & _). }
  assert (Hr0 : responses calls1 (take 0 (c2 :: more2)) = []) by done.
  assert (Hloop :
    deliverLoop respond opts h limit [p1; p2; p3] emptyDelivery
    = let s2 := {| sent := (calls1 ++ [c2])%list;
                   results := responses [] calls1;
                   announced := []; reported := [] |} in
      if bestEffort opts
      then ({| sent := (calls1 ++ [c2] ++ calls3)%list;
               results := (responses [] calls1
                           ++ responses (calls1 ++ [c2])%list calls3)%list;
               announced := []; reported := [(e, p2)] |}, Resolved tt)
      else (s2, Rejected e)).
  { rewrite (deliverLoop_ok opts h limit p1 _ emptyDelivery (Hq p1) Hs1).
    rewrite Han. fold calls1.
    rewrite (deliverLoop_failing opts h limit p2 _ _ 0%nat c2 e (Hq p2));
      [| by rewrite take_0 | by rewrite Hc2
       | by rewrite take_0; simpl; rewrite app_nil_r].
    rewrite Han, Hc2. cbv zeta. cbn [sent afterSends emptyDelivery app].
    rewrite Hr0. cbn [take firstn]. rewrite take_0.
    unfold afterSends. cbn [sent results announced reported emptyDelivery app].
    rewrite app_nil_r.
    destruct (bestEffort opts); [|done].
    unfold reportIf. rewrite Herr. unfold report.
    cbn [sent results announced reported app].
    rewrite (deliverLoop_ok opts h limit p3 [] _ (Hq p3)); [|exact Hs3].
    rewrite Han. fold calls3. cbn [deliverLoop]. unfold ret, afterSends.
    cbn [sent results announced reported]. by rewrite <- app_assoc. }
  subst out. unfold deliverOutboundPayloads, deliverNormalized.
  rewrite Hn. fold h. fold limit. rewrite Hloop. cbv zeta.
  destruct (bestEffort opts); simpl; done.
Qed.

End DeliverProps.

(** *** Deliveries seen from one of their payloads *)

Section DeliverEngine.
Import Providers Deliver.
Context {Err Res ReplyPayload : Type}.
Variable chunkTextFn : string -> Z -> list string.
Variable chunkMarkdownTextFn : string -> Z -> list string.
Variable resolveTextChunkLimit : ProviderId -> option string -> Z.
Variable normalizeOutboundPayloads :
  list ReplyPayload -> list NormalizedOutboundPayload.
Variable respond : list SendCall -> SendCall -> Settled Err Res.

Local Abbreviation State := (@DeliveryState Err Res).
Local Abbreviation answer := (Deliver.answer respond).
Local Abbreviation succeeds := (Deliver.succeeds respond).
Local Abbreviation responses := (Deliver.responses respond).
Local Abbreviation deliver :=
  (deliverOutboundPayloads chunkTextFn chunkMarkdownTextFn
     resolveTextChunkLimit normalizeOutboundPayloads respond).

(** What one run of sends leaves behind, whatever the provider answers. *)
Lemma answer_shape (hist calls : list SendCall) :
  let '(made, rs, e) := answer hist calls in
  made `prefix_of` calls
  /\ match e with
     | None => made = calls /\ length rs = length made
     | Some _ => length made = S (length rs)
     end.
Proof.
  revert hist. induction calls as [|c calls IH]; intros hist; simpl.
  - done.
  - destruct (respond hist c) as [r|e].
    + specialize (IH (hist ++ [c])%list).
      destruct (answer (hist ++ [c]) calls) as [[made rs] e].
      destruct IH as [Hp He]. split; [by apply prefix_cons|].
      destruct e as [e|]; simpl; [lia|]. destruct He as [-> ->]. done.
    + split; [|done]. apply prefix_cons, prefix_nil.
Qed.

(** The body of the loop for one payload, in full generality: the
    [onPayload] callback may throw, and any send may be rejected. *)
Lemma deliverPayload_shape (opts : @DeliverOptions Err) (h : option Chunker)
  (limit : option Z) (payload : NormalizedOutboundPayload) (s : State) :
  let out := deliverPayload respond opts h limit payload s in
  exists made rs,
    sent out.1 = (sent s ++ made)%list
    /\ results out.1 = (results s ++ rs)%list
    /\ announced out.1 = announced (announce opts payload s)
    /\ reported out.1 = reported s
    /\ made `prefix_of` plannedCalls h limit payload
    /\ match out.2 with
       | Resolved _ =>
           made = plannedCalls h limit payload /\ length rs = length made
       | Rejected _ => (length made <= S (length rs))%nat
                       /\ (length rs <= length made)%nat
       end.
Proof.
  intros out. subst out.
  destruct (onPayload opts) as [f|] eqn:Hf.
  - destruct (f payload) as [e|] eqn:He.
    + exists [], []. unfold deliverPayload, mbind, Eff_bind, bind, callOnPayload.
      rewrite Hf, He. unfold announce. rewrite Hf. simpl.
      rewrite !app_nil_r. repeat split; auto using prefix_nil with lia.
    + assert (Hq : quietOnPayload opts payload).
      { intros g Hg. rewrite Hf in Hg. by injection Hg as <-. }
      rewrite (deliverPayload_answer respond _ _ _ _ _ Hq).
      pose proof (answer_shape (sent s) (plannedCalls h limit payload)) as Ha.
      destruct (answer (sent s) (plannedCalls h limit payload))
        as [[made rs] e]. destruct Ha as [Hp Hl].
      exists made, rs. unfold afterSends. simpl.
      repeat split; auto; try (unfold announce; by rewrite Hf).
      destruct e as [e|]; simpl; [lia | done].
  - assert (Hq : quietOnPayload opts payload).
    { intros g Hg. by rewrite Hf in Hg. }
    rewrite (deliverPayload_answer respond _ _ _ _ _ Hq).
    pose proof (answer_shape (sent s) (plannedCalls h limit payload)) as Ha.
    destruct (answer (sent s) (plannedCalls h limit payload))
      as [[made rs] e]. destruct Ha as [Hp Hl].
    exists made, rs. unfold afterSends. simpl.
    repeat split; auto; try (unfold announce; by rewrite Hf).
    destruct e as [e|]; simpl; [lia | done].
Qed.

Lemma reportIf_frame (opts : @DeliverOptions Err) e payload (s : State) :
  sent (reportIf opts e payload s) = sent s
  /\ results (reportIf opts e payload s) = results s
  /\ announced (reportIf opts e payload s) = announced s.
Proof. unfold reportIf, report. by destruct (onError opts). Qed.

Lemma reportIf_reported (opts : @DeliverOptions Err) e payload (s : State) :
  exists reps,
    reported (reportIf opts e payload s) = (reported s ++ reps)%list
    /\ reps.*2 `sublist_of` [payload].
Proof.
  unfold reportIf, report. destruct (onError opts); simpl.
  - by exists [(e, payload)].
  - exists []. rewrite app_nil_r. split; [done|]. apply sublist_nil_l.
Qed.

(** The loop over the payloads, whatever the provider answers and
    whatever the callbacks do: it only makes sends that the payloads ask
    for and in their order, every result belongs to a send, and every
    [onError] invocation is for one of the payloads, in their order. *)
Lemma deliverLoop_trace (opts : @DeliverOptions Err) (h : option Chunker)
  (limit : option Z) (payloads : list NormalizedOutboundPayload) (s : State) :
  let out := deliverLoop respond opts h limit payloads s in
  let plan := concat (map (plannedCalls h limit) payloads) in
  exists made rs reps,
    sent out.1 = (sent s ++ made)%list
    /\ results out.1 = (results s ++ rs)%list
    /\ reported out.1 = (reported s ++ reps)%list
    /\ made `sublist_of` plan
    /\ (bestEffort opts = false -> made `prefix_of` plan)
    /\ (length rs <= length made <= length rs + length payloads)%nat
    /\ reps.*2 `sublist_of` payloads.
Proof.
  revert s. induction payloads as [|payload rest IH]; intros s.
  - exists [], [], []. simpl. rewrite !app_nil_r. repeat split; auto with lia.
  - cbv zeta. rewrite deliverLoop_cons.
    pose proof (deliverPayload_shape opts h limit payload s) as Hp.
    cbv zeta in Hp.
    destruct (deliverPayload respond opts h limit payload s) as [s1 r].
    destruct Hp as (made1 & rs1 & Hs1 & Hr1 & _ & Hrep1 & Hpre & Hlen).
    simpl in Hs1, Hr1, Hrep1, Hlen. cbn [map concat].
    destruct r as [[]|e].
    + destruct Hlen as [-> Hlen].
      destruct (IH s1) as (made & rs & reps & Hs & Hr & Hrep & Hsub & Hfast
                           & Hn & Hreps).
      exists (plannedCalls h limit payload ++ made)%list, (rs1 ++ rs)%list,
        reps.
      rewrite Hs, Hr, Hrep, Hs1, Hr1, Hrep1, <- !app_assoc.
      repeat split; auto.
      * by apply sublist_app.
      * intros Hb. by apply prefix_app, Hfast.
      * rewrite !length_app. lia.
      * rewrite !length_app. simpl. lia.
      * by apply sublist_cons.
    + destruct (bestEffort opts) eqn:Hb.
      * destruct (reportIf_frame opts e payload s1) as (E1 & E2 & _).
        destruct (reportIf_reported opts e payload s1) as (rep1 & E3 & Hrep1').
        destruct (IH (reportIf opts e payload s1))
          as (made & rs & reps & Hs & Hr & Hrep & Hsub & _ & Hn & Hreps).
        exists (made1 ++ made)%list, (rs1 ++ rs)%list, (rep1 ++ reps)%list.
        rewrite Hs, Hr, Hrep, E1, E2, E3, Hs1, Hr1, Hrep1, <- !app_assoc.
        repeat split; auto.
        -- apply sublist_app; [|done]. destruct Hpre as [k ->].
           by apply sublist_inserts_r.
        -- done.
        -- rewrite !length_app. lia.
        -- rewrite !length_app. simpl. lia.
        -- rewrite fmap_app. change (payload :: rest) with ([payload] ++ rest)%list.
           by apply sublist_app.
      * exists made1, rs1, []. simpl. rewrite app_nil_r.
        repeat split; auto.
        -- destruct Hpre as [k ->]. rewrite <- app_assoc.
           by apply sublist_inserts_r.
        -- intros _. by apply prefix_app_r.
        -- lia.
        -- lia.
        -- apply sublist_nil_l.
Qed.

(** The loop over a list of payloads in two parts. *)
Lemma deliverLoop_app (opts : @DeliverOptions Err) (h : option Chunker)
  (limit : option Z) (pre post : list NormalizedOutboundPayload) (s : State) :
  deliverLoop respond opts h limit (pre ++ post) s
  = match deliverLoop respond opts h limit pre s with
    | (s1, Resolved _) => deliverLoop respond opts h limit post s1
    | (s1, Rejected e) => (s1, Rejected e)
    end.
Proof.
  revert s. induction pre as [|payload pre IH]; intros s; [done|].
  rewrite <- app_comm_cons, !deliverLoop_cons.
  destruct (deliverPayload respond opts h limit payload s) as [s1 [[]|e]];
    [apply IH|].
  destruct (bestEffort opts); [apply IH | done].
Qed.

(** A delivery seen from one of its payloads: the payloads before it
    have been gone through and have left the state [s]; the payload's
    planned sends are then run, and on a rejection the payloads after it
    are gone through only with [bestEffort]. *)
Lemma deliver_at (opts : @DeliverOptions Err) (provider : ProviderId)
  (accountId : option string) (raw : list ReplyPayload)
  (pre post : list NormalizedOutboundPayload)
  (payload : NormalizedOutboundPayload) (s : State) :
  let h := createProviderHandler chunkTextFn chunkMarkdownTextFn provider in
  let limit := textLimitOf resolveTextChunkLimit h provider accountId in
  normalizeOutboundPayloads raw = (pre ++ payload :: post)%list ->
  deliverLoop respond opts h limit pre emptyDelivery = (s, Resolved tt) ->
  quietOnPayload opts payload ->
  let run := answer (sent s) (plannedCalls h limit payload) in
  let s1 := afterSends run.1.1 run.1.2 (announce opts payload s) in
  deliver opts provider accountId raw
  = match run.2 with
    | None => returned (deliverLoop respond opts h limit post s1)
    | Some e =>
        if bestEffort opts
        then returned (deliverLoop respond opts h limit post
                         (reportIf opts e payload s1))
        else (s1, Rejected e)
    end.
Proof.
  intros h limit Hn Hpre Hq run s1.
  unfold deliverOutboundPayloads, deliverNormalized. fold h. fold limit.
  rewrite Hn, deliverLoop_app, Hpre, deliverLoop_cons.
  rewrite (deliverPayload_answer respond _ _ _ _ _ Hq). fold run. fold s1.
  destruct (run.2) as [e|]; simpl.
  - destruct (bestEffort opts); [|done]. unfold returned.
    by destruct (deliverLoop respond opts h limit post _) as [s2 [[]|e2]].
  - unfold returned.
    by destruct (deliverLoop respond opts h limit post s1) as [s2 [[]|e2]].
Qed.

(** The state in which a delivery ends when it goes through the payloads
    [post] from the state [s1]. *)
Lemma returned_trace (opts : @DeliverOptions Err) (h : option Chunker)
  (limit : option Z) (post : list NormalizedOutboundPayload) (s1 : State) :
  let out := returned (deliverLoop respond opts h limit post s1) in
  exists rest more reps,
    sent out.1 = (sent s1 ++ rest)%list
    /\ results out.1 = (results s1 ++ more)%list
    /\ reported out.1 = (reported s1 ++ reps)%list
    /\ rest `sublist_of` concat (map (plannedCalls h limit) post)
    /\ reps.*2 `sublist_of` post
    /\ (forall rs, out.2 = Resolved rs -> rs = results out.1)
    /\ (bestEffort opts = true -> out.2 = Resolved (results out.1)).
Proof.
  cbv zeta.
  destruct (deliverLoop_trace opts h limit post s1)
    as (rest & more & reps & H1 & H2 & H3 & H4 & _ & _ & H5).
  assert (Hbest : bestEffort opts = true ->
                  (deliverLoop respond opts h limit post s1).2 = Resolved tt).
  { intros Hb. clear H1 H2 H3 H4 H5. revert s1.
    induction post as [|payload post IH]; intros s1; [done|].
    rewrite deliverLoop_cons.
    destruct (deliverPayload respond opts h limit payload s1) as [s2 [[]|e]];
      [apply IH|]. rewrite Hb. apply IH. }
  destruct (deliverLoop respond opts h limit post s1) as [s2 [[]|e]];
    simpl in *; exists rest, more, reps; repeat split; auto; try congruence.
  intros Hb. by specialize (Hbest Hb).
Qed.

(** The same, with what the payloads after it add. *)
Lemma deliver_at_trace (opts : @DeliverOptions Err) (provider : ProviderId)
  (accountId : option string) (raw : list ReplyPayload)
  (pre post : list NormalizedOutboundPayload)
  (payload : NormalizedOutboundPayload) (s : State) :
  let h := createProviderHandler chunkTextFn chunkMarkdownTextFn provider in
  let limit := textLimitOf resolveTextChunkLimit h provider accountId in
  normalizeOutboundPayloads raw = (pre ++ payload :: post)%list ->
  deliverLoop respond opts h limit pre emptyDelivery = (s, Resolved tt) ->
  quietOnPayload opts payload ->
  let run := answer (sent s) (plannedCalls h limit payload) in
  let out := deliver opts provider accountId raw in
  let later := concat (map (plannedCalls h limit) post) in
  let s1 := afterSends run.1.1 run.1.2 (announce opts payload s) in
  let goes_on (s2 : State) (own : list (Err * NormalizedOutboundPayload)) :=
    out = returned (deliverLoop respond opts h limit post s2)
    /\ sent s2 = (sent s ++ run.1.1)%list
    /\ exists rest more reps,
         sent out.1 = (sent s ++ run.1.1 ++ rest)%list
         /\ rest `sublist_of` later
         /\ results out.1 = (results s ++ run.1.2 ++ more)%list
         /\ reported out.1 = (reported s ++ own ++ reps)%list
         /\ reps.*2 `sublist_of` post
         /\ (forall rs, out.2 = Resolved rs -> rs = results out.1)
         /\ (bestEffort opts = true -> out.2 = Resolved (results out.1)) in
  match run.2 with
  | None => goes_on s1 []
  | Some e =>
      if bestEffort opts
      then goes_on (reportIf opts e payload s1)
             (if onError opts then [(e, payload)] else [])
      else out = (s1, Rejected e)
  end.
Proof.
  intros h limit Hn Hpre Hq run out later s1 goes_on.
  subst goes_on out. cbv beta.
  rewrite (deliver_at opts provider accountId raw pre post payload s Hn Hpre
             Hq).
  fold h. fold limit. fold run. fold s1.
  destruct (sent_announce opts payload s) as (E1 & E2 & E3).
  assert (Hgo : forall (s2 : State) own,
            sent s2 = (sent s ++ run.1.1)%list ->
            results s2 = (results s ++ run.1.2)%list ->
            reported s2 = (reported s ++ own)%list ->
            let out := returned (deliverLoop respond opts h limit post s2) in
            out = returned (deliverLoop respond opts h limit post s2)
            /\ sent s2 = (sent s ++ run.1.1)%list
            /\ exists rest more reps,
                 sent out.1 = (sent s ++ run.1.1 ++ rest)%list
                 /\ rest `sublist_of` later
                 /\ results out.1 = (results s ++ run.1.2 ++ more)%list
                 /\ reported out.1 = (reported s ++ own ++ reps)%list
                 /\ reps.*2 `sublist_of` post
                 /\ (forall rs, out.2 = Resolved rs -> rs = results out.1)
                 /\ (bestEffort opts = true ->
                     out.2 = Resolved (results out.1))).
  { intros s2 own H1 H2 H3. cbv zeta. split; [done|]. split; [done|].
    destruct (returned_trace opts h limit post s2)
      as (rest & more & reps & G1 & G2 & G3 & G4 & G5 & G6 & G7).
    exists rest, more, reps. rewrite G1, G2, G3, H1, H2, H3, <- !app_assoc.
    repeat split; auto.
    - intros rs Hrs. rewrite (G6 rs Hrs), G2, H2, <- app_assoc. done.
    - intros Hb. rewrite (G7 Hb), G2, H2, <- app_assoc. done. }
  destruct (run.2) as [e|].
  - destruct (bestEffort opts); [|done].
    destruct (reportIf_frame opts e payload s1) as (F1 & F2 & _).
    apply Hgo.
    + rewrite F1. subst s1. simpl. by rewrite E1.
    + rewrite F2. subst s1. simpl. by rewrite E2.
    + unfold reportIf, report. subst s1.
      destruct (onError opts); simpl; rewrite E3; [done|].
      by rewrite app_nil_r.
  - apply Hgo; subst s1; simpl.
    + by rewrite E1.
    + by rewrite E2.
    + by rewrite E3, app_nil_r.
Qed.


(** C6 (media captioning).  A delivery reaches a payload with the media
    URLs [u :: urls] and any text, in particular a text that is not
    empty, after the payloads before it have left the state [s].  The
    sends it then makes are [sendMedia] calls, one per URL in the order
    of the list, the first with the text as caption and all later ones
    with the empty caption: whatever the provider answers, the sends of
    the delivery are those of the earlier payloads, then an initial part
    of these calls that is not empty, then sends of later payloads; when
    none of them is rejected the calls are all made, each once, and each
    has its result in the results. *)
Theorem media_captioning (opts : @DeliverOptions Err)
  (provider : ProviderId) (accountId : option string)
  (raw : list ReplyPayload) (pre post : list NormalizedOutboundPayload)
  (payload : NormalizedOutboundPayload) (s : State) (u : string)
  (urls : list string) :
  let handlerChunker :=
    createProviderHandler chunkTextFn chunkMarkdownTextFn provider in
  let textLimit :=
    textLimitOf resolveTextChunkLimit handlerChunker provider accountId in
  normalizeOutboundPayloads raw = (pre ++ payload :: post)%list ->
  deliverLoop respond opts handlerChunker textLimit pre emptyDelivery
  = (s, Resolved tt) ->
  mediaUrls payload = u :: urls ->
  quietOnPayload opts payload ->
  let out := deliver opts provider accountId raw in
  let later := concat (map (plannedCalls handlerChunker textLimit) post) in
  let calls := SendMedia (text payload) u :: map (SendMedia "") urls in
  (exists n rest,
     (0 < n)%nat
     /\ sent out.1 = (sent s ++ take n calls ++ rest)%list
     /\ rest `sublist_of` later)
  /\ (succeeds (sent s) calls ->
      exists rest more,
        sent out.1 = (sent s ++ calls ++ rest)%list
        /\ rest `sublist_of` later
        /\ results out.1 = (results s ++ responses (sent s) calls ++ more)%list
        /\ length (responses (sent s) calls) = S (length urls)
        /\ forall rs, out.2 = Resolved rs -> rs = results out.1).
Proof.
  intros handlerChunker textLimit Hn Hpre Hm Hq out later calls.
  pose proof (deliver_at_trace opts provider accountId raw pre post payload s
                Hn Hpre Hq) as H.
  cbv zeta in H. fold handlerChunker in H. fold textLimit in H.
  fold out in H. fold later in H.
  assert (Hplan : plannedCalls handlerChunker textLimit payload = calls).
  { unfold plannedCalls. by rewrite Hm. }
  rewrite Hplan in H. clear Hplan.
  destruct (sent_announce opts payload s) as (E1 & E2 & _).
  split.
  - assert (Hmade : exists n, (0 < n)%nat
                              /\ (answer (sent s) calls).1.1 = take n calls).
    { subst calls. cbn [Deliver.answer].
      destruct (respond (sent s) (SendMedia (text payload) u)) as [r|e].
      - destruct (answer_prefix respond
                    (sent s ++ [SendMedia (text payload) u])%list
                    (map (SendMedia "") urls)) as [n Hpref].
        destruct (answer _ (map (SendMedia "") urls)) as [[made rs] e].
        simpl in *. exists (S n). split; [lia|]. by rewrite Hpref.
      - exists 1%nat. split; [lia|]. simpl. by rewrite take_0. }
    destruct Hmade as (n & Hpos & Hmade). rewrite Hmade in H.
    destruct ((answer (sent s) calls).2) as [e|].
    + destruct (bestEffort opts).
      * destruct H as (_ & _ & rest & more & reps & H1 & H2 & _).
        exists n, rest. auto.
      * exists n, []. rewrite H. simpl. rewrite E1, app_nil_r.
        split; [done|]. split; [done | apply sublist_nil_l].
    + destruct H as (_ & _ & rest & more & reps & H1 & H2 & _).
      exists n, rest. auto.
  - intros Hs. destruct (answer_succeeds respond _ _ Hs) as (H1 & H2 & H3).
    rewrite H3, H1 in H.
    destruct H as (_ & _ & rest & more & reps & G1 & G2 & G3 & _ & _ & G6 & _).
    exists rest, more. unfold Deliver.responses. rewrite H2.
    subst calls. simpl. rewrite length_map. repeat split; auto.
Qed.

(** C10 (partial results of a failed payload).  In best-effort mode a
    delivery reaches a payload with media, after the payloads before it
    have left the state [s], and the [k]-th [sendMedia] call of the
    payload is rejected after [k - 1] successful ones.  Then the call
    returns a list that holds, after the results of the earlier payloads,
    the [k - 1] results of the payload, followed by the results of later
    payloads; [onError] is invoked once for the payload, later
    invocations being for later payloads; and the delivery goes on: the
    first send after the rejected one is the first send of the next
    payload. *)
Theorem partial_media_results_kept (opts : @DeliverOptions Err)
  (provider : ProviderId) (accountId : option string)
  (raw : list ReplyPayload) (pre post : list NormalizedOutboundPayload)
  (payload : NormalizedOutboundPayload) (s : State) (k : nat)
  (c : SendCall) (e : Err) :
  let h := createProviderHandler chunkTextFn chunkMarkdownTextFn provider in
  let limit := textLimitOf resolveTextChunkLimit h provider accountId in
  let calls := mediaCalls (text payload) (mediaUrls payload) in
  normalizeOutboundPayloads raw = (pre ++ payload :: post)%list ->
  deliverLoop respond opts h limit pre emptyDelivery = (s, Resolved tt) ->
  bestEffort opts = true ->
  onError opts = true ->
  quietOnPayload opts payload ->
  (1 < k)%nat ->
  succeeds (sent s) (take (k - 1) calls) ->
  calls !! (k - 1)%nat = Some c ->
  respond (sent s ++ take (k - 1) calls)%list c = Rejected e ->
  let out := deliver opts provider accountId raw in
  let kept := responses (sent s) (take (k - 1) calls) in
  exists rest more reps,
    out.2 = Resolved (results s ++ kept ++ more)%list
    /\ length kept = (k - 1)%nat
    /\ sent out.1 = (sent s ++ take k calls ++ rest)%list
    /\ rest `sublist_of` concat (map (plannedCalls h limit) post)
    /\ reported out.1 = (reported s ++ (e, payload) :: reps)%list
    /\ reps.*2 `sublist_of` post
    /\ forall next post' c' calls',
         post = next :: post' ->
         quietOnPayload opts next ->
         plannedCalls h limit next = c' :: calls' ->
         exists rest', rest = c' :: rest'.
Proof.
  intros h limit calls Hn Hpre Hb Herr Hq Hk Hs Hc He out kept.
  assert (Hplan : plannedCalls h limit payload = calls).
  { unfold plannedCalls. subst calls.
    destruct (mediaUrls payload) eqn:Hm; [|done].
    exfalso. cbn [mediaCalls] in Hc. by rewrite lookup_nil in Hc. }
  pose proof (deliver_at_trace opts provider accountId raw pre post payload s
                Hn Hpre Hq) as H.
  cbv zeta in H. fold h in H. fold limit in H. fold out in H.
  rewrite Hplan, (answer_fails_at respond _ _ (k - 1) c e Hs Hc He) in H.
  cbn [fst snd] in H. rewrite Hb, Herr in H.
  replace (S (k - 1)) with k in H by lia. fold kept in H.
  destruct H as (Hout & Hsent & rest & more & reps & H1 & H2 & H3 & H4 & H5
                 & _ & H7).
  exists rest, more, reps.
  split; [by rewrite (H7 eq_refl), H3|].
  split.
  { subst kept. destruct (answer_succeeds respond _ _ Hs) as (_ & Hlen & _).
    unfold Deliver.responses. rewrite Hlen, length_take.
    apply lookup_lt_Some in Hc. lia. }
  split; [exact H1|]. split; [exact H2|]. split; [exact H4|].
  split; [exact H5|].
  intros next post' c' calls' -> Hqn Hcalls.
  assert (Hnext : exists rest',
            sent out.1 = ((sent s ++ take k calls) ++ c' :: rest')%list).
  { rewrite Hout, deliverLoop_cons.
    rewrite (deliverPayload_answer respond _ _ _ _ _ Hqn), Hcalls, Hsent.
    cbn [Deliver.answer].
    set (s2 := reportIf opts e payload _) in *.
    assert (Hann : sent (announce opts next s2) = sent s2)
      by apply sent_announce.
    destruct (respond (sent s ++ take k calls) c') as [r|e'].
    - destruct (answer (_ ++ [c']) calls') as [[made rs] e'] eqn:Ha.
      cbn [fst snd settledOf].
      destruct e' as [e'|]; cbn [settledOf].
      + rewrite Hb.
        destruct (returned_trace opts h limit post'
                    (reportIf opts e' next
                       (afterSends (c' :: made) (r :: rs)
                          (announce opts next s2))))
          as (rest' & _ & _ & G & _).
        cbv zeta in G. rewrite G.
        destruct (reportIf_frame opts e' next
                    (afterSends (c' :: made) (r :: rs)
                       (announce opts next s2))) as (-> & _).
        simpl. rewrite Hann, Hsent. exists (made ++ rest')%list.
        by rewrite <- !app_assoc.
      + destruct (returned_trace opts h limit post'
                    (afterSends (c' :: made) (r :: rs)
                       (announce opts next s2)))
          as (rest' & _ & _ & G & _).
        cbv zeta in G. rewrite G. simpl. rewrite Hann, Hsent.
        exists (made ++ rest')%list. by rewrite <- !app_assoc.
    - cbn [fst snd settledOf]. rewrite Hb.
      destruct (returned_trace opts h limit post'
                  (reportIf opts e' next
                     (afterSends [c'] [] (announce opts next s2))))
        as (rest' & _ & _ & G & _).
      cbv zeta in G. rewrite G.
      destruct (reportIf_frame opts e' next
                  (afterSends [c'] [] (announce opts next s2))) as (-> & _).
      simpl. rewrite Hann, Hsent. exists rest'.
      by rewrite <- !app_assoc. }
  destruct Hnext as (rest' & Hnext). exists rest'.
  rewrite H1, app_assoc in Hnext. by apply app_inv_head in Hnext.
Qed.

End DeliverEngine.

Section DeliverWitnesses.
Import Providers Deliver Examples.


Lemma media_captioning_witness :
  sent (deliverOutboundPayloads cutOnce cutOnce limitFive asGiven accepting
          (plainOptions false) discord None
          [textOnly "first";
           {| text := "look"; mediaUrls := ["a.png"; "b.png"; "c.png"] |}]).1
  = [SendText "first"; SendMedia "look" "a.png"; SendMedia "" "b.png";
     SendMedia "" "c.png"].
Proof.
  destruct (media_captioning cutOnce cutOnce limitFive asGiven accepting
              (plainOptions false) discord None
              [textOnly "first";
               {| text := "look"; mediaUrls := ["a.png"; "b.png"; "c.png"] |}]
              [textOnly "first"] []
              {| text := "look"; mediaUrls := ["a.png"; "b.png"; "c.png"] |}
              {| sent := [SendText "first"]; results := ["sent"];
                 announced := []; reported := [] |}
              "a.png" ["b.png"; "c.png"] eq_refl eq_refl eq_refl) as [_ H].
  - intros f Hf. discriminate Hf.
  - destruct H as (rest & more & H & Hsub & _).
    + vm_compute. repeat split; eexists; reflexivity.
    + apply sublist_nil_r in Hsub. subst rest. exact H.
Defined.

Lemma best_effort_versus_fail_fast_witness :
  (deliverOutboundPayloads cutOnce cutOnce limitFive asGiven rejectingSome
     (plainOptions true) discord None
     [textOnly "one"; textOnly "two"; textOnly "three"]).2
  = Resolved ["sent"; "sent"]
  /\ (deliverOutboundPayloads cutOnce cutOnce limitFive asGiven rejectingSome
        (plainOptions false) discord None
        [textOnly "one"; textOnly "two"; textOnly "three"]).2
     = Rejected "refused".
Proof.
  split.
  - destruct (best_effort_versus_fail_fast cutOnce cutOnce limitFive asGiven
                rejectingSome (plainOptions true) discord None
                [textOnly "one"; textOnly "two"; textOnly "three"]
                (textOnly "one") (textOnly "two") (textOnly "three")
                (SendText "two") [] "refused" eq_refl eq_refl eq_refl)
      as (H & _).
    + vm_compute. repeat split; eexists; reflexivity.
    + reflexivity.
    + reflexivity.
    + vm_compute. repeat split; eexists; reflexivity.
    + exact H.
  - destruct (best_effort_versus_fail_fast cutOnce cutOnce limitFive asGiven
                rejectingSome (plainOptions false) discord None
                [textOnly "one"; textOnly "two"; textOnly "three"]
                (textOnly "one") (textOnly "two") (textOnly "three")
                (SendText "two") [] "refused" eq_refl eq_refl eq_refl)
      as (H & _).
    + vm_compute. repeat split; eexists; reflexivity.
    + reflexivity.
    + reflexivity.
    + vm_compute. repeat split; eexists; reflexivity.
    + exact H.
Defined.

Lemma partial_media_results_kept_witness :
  (deliverOutboundPayloads cutOnce cutOnce limitFive asGiven rejectingSome
     (plainOptions true) discord None
     [textOnly "first";
      {| text := "look"; mediaUrls := ["a.png"; "b.png"; "c.png"] |};
      textOnly "after"]).2
  = Resolved ["sent"; "sent"; "sent"].
Proof.
  destruct (partial_media_results_kept cutOnce cutOnce limitFive asGiven
              rejectingSome (plainOptions true) discord None
              [textOnly "first";
               {| text := "look"; mediaUrls := ["a.png"; "b.png"; "c.png"] |};
               textOnly "after"]
              [textOnly "first"] [textOnly "after"]
              {| text := "look"; mediaUrls := ["a.png"; "b.png"; "c.png"] |}
              {| sent := [SendText "first"]; results := ["sent"];
                 announced := []; reported := [] |}
              2 (SendMedia "" "b.png") "refused" eq_refl eq_refl eq_refl
              eq_refl) as (rest & more & reps & H & _).
  - intros f Hf. discriminate Hf.
  - lia.
  - vm_compute. repeat split; eexists; reflexivity.
  - reflexivity.
  - reflexivity.
  - vm_compute. reflexivity.
Defined.

End DeliverWitnesses.

(** ** Supervision *)

Section SupervisorProps.
Import Supervisor.

Lemma request_during_shutdown (action : GatewayRunSignalAction)
  (signal : string) (s : GatewayLoop) :
  shuttingDown s = true ->
  request action signal s
  = logLine ("received " ++ signal ++ " during shutdown; ignoring") s.
Proof. intros H. unfold request. by rewrite H. Qed.

Lemma bystander_keeps_stopping (e : Event) (s : GatewayLoop) :
  isBystander e = true -> stopping s -> stopping (step e s).
Proof.
  intros He (Hx & Hs & Hc & Ht). unfold step. rewrite Hx.
  destruct e as [sig|r| |]; try discriminate.
  - destruct (listening s); [|done].
    rewrite (request_during_shutdown _ _ _ Hs). done.
  - destruct (phase s); try done. by destruct r.
Qed.

Lemma bystanders_keep_stopping (events : list Event) (s : GatewayLoop) :
  forallb isBystander events = true -> stopping s -> stopping (run events s).
Proof.
  revert s. induction events as [|e events IH]; intros s; simpl; [done|].
  intros [He Hes]%andb_prop Hs. apply IH; [done|].
  by apply bystander_keeps_stopping.
Qed.

Lemma stopping_ends (e : Event) (s : GatewayLoop) :
  isBystander e = false -> stopping s -> exited (step e s) = Some 0.
Proof.
  intros He (Hx & Hs & Hc & Ht). unfold step. rewrite Hx.
  destruct e as [sig|r|r|]; try discriminate.
  - rewrite Hc. by destruct r.
  - by rewrite Ht.
Qed.

(** C9 (supervisor signal handling).
    - A signal that arrives while a shutdown is in progress only adds a
      log line: no further close, no new timer, no exit.
    - A restart signal in normal operation calls [close] on the current
      server; once that close has settled (whether it succeeded or
      threw), the loop calls [params.start()] again, and when the new
      server is up the process is back in normal operation; the process
      has not exited at any of these points.
    - A stop signal that is not ignored arms the forced-exit timer with
      5000 ms and starts the close; whatever else happens in between
      (further signals, a start completing), the process has not exited
      before, and has exited with code 0 after, the first of the two
      events "close settles" and "timer fires". *)
Theorem supervisor_signal_handling :
  (forall (s : GatewayLoop) (sig : Signal),
     shuttingDown s = true -> listening s = true -> exited s = None ->
     step (Receive sig) s
     = logLine ("received " ++ signalName sig ++ " during shutdown; ignoring") s)
  /\ (forall (s : GatewayLoop) (h h' : nat) (r : Settled string unit),
        serving h s ->
        let s1 := step (Receive SIGUSR1) s in
        let s2 := step (CloseSettles r) s1 in
        let s3 := step (StartSettles (Resolved h')) s2 in
        closeCalls s1 = (closeCalls s ++ [(h, "gateway restarting")])%list
        /\ started s1 = started s /\ exited s1 = None
        /\ server s2 = None /\ phase s2 = Starting
        /\ started s2 = S (started s) /\ exited s2 = None
        /\ started s3 = S (started s) /\ serving h' s3)
  /\ (forall (s : GatewayLoop) (sig : Signal) (between : list Event)
             (final : Event),
        actionOf sig = stop ->
        shuttingDown s = false -> listening s = true -> exited s = None ->
        forallb isBystander between = true ->
        isBystander final = false ->
        let s1 := step (Receive sig) s in
        forceExitTimer s1 = Some 5000 /\ closing s1 = Some stop
        /\ exited (run between s1) = None
        /\ exited (run (between ++ [final]) s1) = Some 0).
Proof.
  split; [|split].
  - intros s sig Hs Hl Hx. unfold step. rewrite Hx, Hl.
    by apply request_during_shutdown.
  - intros s h h' r (Hsrv & Hsd & Hcl & Htm & Hl & Hx & k & Hph & Hres).
    destruct s; simpl in *; subst.
    assert (Hk : bool_decide (k = k) = true) by (by apply bool_decide_eq_true_2).
    unfold serving.
    destruct r; cbn; unfold callRestartResolver; cbn; rewrite Hk; cbn;
      repeat split; eauto.
  - intros s sig between final Ha Hsd Hl Hx Hb Hf. cbv zeta.
    assert (Hst : stopping (step (Receive sig) s)).
    { unfold step. rewrite Hx, Hl. unfold request. rewrite Hsd, Ha.
      repeat split; done. }
    split; [apply Hst|]. split; [apply Hst|]. split.
    + apply (bystanders_keep_stopping between _ Hb Hst).
    + unfold run. rewrite foldl_app. simpl.
      apply stopping_ends; [done|].
      apply (bystanders_keep_stopping between _ Hb Hst).
Qed.

(** The forced-exit timer is armed by a restart request as well: when the
    close has not settled by the time it fires, the process exits and no
    further server is started. *)
Remark restart_cut_short_by_timer (s : GatewayLoop) (h : nat) :
  serving h s ->
  let s2 := run [Receive SIGUSR1; TimerFires] s in
  exited s2 = Some 0 /\ started s2 = started s.
Proof.
  intros (Hsrv & Hsd & Hcl & Htm & Hl & Hx & k & Hph & Hres).
  destruct s; simpl in *; subst. by cbn.
Qed.

End SupervisorProps.

Lemma supervisor_signal_handling_witness :
  let s := Supervisor.run [Supervisor.StartSettles (Resolved 7%nat)]
             Supervisor.initialLoop in
  Supervisor.exited
    (Supervisor.run [Supervisor.Receive Supervisor.SIGTERM;
                     Supervisor.Receive Supervisor.SIGUSR1;
                     Supervisor.TimerFires] s) = Some 0
  /\ Supervisor.serving 8
       (Supervisor.run [Supervisor.Receive Supervisor.SIGUSR1;
                        Supervisor.CloseSettles (Resolved tt);
                        Supervisor.StartSettles (Resolved 8%nat)] s).
Proof.
  cbv zeta. split.
  - destruct supervisor_signal_handling as (_ & _ & H).
    apply (H (Supervisor.run [Supervisor.StartSettles (Resolved 7%nat)]
                Supervisor.initialLoop)
             Supervisor.SIGTERM [Supervisor.Receive Supervisor.SIGUSR1]
             Supervisor.TimerFires); reflexivity.
  - destruct supervisor_signal_handling as (_ & H & _).
    apply (H (Supervisor.run [Supervisor.StartSettles (Resolved 7%nat)]
                Supervisor.initialLoop) 7%nat 8%nat (Resolved tt)).
    vm_compute. repeat split; eauto.
Defined.

(** ** The runtime manager *)

Section ManagerProps.
Import Providers Manager.
Context {Err : Type}.
Variable formatErrorMessage : Err -> string.
Variable DEFAULT_ACCOUNT_ID : string.
Variable orderKey : ProviderId -> Z.

(** *** The store under the primitive updates *)

Lemma getStore_putStore (p q : ProviderId) (s : ProviderRuntimeStore)
  (m : ManagerState) :
  getStore q (putStore p s m) = if decide (p = q) then s else getStore q m.
Proof.
  unfold getStore, putStore. simpl. rewrite lookup_insert.
  by case_decide.
Qed.

Lemma tasks_setRuntime p id patch q (m : ManagerState) :
  tasks (getStore q (setRuntime p id patch m)) = tasks (getStore q m).
Proof.
  unfold setRuntime, emit. unfold getStore at 1. simpl.
  rewrite lookup_insert. case_decide; [subst|]; done.
Qed.

Lemma aborts_setRuntime p id patch q (m : ManagerState) :
  aborts (getStore q (setRuntime p id patch m)) = aborts (getStore q m).
Proof.
  unfold setRuntime, emit. unfold getStore at 1. simpl.
  rewrite lookup_insert. case_decide; [subst|]; done.
Qed.

Lemma getRuntime_setRuntime p id patch q i (m : ManagerState) :
  getRuntime q i (setRuntime p id patch m)
  = if decide (p = q /\ id = i)
    then spread (getRuntime p id m) patch id
    else getRuntime q i m.
Proof.
  unfold getRuntime at 1. unfold setRuntime, emit. unfold getStore at 1.
  simpl. rewrite lookup_insert.
  destruct (decide (p = q)) as [->|Hpq]; simpl.
  - rewrite lookup_insert. destruct (decide (id = i)) as [->|Hi].
    + by destruct (decide (q = q /\ i = i)) as [_|[]].
    + by destruct (decide (q = q /\ id = i)) as [[_ ?]|_].
  - by destruct (decide (p = q /\ id = i)) as [[? _]|_].
Qed.

Lemma live_setRuntime p id patch (m : ManagerState) :
  live (setRuntime p id patch m) = live m.
Proof. done. Qed.

Lemma effects_setRuntime p id patch (m : ManagerState) :
  effects (setRuntime p id patch m) = (effects m ++ [SetRuntime p id patch])%list.
Proof. done. Qed.

Lemma tasks_setAbort p id a q (m : ManagerState) :
  tasks (getStore q (setAbort p id a m)) = tasks (getStore q m).
Proof.
  unfold setAbort. rewrite getStore_putStore. case_decide; [subst|]; done.
Qed.

Lemma getRuntime_setAbort p id a q i (m : ManagerState) :
  getRuntime q i (setAbort p id a m) = getRuntime q i m.
Proof.
  unfold getRuntime, setAbort. rewrite getStore_putStore.
  case_decide; [subst|]; done.
Qed.

Lemma aborts_setAbort p id a q (m : ManagerState) :
  aborts (getStore q (setAbort p id a m))
  = if decide (p = q) then <[id := a]> (aborts (getStore q m))
    else aborts (getStore q m).
Proof.
  unfold setAbort. rewrite getStore_putStore. case_decide; [subst|]; done.
Qed.

Lemma tasks_setTask p id t q (m : ManagerState) :
  tasks (getStore q (setTask p id t m))
  = if decide (p = q) then <[id := t]> (tasks (getStore q m))
    else tasks (getStore q m).
Proof.
  unfold setTask. rewrite getStore_putStore. case_decide; [subst|]; done.
Qed.

Lemma aborts_setTask p id t q (m : ManagerState) :
  aborts (getStore q (setTask p id t m)) = aborts (getStore q m).
Proof.
  unfold setTask. rewrite getStore_putStore. case_decide; [subst|]; done.
Qed.

Lemma getRuntime_setTask p id t q i (m : ManagerState) :
  getRuntime q i (setTask p id t m) = getRuntime q i m.
Proof.
  unfold getRuntime, setTask. rewrite getStore_putStore.
  case_decide; [subst|]; done.
Qed.

Lemma tasks_deleteTask p id q (m : ManagerState) :
  tasks (getStore q (deleteTask p id m))
  = if decide (p = q) then delete id (tasks (getStore q m))
    else tasks (getStore q m).
Proof.
  unfold deleteTask. rewrite getStore_putStore. case_decide; [subst|]; done.
Qed.

Lemma aborts_deleteTask p id q (m : ManagerState) :
  aborts (getStore q (deleteTask p id m)) = aborts (getStore q m).
Proof.
  unfold deleteTask. rewrite getStore_putStore. case_decide; [subst|]; done.
Qed.

Lemma getRuntime_deleteTask p id q i (m : ManagerState) :
  getRuntime q i (deleteTask p id m) = getRuntime q i m.
Proof.
  unfold getRuntime, deleteTask. rewrite getStore_putStore.
  case_decide; [subst|]; done.
Qed.

Lemma tasks_deleteAbort p id q (m : ManagerState) :
  tasks (getStore q (deleteAbort p id m)) = tasks (getStore q m).
Proof.
  unfold deleteAbort. rewrite getStore_putStore. case_decide; [subst|]; done.
Qed.

Lemma aborts_deleteAbort p id q (m : ManagerState) :
  aborts (getStore q (deleteAbort p id m))
  = if decide (p = q) then delete id (aborts (getStore q m))
    else aborts (getStore q m).
Proof.
  unfold deleteAbort. rewrite getStore_putStore. case_decide; [subst|]; done.
Qed.

Lemma getRuntime_deleteAbort p id q i (m : ManagerState) :
  getRuntime q i (deleteAbort p id m) = getRuntime q i m.
Proof.
  unfold getRuntime, deleteAbort. rewrite getStore_putStore.
  case_decide; [subst|]; done.
Qed.

(** Every provider has a plugin; all of them can start an account and
    tell whether it is configured, none has a [stopAccount] hook. *)
Lemma plugin_found (p : ProviderId) :
  exists plugin, getProviderPlugin p = Some plugin
    /\ plugin_id plugin = p
    /\ has_startAccount plugin = true
    /\ has_isConfigured plugin = true
    /\ has_stopAccount plugin = false.
Proof. destruct p; eexists; repeat split. Qed.

Lemma truthy_Some (a : string) : a <> "" -> truthy (Some a) = Some a.
Proof. intros H. unfold truthy. by rewrite bool_decide_eq_false_2. Qed.


(** *** [launchAccount] *)

Lemma getStore_fresh q (m : ManagerState) :
  getStore q (fresh m).2 = getStore q m.
Proof. reflexivity. Qed.

Lemma getStore_emit q e (m : ManagerState) :
  getStore q (emit e m) = getStore q m.
Proof. reflexivity. Qed.

Lemma getStore_addLive q t p id (m : ManagerState) :
  getStore q (addLive t p id m) = getStore q m.
Proof. reflexivity. Qed.

Lemma getStore_dropLive q t (m : ManagerState) :
  getStore q (dropLive t m) = getStore q m.
Proof. reflexivity. Qed.

Lemma getStore_markAborted q a (m : ManagerState) :
  getStore q (markAborted a m) = getStore q m.
Proof. reflexivity. Qed.

Lemma getRuntime_store q i (m m' : ManagerState) :
  getStore q m' = getStore q m -> getRuntime q i m' = getRuntime q i m.
Proof. unfold getRuntime. by intros ->. Qed.

Lemma launchAccount_steps p id now (m : ManagerState) :
  launchAccount p id now m
  = setTask p id (S (nextHandle m))
      (addLive (S (nextHandle m)) p id
         (emit (CallStartAccount p id (nextHandle m) (S (nextHandle m)))
            (fresh (setRuntime p id (startedPatch id now)
                      (setAbort p id (nextHandle m) (fresh m).2))).2)).
Proof. reflexivity. Qed.

Lemma tasks_launchAccount p id now q (m : ManagerState) :
  tasks (getStore q (launchAccount p id now m))
  = if decide (p = q) then <[id := S (nextHandle m)]> (tasks (getStore q m))
    else tasks (getStore q m).
Proof.
  rewrite launchAccount_steps, tasks_setTask, getStore_addLive, getStore_emit,
    getStore_fresh, tasks_setRuntime, tasks_setAbort, getStore_fresh.
  done.
Qed.

Lemma aborts_launchAccount p id now q (m : ManagerState) :
  aborts (getStore q (launchAccount p id now m))
  = if decide (p = q) then <[id := nextHandle m]> (aborts (getStore q m))
    else aborts (getStore q m).
Proof.
  rewrite launchAccount_steps, aborts_setTask, getStore_addLive, getStore_emit,
    getStore_fresh, aborts_setRuntime, aborts_setAbort, getStore_fresh.
  done.
Qed.

Lemma live_launchAccount p id now (m : ManagerState) :
  live (launchAccount p id now m) = <[S (nextHandle m) := (p, id)]> (live m).
Proof. reflexivity. Qed.

Lemma effects_launchAccount p id now (m : ManagerState) :
  effects (launchAccount p id now m)
  = (effects m
     ++ [SetRuntime p id (startedPatch id now);
         CallStartAccount p id (nextHandle m) (S (nextHandle m))])%list.
Proof.
  unfold launchAccount. simpl. by rewrite <- app_assoc.
Qed.

Lemma getRuntime_launchAccount p id now q i (m : ManagerState) :
  getRuntime q i (launchAccount p id now m)
  = if decide (p = q /\ id = i)
    then spread (getRuntime p id m) (startedPatch id now) id
    else getRuntime q i m.
Proof.
  rewrite launchAccount_steps, getRuntime_setTask.
  rewrite (getRuntime_store q i
             (setRuntime p id (startedPatch id now)
                (setAbort p id (nextHandle m) (fresh m).2))) by reflexivity.
  rewrite getRuntime_setRuntime, !getRuntime_setAbort.
  rewrite !(getRuntime_store _ _ m (fresh m).2) by reflexivity. done.
Qed.

(** *** One awaited [startProvider] call for a named account *)

Lemma startProvider_registered (cfg : Config Err) p (a : string) now
  (m : ManagerState) :
  a <> "" -> is_Some (tasks (getStore p m) !! a) ->
  startProvider cfg p (Some a) now m = (m, Returns).
Proof.
  intros Ha Ht. destruct (plugin_found p) as (pl & Hpl & _ & Hs & _).
  unfold startProvider. rewrite Hpl, Hs, (truthy_Some _ Ha). simpl.
  unfold startAccountEnter. rewrite bool_decide_eq_true_2; done.
Qed.

Lemma startProvider_disabled (cfg : Config Err) p (a : string) now
  (m : ManagerState) :
  a <> "" -> tasks (getStore p m) !! a = None ->
  accountEnabled cfg p (resolveAccount cfg p a) = false ->
  startProvider cfg p (Some a) now m
  = (setRuntime p a (disabledPatch a) m, Returns).
Proof.
  intros Ha Ht He. destruct (plugin_found p) as (pl & Hpl & _ & Hs & _).
  unfold startProvider. rewrite Hpl, Hs, (truthy_Some _ Ha). simpl.
  unfold startAccountEnter. rewrite bool_decide_eq_false_2.
  - rewrite He. done.
  - rewrite Ht. by intros [? ?].
Qed.

Lemma startProvider_awaits (cfg : Config Err) p (a : string) now
  (m : ManagerState) :
  a <> "" -> tasks (getStore p m) !! a = None ->
  accountEnabled cfg p (resolveAccount cfg p a) = true ->
  startProvider cfg p (Some a) now m
  = (let '(m1, r) := startAccountResume p a (isConfigured cfg p a) now m in
     (m1, bothResults r Returns)).
Proof.
  intros Ha Ht He. destruct (plugin_found p) as (pl & Hpl & _ & Hs & Hc & _).
  unfold startProvider. rewrite Hpl, Hs, (truthy_Some _ Ha). simpl.
  unfold startAccountEnter. rewrite bool_decide_eq_false_2.
  - rewrite He, Hc. done.
  - rewrite Ht. by intros [? ?].
Qed.

Lemma startProvider_launches (cfg : Config Err) p (a : string) now
  (m : ManagerState) :
  a <> "" -> tasks (getStore p m) !! a = None ->
  accountEnabled cfg p (resolveAccount cfg p a) = true ->
  isConfigured cfg p a = Resolved true ->
  startProvider cfg p (Some a) now m = (launchAccount p a now m, Returns).
Proof.
  intros Ha Ht He Hc. rewrite startProvider_awaits by done.
  by rewrite Hc.
Qed.

Lemma countEffects_app (f : Effect -> bool) (m m' : ManagerState)
  (l : list Effect) :
  effects m' = (effects m ++ l)%list ->
  countEffects f m' = (countEffects f m + length (List.filter f l))%nat.
Proof.
  intros H. unfold countEffects. by rewrite H, List.filter_app, length_app.
Qed.

(** C1 (idempotent start), for calls made one after the other.  An
    account that is not running, is enabled and is configured is started
    by an awaited [startProvider] call.  A second call for the same
    account, made after the first has returned and while the task of the
    first is still registered, returns normally and leaves the manager
    exactly as it was, whatever the configuration says by then.  Over the
    two calls [startAccount] has been invoked once, one connection task
    has been added to the live ones and is the one registered for the
    account, and [lastStartAt] has been written once: it still holds the
    time of the first call. *)
Theorem startProvider_idempotent (cfg1 cfg2 : Config Err) (p : ProviderId)
  (a : string) (now1 now2 : Z) (m : ManagerState) :
  a <> "" ->
  tasks (getStore p m) !! a = None ->
  accountEnabled cfg1 p (resolveAccount cfg1 p a) = true ->
  isConfigured cfg1 p a = Resolved true ->
  let first := startProvider cfg1 p (Some a) now1 m in
  let second := startProvider cfg2 p (Some a) now2 first.1 in
  first.2 = Returns /\ second.2 = Returns /\ second.1 = first.1
  /\ (exists t, tasks (getStore p second.1) !! a = Some t
               /\ live second.1 = <[t := (p, a)]> (live m))
  /\ countEffects (isStartCall p a) second.1
     = S (countEffects (isStartCall p a) m)
  /\ countEffects (isStartStamp p a) second.1
     = S (countEffects (isStartStamp p a) m)
  /\ lastStartAt (getRuntime p a second.1) = Some (Some now1).
Proof.
  intros Ha Ht He Hc first second.
  assert (Hfirst : first = (launchAccount p a now1 m, Returns)).
  { by apply startProvider_launches. }
  assert (Hreg : tasks (getStore p first.1) !! a = Some (S (nextHandle m))).
  { rewrite Hfirst. cbn [fst]. rewrite tasks_launchAccount.
    destruct (decide (p = p)); [|done]. by rewrite lookup_insert_eq. }
  assert (Hsecond : second = (first.1, Returns)).
  { apply startProvider_registered; [done|]. by rewrite Hreg. }
  rewrite Hsecond. cbn [fst snd]. rewrite Hfirst in Hreg |- *. cbn [fst snd] in *.
  split; [done|]. split; [done|]. split; [done|]. split; [|split; [|split]].
  - exists (S (nextHandle m)). split; [done|]. apply live_launchAccount.
  - rewrite (countEffects_app _ m _ _ (effects_launchAccount p a now1 m)).
    simpl. rewrite !bool_decide_eq_true_2 by done. simpl. lia.
  - rewrite (countEffects_app _ m _ _ (effects_launchAccount p a now1 m)).
    simpl. rewrite !bool_decide_eq_true_2 by (done || (simpl; eauto)).
    simpl. lia.
  - rewrite getRuntime_launchAccount.
    by destruct (decide (p = p /\ a = a)) as [_|[]].
Qed.


(** Two calls that overlap are a different matter: the manager has no
    lock and no mark for a start that is under way.  When the second call
    tests the task table while the first is still suspended in
    [isConfigured], the account is not running yet for either of them, and
    both go on to call [startAccount]. *)
Remark overlapping_starts_launch_twice (plugin : ProviderPlugin)
  (cfg : Config Err) (p : ProviderId) (a : string) (now : Z)
  (m : ManagerState) :
  has_isConfigured plugin = true ->
  tasks (getStore p m) !! a = None ->
  accountEnabled cfg p (resolveAccount cfg p a) = true ->
  isConfigured cfg p a = Resolved true ->
  let first := startAccountEnter plugin cfg p a now m in
  let second := startAccountEnter plugin cfg p a now first.1 in
  let m3 := (startAccountResume p a (isConfigured cfg p a) now second.1).1 in
  let m4 := (startAccountResume p a (isConfigured cfg p a) now m3).1 in
  first.2 = StartAwaitsConfigured /\ second.2 = StartAwaitsConfigured
  /\ countEffects (isStartCall p a) m4
     = S (S (countEffects (isStartCall p a) m)).
Proof.
  intros Hc Ht He Hcf first second m3 m4.
  assert (Henter : startAccountEnter plugin cfg p a now m
                   = (m, StartAwaitsConfigured)).
  { unfold startAccountEnter.
    rewrite bool_decide_eq_false_2 by (rewrite Ht; by intros [? ?]).
    by rewrite He, Hc. }
  subst m4 m3 second first. rewrite Henter. cbn [fst snd].
  rewrite Henter. cbn [fst snd]. rewrite Hcf. cbn [startAccountResume fst].
  split; [done|]. split; [done|].
  rewrite (countEffects_app _ (launchAccount p a now m) _ _
             (effects_launchAccount p a now _)).
  rewrite (countEffects_app _ m _ _ (effects_launchAccount p a now m)).
  cbn [List.filter isStartCall isStartStamp].
  rewrite !(bool_decide_eq_true_2 (p = p)), !(bool_decide_eq_true_2 (a = a))
    by done.
  simpl. lia.
Qed.

(** *** Settlement and stop of one account *)

Lemma tasks_stopAccountFinish p id now q (m : ManagerState) :
  tasks (getStore q (stopAccountFinish p id now m))
  = if decide (p = q) then delete id (tasks (getStore q m))
    else tasks (getStore q m).
Proof.
  unfold stopAccountFinish.
  by rewrite tasks_setRuntime, tasks_deleteTask, tasks_deleteAbort.
Qed.

Lemma aborts_stopAccountFinish p id now q (m : ManagerState) :
  aborts (getStore q (stopAccountFinish p id now m))
  = if decide (p = q) then delete id (aborts (getStore q m))
    else aborts (getStore q m).
Proof.
  unfold stopAccountFinish.
  by rewrite aborts_setRuntime, aborts_deleteTask, aborts_deleteAbort.
Qed.

Lemma getRuntime_stopAccountFinish p id now q i (m : ManagerState) :
  getRuntime q i (stopAccountFinish p id now m)
  = if decide (p = q /\ id = i)
    then spread (getRuntime p id m) (stoppedPatch id now) id
    else getRuntime q i m.
Proof.
  unfold stopAccountFinish.
  by rewrite getRuntime_setRuntime, !getRuntime_deleteTask,
    !getRuntime_deleteAbort.
Qed.

Lemma aborted_stopAccountFinish p id now (m : ManagerState) :
  aborted (stopAccountFinish p id now m) = aborted m.
Proof. reflexivity. Qed.

Lemma taskFinally_live t now p id (m : ManagerState) :
  live m !! t = Some (p, id) ->
  taskFinally t now m = dropLive t (stopAccountFinish p id now m).
Proof. intros H. unfold taskFinally. by rewrite H. Qed.

Lemma taskCatch_live t e p id (m : ManagerState) :
  live m !! t = Some (p, id) ->
  taskCatch formatErrorMessage t e m
  = emit (LogError p id ("[" ++ id ++ "] provider exited: "
                         ++ formatErrorMessage e))
      (setRuntime p id
         (with_lastError (Some (Some (formatErrorMessage e))) (patch0 id)) m).
Proof. intros H. unfold taskCatch. by rewrite H. Qed.

Lemma aborted_settleTask t outcome now (m : ManagerState) :
  aborted (settleTask formatErrorMessage t outcome now m) = aborted m.
Proof.
  unfold settleTask, taskFinally, taskCatch.
  destruct outcome as [[]|e]; destruct (live m !! t) as [[p id]|] eqn:Hl;
    cbn; rewrite ?Hl; reflexivity.
Qed.

Lemma stopAccountFinish_stoppedAt p a now (m : ManagerState) :
  stoppedAt p a now (stopAccountFinish p a now m).
Proof.
  unfold stoppedAt.
  rewrite aborts_stopAccountFinish, tasks_stopAccountFinish,
    getRuntime_stopAccountFinish.
  destruct (decide (p = p)); [|done].
  destruct (decide (p = p /\ a = a)) as [_|[]]; [|done].
  by rewrite !lookup_delete_eq.
Qed.

Lemma stopProvider_registered (cfg : Config Err) (env : @StopEnv Err)
  p (a : string) now (m : ManagerState) (t : nat) :
  a <> "" -> tasks (getStore p m) !! a = Some t ->
  stopProvider formatErrorMessage cfg env p (Some a) now m
  = let m1 := match aborts (getStore p m) !! a with
              | Some x => markAborted x m
              | None => m
              end in
    let '(m2, r) :=
      match live m !! t with
      | None => (stopAccountFinish p a now m1, Returns)
      | Some _ =>
          match taskEnds env t with
          | None => (m1, Hangs)
          | Some outcome =>
              (stopAccountFinish p a now
                 (settleTask formatErrorMessage t outcome now m1), Returns)
          end
      end in
    (m2, bothResults r Returns).
Proof.
  intros Ha Ht. destruct (plugin_found p) as (pl & Hpl & _ & _ & _ & Hstop).
  unfold stopProvider, knownIds. rewrite Hpl, (truthy_Some _ Ha).
  cbn [stopEnterAll]. unfold stopAccountEnter. rewrite Ht.
  cbn [hasStopAccount]. rewrite Hstop.
  rewrite (bool_decide_eq_false_2 (Some t = None)) by done.
  rewrite andb_false_r. cbn [andb negb stopResumeAll].
  unfold stopAccountResume. cbn [hasStopAccount]. rewrite Hstop.
  assert (Hlive : forall x, live (markAborted x m) = live m) by done.
  destruct (aborts (getStore p m) !! a) as [x|]; rewrite ?Hlive;
    destruct (live m !! t); try destruct (taskEnds env t); reflexivity.
Qed.

(** C3 (stop postcondition).  An account with a registered task (one
    that was started and has not been stopped since) is stopped by an
    awaited [stopProvider] call.  The call never rejects, whether the
    connection task fulfils or rejects; it returns once that task has
    settled (a task that never settles keeps it pending).  When it has
    returned, the account has neither a cancellation handle nor a task in
    the store, its snapshot says [running = false] with [lastStopAt] set to
    the time of the stop, the controller that was registered has been
    aborted, and a rejection of the task is kept as [lastError]. *)
Theorem stopProvider_after_start (cfg : Config Err) (env : @StopEnv Err)
  (p : ProviderId) (a : string) (now : Z) (m : ManagerState) (t : nat) :
  a <> "" ->
  tasks (getStore p m) !! a = Some t ->
  let out := stopProvider formatErrorMessage cfg env p (Some a) now m in
  (forall e, out.2 <> Throws e)
  /\ (live m !! t = None \/ is_Some (taskEnds env t) -> out.2 = Returns)
  /\ (out.2 = Returns ->
      stoppedAt p a now out.1
      /\ (forall x, aborts (getStore p m) !! a = Some x -> x ∈ aborted out.1)
      /\ (forall e, live m !! t = Some (p, a) ->
                    taskEnds env t = Some (Rejected e) ->
                    lastError (getRuntime p a out.1)
                    = Some (Some (formatErrorMessage e)))).
Proof.
  intros Ha Ht out. subst out.
  rewrite (stopProvider_registered cfg env p a now m t Ha Ht). cbv zeta.
  set (m1 := match aborts (getStore p m) !! a with
             | Some x => markAborted x m
             | None => m
             end).
  assert (Hab : forall x, aborts (getStore p m) !! a = Some x -> x ∈ aborted m1).
  { intros x Hx. subst m1. rewrite Hx. simpl.
    apply elem_of_union. left. by apply elem_of_singleton. }
  assert (Hlv : live m1 = live m).
  { subst m1. by destruct (aborts (getStore p m) !! a). }
  destruct (live m !! t) as [[p' a']|] eqn:Hl.
  - destruct (taskEnds env t) as [outcome|] eqn:Ho; cbn [fst snd bothResults].
    + split; [done|]. split; [done|]. intros _.
      split; [apply stopAccountFinish_stoppedAt|]. split.
      * intros x Hx. rewrite aborted_stopAccountFinish, aborted_settleTask.
        by apply Hab.
      * intros e [= -> ->] [= ->].
        rewrite getRuntime_stopAccountFinish.
        destruct (decide (p = p /\ a = a)) as [_|[]]; [|done].
        unfold settleTask.
        assert (Hl1 : live m1 !! t = Some (p, a)) by (by rewrite Hlv).
        rewrite (taskFinally_live t now p a).
        2:{ rewrite (taskCatch_live t e p a m1 Hl1). exact Hl1. }
        rewrite (getRuntime_store p a
                   (stopAccountFinish p a now
                      (taskCatch formatErrorMessage t e m1))) by reflexivity.
        rewrite getRuntime_stopAccountFinish.
        destruct (decide (p = p /\ a = a)) as [_|[]]; [|done].
        rewrite (taskCatch_live t e p a m1 Hl1).
        rewrite (getRuntime_store p a
                   (setRuntime p a
                      (with_lastError (Some (Some (formatErrorMessage e)))
                         (patch0 a)) m1)) by reflexivity.
        rewrite getRuntime_setRuntime.
        destruct (decide (p = p /\ a = a)) as [_|[]]; [|done]. reflexivity.
    + split; [done|]. split; [|done].
      intros [H|[x H]]; discriminate H.
  - cbn [fst snd bothResults].
    split; [done|]. split; [done|]. intros _.
    split; [apply stopAccountFinish_stoppedAt|]. split.
    + intros x Hx. rewrite aborted_stopAccountFinish. by apply Hab.
    + intros e [=].
Qed.

(** A connection task that never settles keeps [stopProvider] pending,
    and an [isConfigured] check that itself rejects makes [startProvider]
    reject. *)
Remark stopProvider_waits_for_task (cfg : Config Err) (env : @StopEnv Err)
  (p : ProviderId) (a : string) (now : Z) (m : ManagerState) (t : nat) :
  a <> "" ->
  tasks (getStore p m) !! a = Some t ->
  is_Some (live m !! t) ->
  taskEnds env t = None ->
  (stopProvider formatErrorMessage cfg env p (Some a) now m).2 = Hangs.
Proof.
  intros Ha Ht [x Hl] Hn.
  rewrite (stopProvider_registered cfg env p a now m t Ha Ht). cbv zeta.
  by rewrite Hl, Hn.
Qed.

Remark startProvider_check_rejects (cfg : Config Err) (p : ProviderId)
  (a : string) (now : Z) (m : ManagerState) (e : Err) :
  a <> "" ->
  tasks (getStore p m) !! a = None ->
  accountEnabled cfg p (resolveAccount cfg p a) = true ->
  isConfigured cfg p a = Rejected e ->
  startProvider cfg p (Some a) now m = (m, Throws e).
Proof.
  intros Ha Ht He Hc. rewrite startProvider_awaits by done. by rewrite Hc.
Qed.

Lemma consistent_initial : consistent initialState.
Proof. intros p id _. reflexivity. Qed.

Lemma consistent_same_store (m m' : ManagerState) :
  (forall q, getStore q m' = getStore q m) -> consistent m -> consistent m'.
Proof.
  intros Hs Hc p id. unfold consistentAt.
  rewrite (getRuntime_store p id m m' (Hs p)), Hs. apply Hc.
Qed.

Lemma setRuntime_consistent p id patch (m : ManagerState) :
  consistent m ->
  (isRunning (spread (getRuntime p id m) patch id) = false ->
   tasks (getStore p m) !! id = None) ->
  consistent (setRuntime p id patch m).
Proof.
  intros Hc Hp q i. unfold consistentAt.
  rewrite getRuntime_setRuntime, tasks_setRuntime.
  destruct (decide (p = q /\ id = i)) as [[-> ->]|_]; [exact Hp | apply Hc].
Qed.

Lemma isRunning_keep (cur patch : ProviderAccountSnapshot) id :
  running patch = None ->
  isRunning (spread cur patch id) = isRunning cur.
Proof. intros H. unfold isRunning, spread. simpl. by rewrite H. Qed.

Lemma setAbort_consistent p id a (m : ManagerState) :
  consistent m -> consistent (setAbort p id a m).
Proof.
  intros Hc q i. unfold consistentAt.
  rewrite getRuntime_setAbort, tasks_setAbort. apply Hc.
Qed.

Lemma deleteAbort_consistent p id (m : ManagerState) :
  consistent m -> consistent (deleteAbort p id m).
Proof.
  intros Hc q i. unfold consistentAt.
  rewrite getRuntime_deleteAbort, tasks_deleteAbort. apply Hc.
Qed.

Lemma deleteTask_consistent p id (m : ManagerState) :
  consistent m -> consistent (deleteTask p id m).
Proof.
  intros Hc q i. unfold consistentAt.
  rewrite getRuntime_deleteTask, tasks_deleteTask. intros Hr.
  specialize (Hc q i Hr). case_decide; [|done].
  destruct (decide (id = i)) as [->|Hne].
  - apply lookup_delete_eq.
  - by rewrite lookup_delete_ne.
Qed.

Lemma setTask_consistent p id t (m : ManagerState) :
  consistent m -> isRunning (getRuntime p id m) = true ->
  consistent (setTask p id t m).
Proof.
  intros Hc Hr q i. unfold consistentAt.
  rewrite getRuntime_setTask, tasks_setTask. intros Hq.
  specialize (Hc q i Hq). case_decide; [subst q|done].
  destruct (decide (id = i)) as [->|Hne]; [congruence|].
  by rewrite lookup_insert_ne.
Qed.

Lemma launchAccount_consistent p id now (m : ManagerState) :
  consistent m -> consistent (launchAccount p id now m).
Proof.
  intros Hc. rewrite launchAccount_steps.
  apply setTask_consistent.
  - apply (consistent_same_store
             (setRuntime p id (startedPatch id now)
                (setAbort p id (nextHandle m) (fresh m).2))); [done|].
    apply setRuntime_consistent; [|done].
    apply setAbort_consistent.
    by apply (consistent_same_store m).
  - rewrite (getRuntime_store p id
               (setRuntime p id (startedPatch id now)
                  (setAbort p id (nextHandle m) (fresh m).2))) by reflexivity.
    rewrite getRuntime_setRuntime.
    by destruct (decide (p = p /\ id = id)) as [_|[]].
Qed.

Lemma stopAccountFinish_consistent p id now (m : ManagerState) :
  consistent m -> consistent (stopAccountFinish p id now m).
Proof.
  intros Hc. unfold stopAccountFinish. apply setRuntime_consistent.
  - by apply deleteTask_consistent, deleteAbort_consistent.
  - intros _. rewrite tasks_deleteTask.
    destruct (decide (p = p)); [|done]. apply lookup_delete_eq.
Qed.

Lemma taskCatch_consistent t e (m : ManagerState) :
  consistent m -> consistent (taskCatch formatErrorMessage t e m).
Proof.
  intros Hc. unfold taskCatch. destruct (live m !! t) as [[p id]|]; [|done].
  apply (consistent_same_store
           (setRuntime p id
              (with_lastError (Some (Some (formatErrorMessage e))) (patch0 id))
              m)); [done|].
  apply setRuntime_consistent; [done|].
  rewrite isRunning_keep by done. apply Hc.
Qed.

Lemma taskFinally_consistent t now (m : ManagerState) :
  consistent m -> consistent (taskFinally t now m).
Proof.
  intros Hc. unfold taskFinally. destruct (live m !! t) as [[p id]|]; [|done].
  apply (consistent_same_store (stopAccountFinish p id now m)); [done|].
  by apply stopAccountFinish_consistent.
Qed.

Lemma settleTask_consistent t outcome now (m : ManagerState) :
  consistent m -> consistent (settleTask formatErrorMessage t outcome now m).
Proof.
  intros Hc. unfold settleTask. apply taskFinally_consistent.
  destruct outcome; [done|]. by apply taskCatch_consistent.
Qed.


(** *** [startProvider] keeps the snapshot consistent *)

Lemma startAccountEnter_spec (plugin : ProviderPlugin) (cfg : Config Err)
  p id now (m : ManagerState) :
  has_isConfigured plugin = true ->
  let out := startAccountEnter plugin cfg p id now m in
  (forall q, tasks (getStore q out.1) = tasks (getStore q m))
  /\ (consistent m -> consistent out.1)
  /\ (out.2 = StartAwaitsConfigured -> tasks (getStore p m) !! id = None).
Proof.
  intros Hc. unfold startAccountEnter. rewrite Hc.
  destruct (tasks (getStore p m) !! id) as [t|] eqn:Ht.
  - rewrite bool_decide_eq_true_2 by eauto. simpl. done.
  - rewrite bool_decide_eq_false_2 by (by intros [? ?]).
    destruct (accountEnabled cfg p (resolveAccount cfg p id)); simpl.
    + done.
    + split; [intros q; apply tasks_setRuntime|]. split; [|done].
      intros Hm. by apply setRuntime_consistent.
Qed.

Lemma startEnterAll_spec (plugin : ProviderPlugin) (cfg : Config Err)
  p now ids (m : ManagerState) :
  has_isConfigured plugin = true ->
  let out := startEnterAll plugin cfg p now ids m in
  (forall q, tasks (getStore q out.1) = tasks (getStore q m))
  /\ (consistent m -> consistent out.1)
  /\ (forall id, id ∈ out.2 -> tasks (getStore p m) !! id = None).
Proof.
  intros Hc. revert m. induction ids as [|id ids IH]; intros m.
  - simpl. split; [done|]. split; [done|]. intros id H. by apply elem_of_nil in H.
  - cbn [startEnterAll].
    destruct (startAccountEnter_spec plugin cfg p id now m Hc) as (H1 & H2 & H3).
    destruct (startAccountEnter plugin cfg p id now m) as [m1 phase].
    specialize (IH m1). destruct IH as (I1 & I2 & I3).
    destruct (startEnterAll plugin cfg p now ids m1) as [m2 susp].
    cbn [fst snd] in *. split; [|split].
    + intros q. by rewrite I1, H1.
    + auto.
    + intros i Hi. destruct phase.
      * rewrite <- H1. by apply I3.
      * apply elem_of_cons in Hi as [->|Hi]; [by apply H3|].
        rewrite <- H1. by apply I3.
Qed.

Lemma startAccountResume_consistent (cfg : Config Err) p id now
  (m : ManagerState) :
  consistent m ->
  (isConfigured cfg p id = Resolved false -> tasks (getStore p m) !! id = None) ->
  consistent (startAccountResume p id (isConfigured cfg p id) now m).1.
Proof.
  intros Hm Hn. unfold startAccountResume.
  destruct (isConfigured cfg p id) as [[|]|e]; simpl.
  - by apply launchAccount_consistent.
  - apply setRuntime_consistent; auto.
  - done.
Qed.

Lemma startAccountResume_tasks (cfg : Config Err) p id now
  (m : ManagerState) q i :
  (q, i) <> (p, id) ->
  tasks (getStore q (startAccountResume p id (isConfigured cfg p id) now m).1) !! i
  = tasks (getStore q m) !! i.
Proof.
  intros Hne. unfold startAccountResume.
  destruct (isConfigured cfg p id) as [[|]|e]; simpl.
  - rewrite tasks_launchAccount. case_decide; [subst|done].
    rewrite lookup_insert_ne; [done|]. congruence.
  - by rewrite tasks_setRuntime.
  - done.
Qed.

Lemma startAccountResume_unconfigured (cfg : Config Err) p id now
  (m : ManagerState) i :
  isConfigured cfg p i = Resolved false ->
  tasks (getStore p m) !! i = None ->
  tasks (getStore p (startAccountResume p id (isConfigured cfg p id) now m).1)
    !! i = None.
Proof.
  intros Hf Hn. destruct (decide (i = id)) as [->|Hne].
  - rewrite Hf. simpl. by rewrite tasks_setRuntime.
  - rewrite startAccountResume_tasks; [done|congruence].
Qed.

Lemma startResumeAll_consistent (cfg : Config Err) p now susp
  (m : ManagerState) :
  consistent m ->
  (forall id, id ∈ susp -> isConfigured cfg p id = Resolved false ->
              tasks (getStore p m) !! id = None) ->
  consistent (startResumeAll cfg p now susp m).1.
Proof.
  revert m. induction susp as [|id susp IH]; intros m Hm Hn; [done|].
  cbn [startResumeAll].
  pose proof (startAccountResume_consistent cfg p id now m Hm) as H1.
  pose proof (startAccountResume_unconfigured cfg p id now m) as H2.
  destruct (startAccountResume p id (isConfigured cfg p id) now m) as [m1 r].
  specialize (IH m1).
  destruct (startResumeAll cfg p now susp m1) as [m2 rs]. cbn [fst] in *.
  apply IH.
  - apply H1. intros Hf. apply Hn; [left|done].
  - intros i Hi Hf. apply H2; [done|]. apply Hn; [by right|done].
Qed.

Lemma startProvider_consistent (cfg : Config Err) p a now (m : ManagerState) :
  consistent m -> consistent (startProvider cfg p a now m).1.
Proof.
  intros Hm. destruct (plugin_found p) as (pl & Hpl & _ & Hs & Hc & _).
  unfold startProvider. rewrite Hpl, Hs. cbn [negb].
  set (ids := match truthy a with
              | Some a0 => [a0]
              | None => listAccountIds cfg p
              end).
  destruct ids as [|i0 ids0] eqn:Hids; [done|]. rewrite <- Hids. clear Hids.
  destruct (startEnterAll_spec pl cfg p now ids m Hc) as (E1 & E2 & E3).
  destruct (startEnterAll pl cfg p now ids m) as [m1 susp]. cbn [fst snd] in *.
  apply startResumeAll_consistent; [auto|].
  intros id Hid _. rewrite E1. by apply E3.
Qed.

(** *** [stopProvider] keeps the snapshot consistent *)

Lemma stopEnterAll_store (plugin : option ProviderPlugin) p ids
  (m : ManagerState) :
  forall q, getStore q (stopEnterAll plugin p ids m).1 = getStore q m.
Proof.
  revert m. induction ids as [|id ids IH]; intros m q; [done|].
  cbn [stopEnterAll].
  assert (H1 : getStore q (stopAccountEnter plugin p id m).1 = getStore q m).
  { unfold stopAccountEnter.
    destruct (_ && _ && _); [done|].
    destruct (aborts (getStore p m) !! id), (hasStopAccount plugin); done. }
  destruct (stopAccountEnter plugin p id m) as [m1 phase].
  specialize (IH m1 q). destruct (stopEnterAll plugin p ids m1) as [m2 susp].
  cbn [fst] in *. by rewrite IH.
Qed.

Lemma stopAccountResume_consistent (plugin : option ProviderPlugin)
  (env : @StopEnv Err) p id task now (m : ManagerState) :
  consistent m ->
  consistent (stopAccountResume formatErrorMessage plugin env p id task now m).1.
Proof.
  intros Hm. unfold stopAccountResume.
  destruct (if hasStopAccount plugin then _ else _); [|done].
  destruct task as [t|]; [|by apply stopAccountFinish_consistent].
  destruct (live m !! t); [|by apply stopAccountFinish_consistent].
  destruct (taskEnds env t); [|done].
  by apply stopAccountFinish_consistent, settleTask_consistent.
Qed.

Lemma stopResumeAll_consistent (plugin : option ProviderPlugin)
  (env : @StopEnv Err) p now susp (m : ManagerState) :
  consistent m ->
  consistent (stopResumeAll formatErrorMessage plugin env p now susp m).1.
Proof.
  revert m. induction susp as [|[id task] susp IH]; intros m Hm; [done|].
  cbn [stopResumeAll].
  pose proof (stopAccountResume_consistent plugin env p id task now m Hm) as H1.
  destruct (stopAccountResume formatErrorMessage plugin env p id task now m)
    as [m1 r].
  specialize (IH m1 H1).
  by destruct (stopResumeAll formatErrorMessage plugin env p now susp m1).
Qed.

Lemma stopProvider_consistent (cfg : Config Err) (env : @StopEnv Err) p a now
  (m : ManagerState) :
  consistent m ->
  consistent (stopProvider formatErrorMessage cfg env p a now m).1.
Proof.
  intros Hm. unfold stopProvider.
  pose proof (stopEnterAll_store (getProviderPlugin p) p
                (knownIds (getProviderPlugin p) cfg p a m) m) as Hs.
  destruct (stopEnterAll (getProviderPlugin p) p
              (knownIds (getProviderPlugin p) cfg p a m) m) as [m1 susp].
  cbn [fst] in Hs. apply stopResumeAll_consistent.
  by apply (consistent_same_store m).
Qed.

Lemma markWhatsAppLoggedOut_consistent (cfg : Config Err) cleared a
  (m : ManagerState) :
  tasks (getStore whatsapp m) !! markTarget cfg a = None ->
  consistent m -> consistent (markWhatsAppLoggedOut cfg cleared a m).
Proof.
  intros Hg Hm. unfold markWhatsAppLoggedOut.
  by apply setRuntime_consistent.
Qed.

Lemma runOp_consistent (op : @Op Err) (m : ManagerState) :
  guarded op m -> consistent m ->
  consistent (runOp formatErrorMessage DEFAULT_ACCOUNT_ID orderKey op m).
Proof.
  intros Hg Hm. destruct op; cbn [runOp].
  - by apply startProvider_consistent.
  - by apply stopProvider_consistent.
  - by apply settleTask_consistent.
  - by apply markWhatsAppLoggedOut_consistent.
  - done.
Qed.


(** *** The history only grows, and a provider's operations stay in its
    own store *)

#[local] Instance grows_preorder : PreOrder grows.
Proof.
  split.
  - intros m. unfold grows. done.
  - intros m1 m2 m3. unfold grows. intros H1 H2. by etrans.
Qed.

Lemma grows_elem (e : Effect) (m m' : ManagerState) :
  grows m m' -> e ∈ effects m -> e ∈ effects m'.
Proof. intros [k ->] H. apply elem_of_app. by left. Qed.

Lemma grows_setRuntime p id patch (m : ManagerState) :
  grows m (setRuntime p id patch m).
Proof. by exists [SetRuntime p id patch]. Qed.

Lemma grows_launchAccount p id now (m : ManagerState) :
  grows m (launchAccount p id now m).
Proof. unfold grows. rewrite effects_launchAccount. by eexists. Qed.

Lemma getStore_setRuntime_ne p id patch q (m : ManagerState) :
  p <> q -> getStore q (setRuntime p id patch m) = getStore q m.
Proof.
  intros Hne. unfold setRuntime. rewrite getStore_emit, getStore_putStore.
  by rewrite decide_False.
Qed.

Lemma getStore_launchAccount_ne p id now q (m : ManagerState) :
  p <> q -> getStore q (launchAccount p id now m) = getStore q m.
Proof.
  intros Hne. rewrite launchAccount_steps. unfold setTask.
  rewrite getStore_putStore, decide_False by done.
  rewrite getStore_addLive, getStore_emit, getStore_fresh,
    getStore_setRuntime_ne by done.
  unfold setAbort. by rewrite getStore_putStore, decide_False.
Qed.

Lemma startAccountEnter_frame (plugin : ProviderPlugin) (cfg : Config Err)
  p id now (m : ManagerState) :
  let out := startAccountEnter plugin cfg p id now m in
  grows m out.1 /\ forall q, p <> q -> getStore q out.1 = getStore q m.
Proof.
  unfold startAccountEnter.
  destruct (bool_decide _); [done|].
  destruct (negb _); simpl.
  - split; [apply grows_setRuntime|]. intros q Hq.
    by apply getStore_setRuntime_ne.
  - destruct (has_isConfigured plugin); simpl; [done|].
    split; [apply grows_launchAccount|]. intros q Hq.
    by apply getStore_launchAccount_ne.
Qed.

Lemma startAccountResume_frame p id (c : Settled Err bool) now
  (m : ManagerState) :
  let out := startAccountResume p id c now m in
  grows m out.1 /\ forall q, p <> q -> getStore q out.1 = getStore q m.
Proof.
  unfold startAccountResume. destruct c as [[|]|e]; simpl.
  - split; [apply grows_launchAccount|]. intros q Hq.
    by apply getStore_launchAccount_ne.
  - split; [apply grows_setRuntime|]. intros q Hq.
    by apply getStore_setRuntime_ne.
  - done.
Qed.

Lemma startEnterAll_frame (plugin : ProviderPlugin) (cfg : Config Err)
  p now ids (m : ManagerState) :
  let out := startEnterAll plugin cfg p now ids m in
  grows m out.1 /\ forall q, p <> q -> getStore q out.1 = getStore q m.
Proof.
  revert m. induction ids as [|id ids IH]; intros m; [done|].
  cbn [startEnterAll].
  destruct (startAccountEnter_frame plugin cfg p id now m) as [G1 F1].
  destruct (startAccountEnter plugin cfg p id now m) as [m1 phase].
  destruct (IH m1) as [G2 F2].
  destruct (startEnterAll plugin cfg p now ids m1) as [m2 susp].
  cbn [fst] in *. split; [by etrans|].
  intros q Hq. by rewrite F2, F1.
Qed.

Lemma startResumeAll_frame (cfg : Config Err) p now susp (m : ManagerState) :
  let out := startResumeAll cfg p now susp m in
  grows m out.1 /\ forall q, p <> q -> getStore q out.1 = getStore q m.
Proof.
  revert m. induction susp as [|id susp IH]; intros m; [done|].
  cbn [startResumeAll].
  destruct (startAccountResume_frame p id (isConfigured cfg p id) now m)
    as [G1 F1].
  destruct (startAccountResume p id (isConfigured cfg p id) now m) as [m1 r].
  destruct (IH m1) as [G2 F2].
  destruct (startResumeAll cfg p now susp m1) as [m2 rs].
  cbn [fst] in *. split; [by etrans|].
  intros q Hq. by rewrite F2, F1.
Qed.

Lemma startProvider_frame (cfg : Config Err) p a now (m : ManagerState) :
  let out := startProvider cfg p a now m in
  grows m out.1 /\ forall q, p <> q -> getStore q out.1 = getStore q m.
Proof.
  unfold startProvider. destruct (getProviderPlugin p) as [pl|]; [|done].
  destruct (negb (has_startAccount pl)); [done|].
  set (ids := match truthy a with
              | Some a0 => [a0]
              | None => listAccountIds cfg p
              end).
  destruct ids as [|i0 ids0] eqn:Hids; [done|]. rewrite <- Hids. clear Hids.
  destruct (startEnterAll_frame pl cfg p now ids m) as [G1 F1].
  destruct (startEnterAll pl cfg p now ids m) as [m1 susp].
  destruct (startResumeAll_frame cfg p now susp m1) as [G2 F2].
  cbn [fst] in *. split; [by etrans|].
  intros q Hq. by rewrite F2, F1.
Qed.

(** Settlements never register a task, and only add to the history. *)
Lemma settleTask_shrinks t outcome now (m : ManagerState) :
  let m' := settleTask formatErrorMessage t outcome now m in
  grows m m'
  /\ forall q i, tasks (getStore q m) !! i = None ->
                 tasks (getStore q m') !! i = None.
Proof.
  cbv zeta. unfold settleTask.
  set (m0 := match outcome with
             | Resolved _ => m
             | Rejected e => taskCatch formatErrorMessage t e m
             end).
  assert (H0 : grows m m0 /\ (forall q, tasks (getStore q m0) = tasks (getStore q m))
               /\ live m0 = live m).
  { subst m0. destruct outcome as [[]|e]; [done|].
    unfold taskCatch. destruct (live m !! t) as [[p id]|]; [|done].
    split; [|split; [|done]].
    - unfold grows. simpl. apply prefix_app_r. by eexists.
    - intros q. rewrite getStore_emit. apply tasks_setRuntime. }
  destruct H0 as (G0 & T0 & L0).
  unfold taskFinally. destruct (live m0 !! t) as [[p id]|].
  - split.
    + etrans; [exact G0|]. unfold grows. simpl. by eexists.
    + intros q i Hn.
      rewrite getStore_dropLive, tasks_setRuntime, tasks_deleteTask,
        tasks_deleteAbort, T0. case_decide; [|done].
      destruct (decide (id = i)) as [->|Hne];
        [apply lookup_delete_eq | by rewrite lookup_delete_ne].
  - split; [done|]. intros q i. by rewrite T0.
Qed.

Lemma settleAll_shrinks now events (m : ManagerState) :
  let m' := settleAll formatErrorMessage now events m in
  grows m m'
  /\ forall q i, tasks (getStore q m) !! i = None ->
                 tasks (getStore q m') !! i = None.
Proof.
  cbv zeta. revert m. induction events as [|[t o] events IH]; intros m; [done|].
  cbn [settleAll foldl fst snd].
  destruct (settleTask_shrinks t o now m) as [G1 T1].
  destruct (IH (settleTask formatErrorMessage t o now m)) as [G2 T2].
  split; [by etrans|]. intros q i Hn. apply T2, T1, Hn.
Qed.


(** *** Which accounts a [startProvider] call starts *)

Lemma startEnterAll_suspends (plugin : ProviderPlugin) (cfg : Config Err)
  p now ids (m : ManagerState) id :
  has_isConfigured plugin = true ->
  id ∈ ids ->
  tasks (getStore p m) !! id = None ->
  accountEnabled cfg p (resolveAccount cfg p id) = true ->
  id ∈ (startEnterAll plugin cfg p now ids m).2.
Proof.
  intros Hc Hin Ht He. revert m Ht.
  induction ids as [|i ids IH]; intros m Ht; [by apply elem_of_nil in Hin|].
  cbn [startEnterAll].
  destruct (startAccountEnter_spec plugin cfg p i now m Hc) as (H1 & _ & _).
  assert (Hphase : i = id ->
            (startAccountEnter plugin cfg p i now m).2 = StartAwaitsConfigured).
  { intros ->. unfold startAccountEnter.
    rewrite bool_decide_eq_false_2 by (rewrite Ht; by intros [? ?]).
    by rewrite He, Hc. }
  destruct (startAccountEnter plugin cfg p i now m) as [m1 phase].
  cbn [fst snd] in *.
  destruct (decide (i = id)) as [Heq|Hne].
  - rewrite (Hphase Heq). subst i.
    destruct (startEnterAll plugin cfg p now ids m1). left.
  - apply elem_of_cons in Hin as [->|Hin]; [done|].
    specialize (IH Hin m1). rewrite H1 in IH. specialize (IH Ht).
    destruct (startEnterAll plugin cfg p now ids m1) as [m2 susp].
    cbn [snd] in *. destruct phase; [done|by right].
Qed.

Lemma startResumeAll_launches (cfg : Config Err) p now susp
  (m : ManagerState) id :
  id ∈ susp ->
  isConfigured cfg p id = Resolved true ->
  exists ab t,
    CallStartAccount p id ab t ∈ effects (startResumeAll cfg p now susp m).1.
Proof.
  intros Hin Hc. revert m.
  induction susp as [|i susp IH]; intros m; [by apply elem_of_nil in Hin|].
  cbn [startResumeAll].
  destruct (decide (i = id)) as [->|Hne].
  - rewrite Hc. cbn [startAccountResume].
    destruct (startResumeAll_frame cfg p now susp (launchAccount p id now m))
      as [G _].
    destruct (startResumeAll cfg p now susp (launchAccount p id now m))
      as [m2 rs]. cbn [fst] in *.
    exists (nextHandle m), (S (nextHandle m)).
    apply (grows_elem _ _ _ G). rewrite effects_launchAccount.
    apply elem_of_app. right. apply elem_of_cons. right. left.
  - apply elem_of_cons in Hin as [->|Hin]; [done|].
    destruct (startAccountResume p i (isConfigured cfg p i) now m) as [m1 r].
    specialize (IH Hin m1).
    by destruct (startResumeAll cfg p now susp m1).
Qed.

Lemma startResumeAll_returns (cfg : Config Err) p now susp (m : ManagerState) :
  (forall id, exists b, isConfigured cfg p id = Resolved b) ->
  (startResumeAll cfg p now susp m).2 = Returns.
Proof.
  intros Hc. revert m. induction susp as [|i susp IH]; intros m; [done|].
  cbn [startResumeAll]. destruct (Hc i) as [b ->].
  assert (Hr : (startAccountResume (Err := Err) p i (Resolved b) now m).2
               = Returns) by (by destruct b).
  destruct (startAccountResume (Err := Err) p i (Resolved b) now m) as [m1 r].
  specialize (IH m1).
  destruct (startResumeAll cfg p now susp m1) as [m2 rs].
  cbn [snd] in *. by subst.
Qed.

Lemma startProvider_returns (cfg : Config Err) p a now (m : ManagerState) :
  (forall id, exists b, isConfigured cfg p id = Resolved b) ->
  (startProvider cfg p a now m).2 = Returns.
Proof.
  intros Hc. unfold startProvider.
  destruct (getProviderPlugin p) as [pl|]; [|done].
  destruct (negb (has_startAccount pl)); [done|].
  destruct (match truthy a with
            | Some a0 => [a0]
            | None => listAccountIds cfg p
            end) as [|i0 ids0] eqn:Hids; [done|].
  destruct (startEnterAll pl cfg p now (i0 :: ids0) m) as [m1 susp].
  by apply startResumeAll_returns.
Qed.

Lemma startProvider_all_launches (cfg : Config Err) p now (m : ManagerState)
  id :
  id ∈ listAccountIds cfg p ->
  tasks (getStore p m) !! id = None ->
  accountEnabled cfg p (resolveAccount cfg p id) = true ->
  isConfigured cfg p id = Resolved true ->
  exists ab t,
    CallStartAccount p id ab t ∈ effects (startProvider cfg p None now m).1.
Proof.
  intros Hin Ht He Hc. destruct (plugin_found p) as (pl & Hpl & _ & Hs & Hcf & _).
  unfold startProvider. rewrite Hpl, Hs. cbn [negb truthy].
  destruct (listAccountIds cfg p) as [|i0 ids0] eqn:Hids;
    [by apply elem_of_nil in Hin|].
  pose proof (startEnterAll_suspends pl cfg p now (i0 :: ids0) m id Hcf Hin Ht He)
    as Hsusp.
  destruct (startEnterAll pl cfg p now (i0 :: ids0) m) as [m1 susp].
  by apply startResumeAll_launches.
Qed.

(** *** [listProviderPlugins] lists every plugin *)

Lemma insert_sorted_perm (x : ProviderPlugin) (l : list ProviderPlugin) :
  insert_sorted orderKey x l ≡ₚ x :: l.
Proof.
  induction l as [|y l IH]; simpl; [done|].
  destruct (plugin_leb orderKey x y); [done|].
  rewrite IH. apply Permutation_swap.
Qed.

Lemma listProviderPlugins_perm : listProviderPlugins orderKey ≡ₚ PROVIDERS.
Proof.
  unfold listProviderPlugins.
  induction PROVIDERS as [|x l IH]; simpl; [done|].
  by rewrite insert_sorted_perm, IH.
Qed.

Lemma every_provider_listed (p : ProviderId) :
  p ∈ plugin_id <$> listProviderPlugins orderKey.
Proof.
  rewrite listProviderPlugins_perm.
  destruct p; set_solver.
Qed.

(** *** The boot loop *)

Lemma startProvidersLoop_spec (cfg : Config Err) now
  (between : ProviderId -> list (nat * Settled Err unit))
  (plugins : list ProviderPlugin) (m : ManagerState) :
  (forall p id, exists b, isConfigured cfg p id = Resolved b) ->
  let out := startProvidersLoop formatErrorMessage cfg now between plugins m in
  out.2 = Returns
  /\ grows m out.1
  /\ forall p id,
       p ∈ plugin_id <$> plugins ->
       id ∈ listAccountIds cfg p ->
       tasks (getStore p m) !! id = None ->
       accountEnabled cfg p (resolveAccount cfg p id) = true ->
       isConfigured cfg p id = Resolved true ->
       exists ab t, CallStartAccount p id ab t ∈ effects out.1.
Proof.
  intros Hc. cbv zeta. revert m.
  induction plugins as [|pl plugins IH]; intros m.
  - simpl. split; [done|]. split; [done|].
    intros p id Hp. by apply elem_of_nil in Hp.
  - cbn [startProvidersLoop].
    pose proof (startProvider_returns cfg (plugin_id pl) None now m
                  (Hc (plugin_id pl))) as Hr.
    destruct (startProvider_frame cfg (plugin_id pl) None now m) as [G1 F1].
    pose proof (startProvider_all_launches cfg (plugin_id pl) now m) as L1.
    destruct (startProvider cfg (plugin_id pl) None now m) as [m1 r].
    cbn [fst snd] in *. subst r.
    destruct (settleAll_shrinks now (between (plugin_id pl)) m1) as [G2 T2].
    specialize (IH (settleAll formatErrorMessage now
                      (between (plugin_id pl)) m1)).
    destruct IH as (R & G3 & L3).
    split; [exact R|]. split; [by etrans; [|etrans]|].
    intros p id Hp Hid Ht He Hcf.
    destruct (decide (plugin_id pl = p)) as [Heq|Hne].
    + subst p. destruct (L1 id Hid Ht He Hcf) as (ab & t & Hin).
      exists ab, t. apply (grows_elem _ _ _ G3), (grows_elem _ _ _ G2), Hin.
    + rewrite fmap_cons in Hp. apply elem_of_cons in Hp as [->|Hp]; [done|].
      apply L3; try done. apply T2. by rewrite F1.
Qed.


Lemma getRuntime_settleTask_rejected t e now p a (m : ManagerState) :
  live m !! t = Some (p, a) ->
  getRuntime p a (settleTask formatErrorMessage t (Rejected e) now m)
  = spread (spread (getRuntime p a m)
              (with_lastError (Some (Some (formatErrorMessage e))) (patch0 a)) a)
      (stoppedPatch a now) a.
Proof.
  intros Hl. unfold settleTask.
  assert (Hl1 : live (taskCatch formatErrorMessage t e m) !! t = Some (p, a)).
  { by rewrite (taskCatch_live t e p a m Hl). }
  rewrite (taskFinally_live t now p a _ Hl1).
  rewrite (getRuntime_store p a
             (stopAccountFinish p a now (taskCatch formatErrorMessage t e m)))
    by reflexivity.
  rewrite getRuntime_stopAccountFinish.
  destruct (decide (p = p /\ a = a)) as [_|[]]; [|done].
  rewrite (taskCatch_live t e p a m Hl).
  rewrite (getRuntime_store p a
             (setRuntime p a
                (with_lastError (Some (Some (formatErrorMessage e)))
                   (patch0 a)) m)) by reflexivity.
  rewrite getRuntime_setRuntime.
  by destruct (decide (p = p /\ a = a)) as [_|[]].
Qed.


End ManagerProps.

Section ManagerWitnesses.
Import Providers Manager Examples.

Lemma startProvider_idempotent_witness :
  let first := startProvider oneAccount telegram (Some "main") 10 initialState in
  let second := startProvider mixedAccounts telegram (Some "main") 20 first.1 in
  second.1 = first.1
  /\ countEffects (isStartCall telegram "main") second.1 = 1%nat
  /\ lastStartAt (getRuntime telegram "main" second.1) = Some (Some 10).
Proof.
  destruct (startProvider_idempotent oneAccount mixedAccounts telegram "main"
              10 20 initialState) as (_ & _ & H1 & _ & H2 & _ & H3);
    [discriminate | vm_compute; reflexivity | vm_compute; reflexivity
     | vm_compute; reflexivity |].
  split; [exact H1|]. split; [exact H2 | exact H3].
Defined.

(** C1 as stated fails for two calls that overlap: the second call is
    made while the first is suspended in [isConfigured], so neither finds
    a registered task.  Both return normally, [startAccount] is invoked
    twice and [lastStartAt] is written twice; two connection tasks of the
    account are live, and the task table holds the second. *)
Lemma overlapping_starts_start_twice :
  let check := isConfigured oneAccount telegram "main" in
  let entered1 :=
    startAccountEnter telegramPlugin oneAccount telegram "main" 10
      initialState in
  let entered2 :=
    startAccountEnter telegramPlugin oneAccount telegram "main" 20
      entered1.1 in
  let resumed1 := startAccountResume telegram "main" check 10 entered2.1 in
  let resumed2 := startAccountResume telegram "main" check 20 resumed1.1 in
  getProviderPlugin telegram = Some telegramPlugin
  /\ entered1.2 = StartAwaitsConfigured
  /\ entered2.2 = StartAwaitsConfigured
  /\ resumed1.2 = Returns
  /\ resumed2.2 = Returns
  /\ countEffects (isStartCall telegram "main") resumed2.1 = 2%nat
  /\ countEffects (isStartStamp telegram "main") resumed2.1 = 2%nat
  /\ live resumed2.1 !! 1%nat = Some (telegram, "main")
  /\ live resumed2.1 !! 3%nat = Some (telegram, "main")
  /\ tasks (getStore telegram resumed2.1) !! "main" = Some 3%nat.
Proof. cbv zeta. repeat split; vm_compute; reflexivity. Defined.

Lemma stopProvider_after_start_witness :
  let started :=
    (startProvider oneAccount signal (Some "main") 10 initialState).1 in
  let out :=
    stopProvider sameMessage oneAccount crashingTasks signal (Some "main") 30
      started in
  out.2 = Returns /\ stoppedAt signal "main" 30 out.1.
Proof.
  destruct (stopProvider_after_start sameMessage oneAccount crashingTasks
              signal "main" 30
              (startProvider oneAccount signal (Some "main") 10 initialState).1
              1%nat) as (_ & H1 & H2);
    [discriminate | vm_compute; reflexivity |].
  assert (Hr : (stopProvider sameMessage oneAccount crashingTasks signal
                  (Some "main") 30
                  (startProvider oneAccount signal (Some "main") 10
                     initialState).1).2 = Returns).
  { apply H1. right. simpl. eauto. }
  split; [exact Hr|]. apply (H2 Hr).
Defined.





End ManagerWitnesses.

(** * Further properties

    Properties of the code around the statements above: the remaining
    code of the files they concern, its callers and the functions it
    calls. *)

(** ** Destinations *)

Section TrimProps.
Import Providers Targets.

(** [trim] applied twice is [trim]: what it returns starts and ends with a
    code unit that is not white space. *)
Lemma trimStart_idemp (s : JsString) : trimStart (trimStart s) = trimStart s.
Proof.
  induction s as [|c s IH]; simpl; [done|].
  destruct (isWhiteSpace c) eqn:Hc; [exact IH|]. simpl. by rewrite Hc.
Qed.

Lemma trimStart_snoc (l : JsString) (c : N) :
  isWhiteSpace c = false -> trimStart (l ++ [c])%list = (trimStart l ++ [c])%list.
Proof.
  intros Hc. induction l as [|d l IH]; simpl.
  - by rewrite Hc.
  - destruct (isWhiteSpace d); [exact IH | done].
Qed.

Lemma trimEnd_idemp (s : JsString) : trimEnd (trimEnd s) = trimEnd s.
Proof. unfold trimEnd. by rewrite rev_involutive, trimStart_idemp. Qed.

Lemma trimEnd_keeps_head (c : N) (t : JsString) :
  isWhiteSpace c = false -> exists t', trimEnd (c :: t) = c :: t'.
Proof.
  intros Hc. unfold trimEnd. simpl. rewrite (trimStart_snoc _ _ Hc).
  rewrite rev_app_distr. simpl. eauto.
Qed.

Lemma trim_head (s : JsString) c t : trim s = c :: t -> isWhiteSpace c = false.
Proof.
  unfold trim. destruct (trimStart s) as [|d u] eqn:Hs; [done|].
  pose proof (trimStart_head s d u Hs) as Hd.
  destruct (trimEnd_keeps_head d u Hd) as [t' ->]. by intros [= <- _].
Qed.

Lemma trim_idemp (s : JsString) : trim (trim s) = trim s.
Proof.
  destruct (trim s) as [|c t] eqn:Ht; [done|].
  pose proof (trim_head s c t Ht) as Hc.
  unfold trim at 1. simpl. rewrite Hc.
  rewrite <- Ht. unfold trim. apply trimEnd_idemp.
Qed.

Lemma trim_last (s : JsString) c : last (trim s) = Some c -> isWhiteSpace c = false.
Proof.
  unfold trim, trimEnd.
  destruct (trimStart (rev (trimStart s))) as [|d u] eqn:Hs; [done|].
  simpl. rewrite last_snoc. intros [= <-]. eapply trimStart_head, Hs.
Qed.
End TrimProps.

Section HeartbeatProps.
Import Providers Targets Heartbeat.
Variable normalizeE164 : JsString -> JsString.

Lemma trimmedTruthy_Some to (t : JsString) :
  trimmedTruthy to = Some t -> t <> [] /\ trim t = t /\ exists s, to = Some s /\ t = trim s.
Proof.
  destruct to as [s|]; simpl; [|done].
  destruct (trim s) as [|c u] eqn:Hs; [done|]. intros [= <-].
  split; [done|]. split; [|eauto]. rewrite <- Hs. apply trim_idemp.
Qed.

Lemma trimmedTruthy_trimmed (t : JsString) :
  t <> [] -> trim t = t -> trimmedTruthy (Some t) = Some t.
Proof. intros Hne Ht. simpl. rewrite Ht. by destruct t. Qed.

Lemma plugin_resolves_trimmed (p : ProviderId) (t : JsString) allowFrom :
  p <> whatsapp -> t <> [] -> trim t = t ->
  resolveOutboundTarget normalizeE164 (Chat p) (Some t) allowFrom = TargetOk t.
Proof.
  intros Hp Hne Ht. rewrite every_plugin_resolves. unfold pluginResolveTarget.
  rewrite (trimmedTruthy_trimmed t Hne Ht). by destruct p.
Qed.

Lemma whatsapp_resolves_trimmed (t : JsString) allowFrom :
  t <> [] -> trim t = t ->
  resolveOutboundTarget normalizeE164 (Chat whatsapp) (Some t) allowFrom
  = TargetOk (normalizeE164 t).
Proof.
  intros Hne Ht. rewrite every_plugin_resolves. unfold pluginResolveTarget.
  by rewrite (trimmedTruthy_trimmed t Hne Ht).
Qed.

(** The destination that [resolveOutboundTarget] accepts for a provider
    other than WhatsApp is in canonical form: it is not empty, it neither
    starts nor ends with white space, and resolving it again returns it
    unchanged, whatever fallback list is given. *)
Theorem resolved_target_is_canonical (p : ProviderId) (to : option JsString)
  (allowFrom : option (list JsString)) (t : JsString) :
  p <> whatsapp ->
  resolveOutboundTarget normalizeE164 (Chat p) to allowFrom = TargetOk t ->
  t <> []
  /\ (forall c, head t = Some c -> isWhiteSpace c = false)
  /\ (forall c, last t = Some c -> isWhiteSpace c = false)
  /\ forall allowFrom',
       resolveOutboundTarget normalizeE164 (Chat p) (Some t) allowFrom'
       = TargetOk t.
Proof.
  intros Hp. rewrite every_plugin_resolves. unfold pluginResolveTarget.
  assert (Hr : match trimmedTruthy to with
               | Some trimmed => TargetOk trimmed
               | None => TargetError (missingTargetMessage p)
               end = TargetOk t ->
               trimmedTruthy to = Some t).
  { destruct (trimmedTruthy to); [by intros [= ->] | done]. }
  intros H. assert (Ht : trimmedTruthy to = Some t) by (destruct p; auto; done).
  clear H Hr. destruct (trimmedTruthy_Some to t Ht) as (Hne & Hfix & s & -> & Hs).
  split; [done|]. split; [|split].
  - intros c Hc. destruct t as [|d u]; [done|]. simpl in Hc. injection Hc as ->.
    eapply trim_head. rewrite <- Hs. reflexivity.
  - intros c Hc. eapply trim_last. rewrite <- Hs. exact Hc.
  - intros af. by apply plugin_resolves_trimmed.
Qed.

Lemma nonEmpty_Some (s t : JsString) : nonEmpty s = Some t -> t = s /\ s <> [].
Proof. destruct s; [done|]. by intros [= <-]. Qed.

Lemma lastToOf_trimmed entry : trim (lastToOf entry) = lastToOf entry.
Proof.
  unfold lastToOf. destruct entry as [e|]; [|done].
  destruct (lastTo e); [apply trim_idemp | done].
Qed.

Lemma heartbeatTo_trimmed cfg target entry (t : JsString) :
  heartbeatTo cfg target entry = Some t -> t <> [] /\ trim t = t.
Proof.
  unfold heartbeatTo.
  destruct (trimmedTruthy (heartbeat_to cfg)) as [e|] eqn:He.
  - intros [= <-]. destruct (trimmedTruthy_Some _ _ He) as (? & ? & _). done.
  - assert (Hl : forall u, nonEmpty (lastToOf entry) = Some u -> u <> [] /\ trim u = u).
    { intros u [-> Hu]%nonEmpty_Some. split; [done | apply lastToOf_trimmed]. }
    assert (Hs : forall u,
      match heartbeatProvider target entry with
      | Some p => if bool_decide (lastProviderOf entry = Some p)
                  then nonEmpty (lastToOf entry) else None
      | None => None
      end = Some u -> u <> [] /\ trim u = u).
    { intros u. destruct (heartbeatProvider target entry) as [p|]; [|done].
      case_bool_decide; [apply Hl | done]. }
    destruct (match heartbeatProvider target entry with
              | Some p => if bool_decide (lastProviderOf entry = Some p)
                          then nonEmpty (lastToOf entry) else None
              | None => None
              end) as [u|].
    + intros [= <-]. by apply Hs.
    + destruct target; [done | apply Hl].
Qed.

(** The three ways in which [resolveHeartbeatDeliveryTarget] ends
    without a destination, and what it returns otherwise. *)
Lemma heartbeat_outcome (cfg : HeartbeatConfig)
  (entry : option SessionEntry) :
  let target := heartbeatTargetOf (heartbeat_target cfg) in
  let r := resolveHeartbeatDeliveryTarget normalizeE164 cfg entry in
  (target_provider r = none <->
     target = Fixed none \/ heartbeatProvider target entry = None
     \/ heartbeatTo cfg target entry = None)
  /\ (target_reason r = Some TargetNone <-> target = Fixed none)
  /\ (forall p, target_provider r = To p ->
        heartbeatProvider target entry = Some p /\ is_Some (target_to r)).
Proof.
  intros target r. subst r. unfold resolveHeartbeatDeliveryTarget.
  fold target.
  assert (Hbody : forall p t,
    heartbeatProvider target entry = Some p ->
    heartbeatTo cfg target entry = Some t ->
    let r := if bool_decide (p = whatsapp)
             then whatsappHeartbeatTarget normalizeE164 cfg t
             else match resolveOutboundTarget normalizeE164 (Chat p) (Some t) None with
                  | TargetOk resolved => deliverTo p resolved
                  | TargetError _ => noTarget
                  end in
    target_provider r = To p /\ is_Some (target_to r)
    /\ target_reason r <> Some TargetNone).
  { intros p t Hp Ht. destruct (heartbeatTo_trimmed _ _ _ _ Ht) as [Hne Hfix].
    cbv zeta. case_bool_decide as Hw.
    - subst p. unfold whatsappHeartbeatTarget.
      rewrite (whatsapp_resolves_trimmed t _ Hne Hfix).
      case_bool_decide; [simpl; eauto|].
      destruct (normalizedAllowFrom normalizeE164 _); [simpl; eauto|].
      case_bool_decide; simpl; eauto.
    - rewrite (plugin_resolves_trimmed p t None Hw Hne Hfix). simpl. eauto. }
  destruct target as [[q|]|] eqn:Htarget.
  - destruct (heartbeatProvider (Fixed (To q)) entry) as [p|] eqn:Hp;
      [|split; [split; [auto | done] | split; [split; done | done]]].
    destruct (heartbeatTo cfg (Fixed (To q)) entry) as [t|] eqn:Ht;
      [|split; [split; [auto | done] | split; [split; done | done]]].
    destruct (Hbody p t eq_refl eq_refl) as (H1 & H2 & H3).
    split; [|split].
    + split; [intros H; rewrite H1 in H; done | intros [?|[?|?]]; done].
    + split; [done | done].
    + intros p' Hp'. rewrite H1 in Hp'. injection Hp' as <-. done.
  - simpl. split; [split; auto|]. split; [split; auto | done].
  - destruct (heartbeatProvider Last entry) as [p|] eqn:Hp;
      [|split; [split; [auto | done] | split; [split; done | done]]].
    destruct (heartbeatTo cfg Last entry) as [t|] eqn:Ht;
      [|split; [split; [auto | done] | split; [split; done | done]]].
    destruct (Hbody p t eq_refl eq_refl) as (H1 & H2 & H3).
    split; [|split].
    + split; [intros H; rewrite H1 in H; done | intros [?|[?|?]]; done].
    + split; [done | done].
    + intros p' Hp'. rewrite H1 in Hp'. injection Hp' as <-. done.
Qed.

(** [resolveHeartbeatDeliveryTarget] returns the provider ["none"]
    exactly when the configured target is ["none"], or no provider could
    be chosen, or no address could be chosen; the reason ["target-none"]
    is given exactly for the configured target ["none"].  In every other
    case the result names the chosen provider and carries an address: the
    two calls of [resolveOutboundTarget] inside the function cannot fail,
    because the address handed to them is trimmed and not empty. *)
Theorem heartbeat_none_iff (cfg : HeartbeatConfig)
  (entry : option SessionEntry) :
  let target := heartbeatTargetOf (heartbeat_target cfg) in
  let r := resolveHeartbeatDeliveryTarget normalizeE164 cfg entry in
  (target_provider r = none <->
     target = Fixed none \/ heartbeatProvider target entry = None
     \/ heartbeatTo cfg target entry = None)
  /\ (target_reason r = Some TargetNone <-> target = Fixed none)
  /\ (forall p, target_provider r = To p ->
        heartbeatProvider target entry = Some p /\ is_Some (target_to r)).
Proof. exact (heartbeat_outcome cfg entry). Qed.

(** A heartbeat for WhatsApp stays inside the allow list: the address
    returned is one of the normalized [whatsapp.allowFrom] entries, unless
    the list holds ["*"] or has no usable entry.  With the reason
    ["allowFrom-fallback"] the address is the first usable entry. *)
Theorem heartbeat_whatsapp_within_allowFrom (cfg : HeartbeatConfig)
  (entry : option SessionEntry) (t : JsString) :
  let r := resolveHeartbeatDeliveryTarget normalizeE164 cfg entry in
  let rawAllow := default [] (whatsapp_allowFrom cfg) in
  target_provider r = To whatsapp ->
  target_to r = Some t ->
  ([42%N] ∈ rawAllow
   \/ normalizedAllowFrom normalizeE164 rawAllow = []
   \/ t ∈ normalizedAllowFrom normalizeE164 rawAllow)
  /\ (target_reason r = Some AllowFromFallback ->
      head (normalizedAllowFrom normalizeE164 rawAllow) = Some t).
Proof.
  intros r rawAllow Hp Ht.
  destruct (heartbeat_outcome cfg entry) as (_ & _ & Hsome).
  destruct (Hsome whatsapp Hp) as [Hprov _]. clear Hsome.
  subst r. unfold resolveHeartbeatDeliveryTarget in *.
  destruct (heartbeatTargetOf (heartbeat_target cfg)) as [[q|]|] eqn:Htarget;
    try done; rewrite Hprov in *;
    (destruct (heartbeatTo cfg _ entry) as [to|]; [|done]);
    rewrite bool_decide_eq_true_2 in * by done;
    unfold whatsappHeartbeatTarget in *; fold rawAllow in Hp, Ht |- *;
    (destruct (resolveOutboundTarget normalizeE164 (Chat whatsapp) (Some to)
               (Some rawAllow)) as [resolved|msg]; [|done]);
    (case_bool_decide as Hstar; [split; [by left | done]|]);
    (destruct (normalizedAllowFrom normalizeE164 rawAllow) as [|first rest]
       eqn:Hallow; [split; [right; by left | done]|]);
    (case_bool_decide as Hin; simpl in *;
     [injection Ht as <-; split; [right; by right | done]
     |injection Ht as <-; split; [right; right; left | done]]).
Qed.


(** With a provider other than WhatsApp configured as target and a
    [heartbeat.to] that is not blank, the heartbeat goes to the trimmed
    [heartbeat.to] on that provider, whatever the session entry holds. *)
Theorem heartbeat_explicit_to (cfg : HeartbeatConfig)
  (entry : option SessionEntry) (p : ProviderId) (s : JsString) :
  heartbeatTargetOf (heartbeat_target cfg) = Fixed (To p) ->
  p <> whatsapp ->
  heartbeat_to cfg = Some s ->
  ~ blank (Some s) ->
  resolveHeartbeatDeliveryTarget normalizeE164 cfg entry
  = deliverTo p (trim s).
Proof.
  intros Htarget Hp Hs Hnb.
  destruct (trimmedTruthy_nonblank (Some s) Hnb) as (t & Ht & Hne).
  destruct (trimmedTruthy_Some _ _ Ht) as (_ & Hfix & s' & [= <-] & ->).
  unfold resolveHeartbeatDeliveryTarget. rewrite Htarget. simpl.
  unfold heartbeatTo. rewrite Hs, Ht.
  rewrite bool_decide_eq_false_2 by done.
  by rewrite (plugin_resolves_trimmed p (trim s) None Hp Hne Hfix).
Qed.

(** WhatsApp destinations: a destination that is not blank is resolved
    without looking at [allowFrom]; for a blank destination only the
    first entry of [allowFrom] is looked at, so a blank first entry gives
    the error even when later entries are usable. *)
Theorem whatsapp_target_fallback (to : option JsString) :
  (~ blank to ->
   forall allowFrom,
     resolveOutboundTarget normalizeE164 (Chat whatsapp) to allowFrom
     = resolveOutboundTarget normalizeE164 (Chat whatsapp) to None)
  /\ (blank to ->
      forall (a : JsString) (rest : list JsString),
        resolveOutboundTarget normalizeE164 (Chat whatsapp) to
          (Some (a :: rest))
        = if forallb isWhiteSpace a
          then TargetError (missingTargetMessage whatsapp)
          else TargetOk (normalizeE164 (trim a))).
Proof.
  split.
  - intros Hn af. rewrite !every_plugin_resolves. unfold pluginResolveTarget.
    destruct (trimmedTruthy_nonblank to Hn) as (t & -> & _). done.
  - intros Hb a rest. rewrite every_plugin_resolves. unfold pluginResolveTarget.
    rewrite (trimmedTruthy_blank to Hb). simpl.
    destruct (forallb isWhiteSpace a) eqn:Ha.
    + by rewrite (trim_blank a Ha).
    + pose proof (trim_nonblank a Ha). by destruct (trim a).
Qed.
End HeartbeatProps.

Section HeartbeatWitnesses.
Import Providers Targets Heartbeat.

Lemma resolved_target_is_canonical_witness :
  resolveOutboundTarget (fun s => s) (Chat telegram) (Some [49; 50]%N) None
  = TargetOk [49; 50]%N.
Proof.
  destruct (resolved_target_is_canonical (fun s => s) telegram
              (Some [32; 49; 50; 32]%N) None [49; 50]%N) as (_ & _ & _ & H);
    [discriminate | reflexivity |].
  apply H.
Defined.

Lemma heartbeat_whatsapp_within_allowFrom_witness :
  let cfg := {| heartbeat_target := Some "whatsapp";
                heartbeat_to := Some [43; 49; 53]%N;
                whatsapp_allowFrom := Some [[43; 49; 54]%N; [43; 49; 55]%N] |} in
  resolveHeartbeatDeliveryTarget (fun s => s) cfg None
  = {| target_provider := To whatsapp; target_to := Some [43; 49; 54]%N;
       target_reason := Some AllowFromFallback |}
  /\ [43; 49; 54]%N ∈ normalizedAllowFrom (fun s => s)
                        [[43; 49; 54]%N; [43; 49; 55]%N].
Proof.
  cbv zeta. split; [reflexivity|].
  destruct (heartbeat_whatsapp_within_allowFrom (fun s => s)
              {| heartbeat_target := Some "whatsapp";
                 heartbeat_to := Some [43; 49; 53]%N;
                 whatsapp_allowFrom :=
                   Some [[43; 49; 54]%N; [43; 49; 55]%N] |}
              None [43; 49; 54]%N) as [[H|[H|H]] _];
    [reflexivity | reflexivity | | | exact H].
  - exfalso. vm_compute in H. by repeat (apply elem_of_cons in H as [H|H]; [done|]); apply elem_of_nil in H.
  - discriminate H.
Defined.


Lemma heartbeat_explicit_to_witness :
  resolveHeartbeatDeliveryTarget (fun s => s)
    {| heartbeat_target := Some "slack"; heartbeat_to := Some [32; 67; 49]%N;
       whatsapp_allowFrom := None |}
    (Some {| lastProvider := Some (Chat slack); lastTo := Some [67; 50]%N |})
  = deliverTo slack [67; 49]%N.
Proof.
  apply (heartbeat_explicit_to (fun s => s)
           {| heartbeat_target := Some "slack";
              heartbeat_to := Some [32; 67; 49]%N;
              whatsapp_allowFrom := None |}
           (Some {| lastProvider := Some (Chat slack);
                    lastTo := Some [67; 50]%N |}) slack [32; 67; 49]%N);
    [reflexivity | discriminate | reflexivity | simpl; discriminate].
Defined.
End HeartbeatWitnesses.

(** ** Delivery runs in general *)

Section DeliveryRuns.
Import Providers Deliver.
Context {Err Res ReplyPayload : Type}.
Variable chunkTextFn : string -> Z -> list string.
Variable chunkMarkdownTextFn : string -> Z -> list string.
Variable resolveTextChunkLimit : ProviderId -> option string -> Z.
Variable normalizeOutboundPayloads :
  list ReplyPayload -> list NormalizedOutboundPayload.
Variable respond : list SendCall -> SendCall -> Settled Err Res.

Local Abbreviation State := (@DeliveryState Err Res).

(** Whatever the provider answers and whatever the callbacks do, a
    delivery only makes sends that its payloads ask for, and makes them
    in order: the sends are a subsequence of the planned sends of all
    normalized payloads, and without [bestEffort] an initial part of
    them.  Every result belongs to a send, at most one send per payload
    is without a result, every [onError] invocation is for one of the
    payloads, in their order, and a list that is returned is the list of
    the results. *)
Theorem sends_follow_plan (opts : @DeliverOptions Err)
  (provider : ProviderId) (accountId : option string)
  (payloads : list ReplyPayload) :
  let h := createProviderHandler chunkTextFn chunkMarkdownTextFn provider in
  let limit := textLimitOf resolveTextChunkLimit h provider accountId in
  let normalized := normalizeOutboundPayloads payloads in
  let plan := concat (map (plannedCalls h limit) normalized) in
  let out :=
    deliverOutboundPayloads chunkTextFn chunkMarkdownTextFn
      resolveTextChunkLimit normalizeOutboundPayloads respond
      opts provider accountId payloads in
  sent out.1 `sublist_of` plan
  /\ (bestEffort opts = false -> sent out.1 `prefix_of` plan)
  /\ (length (results out.1) <= length (sent out.1)
      <= length (results out.1) + length normalized)%nat
  /\ (reported out.1).*2 `sublist_of` normalized
  /\ (forall rs, out.2 = Resolved rs -> rs = results out.1).
Proof.
  intros h limit normalized plan out.
  destruct (deliverLoop_trace respond opts h limit normalized emptyDelivery)
    as (made & rs & reps & H1 & H2 & H3 & H4 & H5 & H6 & H7).
  simpl in H1, H2, H3.
  assert (Hout : out = returned (deliverLoop respond opts h limit normalized
                                   emptyDelivery)).
  { subst out. unfold deliverOutboundPayloads, deliverNormalized, returned.
    fold h. fold limit. fold normalized.
    by destruct (deliverLoop respond opts h limit normalized emptyDelivery)
      as [s [[]|e]]. }
  assert (Hst : out.1 = (deliverLoop respond opts h limit normalized
                           emptyDelivery).1).
  { rewrite Hout. unfold returned.
    by destruct (deliverLoop respond opts h limit normalized emptyDelivery)
      as [s [[]|e]]. }
  rewrite Hst, H1, H2, H3. repeat split; auto; try lia.
  intros rs' Hrs. rewrite Hout in Hrs. unfold returned in Hrs.
  destruct (deliverLoop respond opts h limit normalized emptyDelivery)
    as [s [[]|e]]; simpl in *; congruence.
Qed.

(** A delivery with [bestEffort] runs to its end. *)
Lemma best_effort_outcome (opts : @DeliverOptions Err)
  (provider : ProviderId) (accountId : option string)
  (payloads : list ReplyPayload) :
  bestEffort opts = true ->
  let out :=
    deliverOutboundPayloads chunkTextFn chunkMarkdownTextFn
      resolveTextChunkLimit normalizeOutboundPayloads respond
      opts provider accountId payloads in
  out.2 = Resolved (results out.1)
  /\ (is_Some (onPayload opts) ->
      announced out.1 = normalizeOutboundPayloads payloads).
Proof.
  intros Hb. unfold deliverOutboundPayloads, deliverNormalized.
  generalize (createProviderHandler chunkTextFn chunkMarkdownTextFn provider)
    as h. intros h.
  generalize (textLimitOf resolveTextChunkLimit h provider accountId) as limit.
  intros limit.
  assert (Hloop : forall ps (s : State),
    (deliverLoop respond opts h limit ps s).2 = Resolved tt
    /\ (is_Some (onPayload opts) ->
        announced (deliverLoop respond opts h limit ps s).1
        = (announced s ++ ps)%list)).
  { induction ps as [|payload rest IH]; intros s.
    - simpl. by rewrite app_nil_r.
    - rewrite deliverLoop_cons.
      pose proof (deliverPayload_shape respond opts h limit payload s) as Hp.
      cbv zeta in Hp.
      destruct (deliverPayload respond opts h limit payload s) as [s1 r].
      destruct Hp as (made1 & rs1 & _ & _ & Ha & _).
      simpl in Ha.
      assert (Hann : is_Some (onPayload opts) ->
                     announced s1 = (announced s ++ [payload])%list).
      { intros [f Hf]. rewrite Ha. unfold announce. by rewrite Hf. }
      destruct r as [[]|e].
      + destruct (IH s1) as [H1 H2]. split; [done|].
        intros Hsome. rewrite (H2 Hsome), (Hann Hsome), <- app_assoc. done.
      + rewrite Hb. destruct (IH (reportIf opts e payload s1)) as [H1 H2].
        split; [done|]. intros Hsome.
        destruct (reportIf_frame opts e payload s1) as (_ & _ & E3).
        rewrite (H2 Hsome), E3, (Hann Hsome), <- app_assoc. done. }
  cbv zeta.
  destruct (Hloop (normalizeOutboundPayloads payloads) emptyDelivery)
    as [H1 H2].
  destruct (deliverLoop respond opts h limit
              (normalizeOutboundPayloads payloads) emptyDelivery) as [s r].
  simpl in H1, H2. subst r. simpl. split; [done|]. exact H2.
Qed.

(** With [bestEffort] the call of [deliverOutboundPayloads] always
    returns its [results], never an error, and [onPayload] has been
    invoked for every normalized payload, in order.  (The [onError]
    callback is taken not to throw.) *)
Theorem best_effort_never_rejects (opts : @DeliverOptions Err)
  (provider : ProviderId) (accountId : option string)
  (payloads : list ReplyPayload) :
  bestEffort opts = true ->
  let out :=
    deliverOutboundPayloads chunkTextFn chunkMarkdownTextFn
      resolveTextChunkLimit normalizeOutboundPayloads respond
      opts provider accountId payloads in
  out.2 = Resolved (results out.1)
  /\ (is_Some (onPayload opts) ->
      announced out.1 = normalizeOutboundPayloads payloads).
Proof. exact (best_effort_outcome opts provider accountId payloads). Qed.

(** An exception thrown by the [onPayload] callback counts as the failure
    of that payload: nothing of the payload is sent.  Without
    [bestEffort] the error ends the delivery there and is thrown to the
    caller; with [bestEffort] the error is given to [onError] and the
    delivery goes on with the payloads that follow. *)
Theorem onPayload_failure_skips_payload (opts : @DeliverOptions Err)
  (provider : ProviderId) (accountId : option string)
  (raw : list ReplyPayload) (pre post : list NormalizedOutboundPayload)
  (payload : NormalizedOutboundPayload) (s : State)
  (f : NormalizedOutboundPayload -> option Err) (e : Err) :
  let h := createProviderHandler chunkTextFn chunkMarkdownTextFn provider in
  let limit := textLimitOf resolveTextChunkLimit h provider accountId in
  normalizeOutboundPayloads raw = (pre ++ payload :: post)%list ->
  deliverLoop respond opts h limit pre emptyDelivery = (s, Resolved tt) ->
  onPayload opts = Some f ->
  f payload = Some e ->
  let out :=
    deliverOutboundPayloads chunkTextFn chunkMarkdownTextFn
      resolveTextChunkLimit normalizeOutboundPayloads respond
      opts provider accountId raw in
  if bestEffort opts then
    exists rest reps,
      sent out.1 = (sent s ++ rest)%list
      /\ rest `sublist_of` concat (map (plannedCalls h limit) post)
      /\ reported out.1
         = (reported s ++ (if onError opts then [(e, payload)] else [])
            ++ reps)%list
      /\ reps.*2 `sublist_of` post
      /\ out.2 = Resolved (results out.1)
  else
    sent out.1 = sent s /\ results out.1 = results s
    /\ announced out.1 = (announced s ++ [payload])%list
    /\ out.2 = Rejected e.
Proof.
  intros h limit Hn Hpre Hf He out.
  assert (Hout : out
    = if bestEffort opts
      then returned (deliverLoop respond opts h limit post
                       (reportIf opts e payload (announce opts payload s)))
      else (announce opts payload s, Rejected e)).
  { subst out. unfold deliverOutboundPayloads, deliverNormalized.
    fold h. fold limit.
    rewrite Hn, deliverLoop_app, Hpre, deliverLoop_cons.
    unfold deliverPayload, mbind, Eff_bind, bind, callOnPayload, announce.
    rewrite Hf, He.
    destruct (bestEffort opts); [|done].
    unfold returned.
    by destruct (deliverLoop respond opts h limit post _) as [s2 [[]|e2]]. }
  destruct (bestEffort opts) eqn:Hb.
  - destruct (returned_trace respond opts h limit post
                (reportIf opts e payload (announce opts payload s)))
      as (rest & more & reps & G1 & G2 & G3 & G4 & G5 & _ & G7).
    cbv zeta in *. rewrite <- Hout in *.
    destruct (reportIf_frame opts e payload (announce opts payload s))
      as (F1 & _ & _).
    destruct (sent_announce opts payload s) as (E1 & _ & E3).
    exists rest, reps. rewrite G1, F1, E1. split; [done|]. split; [done|].
    split; [|split; [done | by apply G7]].
    rewrite G3. unfold reportIf, report.
    destruct (onError opts); simpl; rewrite E3, <- ?app_assoc; done.
  - rewrite Hout. unfold announce. rewrite Hf. done.
Qed.
End DeliveryRuns.

Section DeliveryRunsWitnesses.
Import Providers Deliver Examples.

Lemma best_effort_never_rejects_witness :
  (deliverOutboundPayloads cutOnce cutOnce limitFive asGiven rejectingSome
     (plainOptions true) telegram None
     [textOnly "one"; textOnly "two"; textOnly "three"]).2
  = Resolved ["sent"; "sent"; "sent"; "sent"].
Proof.
  destruct (best_effort_never_rejects cutOnce cutOnce limitFive asGiven
              rejectingSome (plainOptions true) telegram None
              [textOnly "one"; textOnly "two"; textOnly "three"])
    as [H _]; [reflexivity|].
  rewrite H. vm_compute. reflexivity.
Defined.

Lemma onPayload_failure_skips_payload_witness :
  let opts := {| bestEffort := false; onError := true;
                 onPayload := Some (fun p =>
                   if bool_decide (text p = "two") then Some "veto"
                   else None) |} in
  let out :=
    deliverOutboundPayloads cutOnce cutOnce limitFive asGiven accepting opts
      discord None [textOnly "one"; textOnly "two"; textOnly "three"] in
  sent out.1 = [SendText "one"] /\ out.2 = Rejected "veto".
Proof.
  cbv zeta.
  destruct (onPayload_failure_skips_payload cutOnce cutOnce limitFive asGiven
              accepting
              {| bestEffort := false; onError := true;
                 onPayload := Some (fun p =>
                   if bool_decide (text p = "two") then Some "veto"
                   else None) |}
              discord None [textOnly "one"; textOnly "two"; textOnly "three"]
              [textOnly "one"] [textOnly "three"] (textOnly "two")
              {| sent := [SendText "one"]; results := ["sent"];
                 announced := [textOnly "one"]; reported := [] |}
              (fun p => if bool_decide (text p = "two") then Some "veto"
                        else None) "veto")
    as (H1 & _ & _ & H2);
    [reflexivity | vm_compute; reflexivity | reflexivity | reflexivity |].
  split; [exact H1 | exact H2].
Defined.
End DeliveryRunsWitnesses.

(** ** The provider runtime manager, continued *)

Section ManagerInvariants.
Import Providers Manager ManagerNotions.
Context {Err : Type}.
Variable formatErrorMessage : Err -> string.
Variable DEFAULT_ACCOUNT_ID : string.
Variable orderKey : ProviderId -> Z.

Lemma paired_same_store (m m' : ManagerState) :
  (forall q, getStore q m' = getStore q m) -> paired m -> paired m'.
Proof. intros H Hm p. rewrite H. apply Hm. Qed.

Lemma paired_setRuntime p id patch (m : ManagerState) :
  paired m -> paired (setRuntime p id patch m).
Proof. intros Hm q. rewrite aborts_setRuntime, tasks_setRuntime. apply Hm. Qed.

Lemma paired_launchAccount p id now (m : ManagerState) :
  paired m -> paired (launchAccount p id now m).
Proof.
  intros Hm q. rewrite aborts_launchAccount, tasks_launchAccount.
  destruct (decide (p = q)); [|apply Hm].
  rewrite !dom_insert_L. by rewrite Hm.
Qed.

Lemma paired_stopAccountFinish p id now (m : ManagerState) :
  paired m -> paired (stopAccountFinish p id now m).
Proof.
  intros Hm q. rewrite aborts_stopAccountFinish, tasks_stopAccountFinish.
  destruct (decide (p = q)); [|apply Hm].
  rewrite !dom_delete_L. by rewrite Hm.
Qed.

Lemma paired_settleTask t outcome now (m : ManagerState) :
  paired m -> paired (settleTask formatErrorMessage t outcome now m).
Proof.
  intros Hm. unfold settleTask.
  destruct (live m !! t) as [[p id]|] eqn:Hl.
  - assert (Hc : paired (match outcome with
                         | Rejected e => taskCatch formatErrorMessage t e m
                         | Resolved _ => m
                         end)
                 /\ live (match outcome with
                          | Rejected e => taskCatch formatErrorMessage t e m
                          | Resolved _ => m
                          end) !! t = Some (p, id)).
    { destruct outcome as [[]|e]; [done|].
      rewrite (taskCatch_live formatErrorMessage t e p id m Hl). split; [|done].
      eapply paired_same_store; [|apply paired_setRuntime, Hm].
      intros q. apply getStore_emit. }
    destruct Hc as [Hp Hl']. rewrite (taskFinally_live t now p id _ Hl').
    eapply paired_same_store; [|apply paired_stopAccountFinish, Hp].
    intros q. apply getStore_dropLive.
  - assert (Hc : (match outcome with
                  | Rejected e => taskCatch formatErrorMessage t e m
                  | Resolved _ => m
                  end) = m).
    { destruct outcome as [[]|e]; [done|]. unfold taskCatch. by rewrite Hl. }
    rewrite Hc. unfold taskFinally. by rewrite Hl.
Qed.

Lemma paired_startAccountEnter plugin (cfg : Config Err) p id now
  (m : ManagerState) :
  paired m -> paired (startAccountEnter plugin cfg p id now m).1.
Proof.
  intros Hm. unfold startAccountEnter.
  case_bool_decide; [done|].
  destruct (negb (accountEnabled cfg p (resolveAccount cfg p id))); simpl.
  - by apply paired_setRuntime.
  - destruct (has_isConfigured plugin); simpl; [done|].
    by apply paired_launchAccount.
Qed.

Lemma paired_startAccountResume p id (c : Settled Err bool) now
  (m : ManagerState) :
  paired m -> paired (startAccountResume p id c now m).1.
Proof.
  intros Hm. destruct c as [[]|e]; simpl; auto using paired_launchAccount,
    paired_setRuntime.
Qed.

Lemma paired_startEnterAll plugin (cfg : Config Err) p now ids
  (m : ManagerState) :
  paired m -> paired (startEnterAll plugin cfg p now ids m).1.
Proof.
  revert m. induction ids as [|id ids IH]; intros m Hm; simpl; [done|].
  pose proof (paired_startAccountEnter plugin cfg p id now m Hm) as H1.
  destruct (startAccountEnter plugin cfg p id now m) as [m1 ph]. simpl in H1.
  specialize (IH m1 H1).
  destruct (startEnterAll plugin cfg p now ids m1) as [m2 susp]. done.
Qed.

Lemma paired_startResumeAll (cfg : Config Err) p now susp (m : ManagerState) :
  paired m -> paired (startResumeAll cfg p now susp m).1.
Proof.
  revert m. induction susp as [|id susp IH]; intros m Hm; simpl; [done|].
  pose proof (paired_startAccountResume p id (isConfigured cfg p id) now m Hm)
    as H1.
  destruct (startAccountResume p id (isConfigured cfg p id) now m) as [m1 r].
  simpl in H1. specialize (IH m1 H1).
  destruct (startResumeAll cfg p now susp m1) as [m2 rs]. done.
Qed.

Lemma paired_startProvider (cfg : Config Err) p a now (m : ManagerState) :
  paired m -> paired (startProvider cfg p a now m).1.
Proof.
  intros Hm. unfold startProvider.
  destruct (getProviderPlugin p) as [plugin|]; [|done].
  destruct (negb (has_startAccount plugin)); [done|].
  destruct (match truthy a with
            | Some a0 => [a0]
            | None => listAccountIds cfg p
            end) as [|i0 ids0] eqn:Hids; [done|].
  pose proof (paired_startEnterAll plugin cfg p now (i0 :: ids0) m Hm) as H1.
  destruct (startEnterAll plugin cfg p now (i0 :: ids0) m) as [m1 susp].
  by apply paired_startResumeAll.
Qed.

Lemma paired_stopAccountResume plugin (env : @StopEnv Err) p id task now
  (m : ManagerState) :
  paired m ->
  paired (stopAccountResume formatErrorMessage plugin env p id task now m).1.
Proof.
  intros Hm. unfold stopAccountResume.
  destruct (if hasStopAccount plugin then stopAccountEnds env id
            else Resolved tt) as [[]|e]; [|done].
  destruct task as [t|]; [|by apply paired_stopAccountFinish].
  destruct (live m !! t); [|by apply paired_stopAccountFinish].
  destruct (taskEnds env t) as [outcome|]; [|done].
  by apply paired_stopAccountFinish, paired_settleTask.
Qed.

Lemma paired_stopResumeAll plugin (env : @StopEnv Err) p now susp
  (m : ManagerState) :
  paired m ->
  paired (stopResumeAll formatErrorMessage plugin env p now susp m).1.
Proof.
  revert m. induction susp as [|[id task] susp IH]; intros m Hm; simpl; [done|].
  pose proof (paired_stopAccountResume plugin env p id task now m Hm) as H1.
  destruct (stopAccountResume formatErrorMessage plugin env p id task now m)
    as [m1 r]. simpl in H1. specialize (IH m1 H1).
  destruct (stopResumeAll formatErrorMessage plugin env p now susp m1)
    as [m2 rs]. done.
Qed.

Lemma paired_stopProvider (cfg : Config Err) (env : @StopEnv Err) p a now
  (m : ManagerState) :
  paired m -> paired (stopProvider formatErrorMessage cfg env p a now m).1.
Proof.
  intros Hm. unfold stopProvider.
  pose proof (stopEnterAll_store (getProviderPlugin p) p
                (knownIds (getProviderPlugin p) cfg p a m) m) as Hs.
  destruct (stopEnterAll (getProviderPlugin p) p
              (knownIds (getProviderPlugin p) cfg p a m) m) as [m1 susp].
  simpl in Hs. apply paired_stopResumeAll.
  by apply (paired_same_store m).
Qed.

Lemma paired_runOp (op : @Op Err) (m : ManagerState) :
  paired m ->
  paired (runOp formatErrorMessage DEFAULT_ACCOUNT_ID orderKey op m).
Proof.
  intros Hm. destruct op; simpl.
  - by apply paired_startProvider.
  - by apply paired_stopProvider.
  - by apply paired_settleTask.
  - by apply paired_setRuntime.
  - done.
Qed.

(** At every point reached by whole operations of the manager, the
    accounts of a provider that have a cancellation handle are exactly
    the accounts that have a task: the two tables of the runtime store
    never get out of step, so a registered task can always be cancelled. *)
Theorem aborts_and_tasks_paired (ops : list (@Op Err)) (p : ProviderId) :
  let m := runOps formatErrorMessage DEFAULT_ACCOUNT_ID orderKey ops
             initialState in
  dom (aborts (getStore p m)) = dom (tasks (getStore p m)).
Proof.
  cbv zeta. revert p. change (paired (runOps formatErrorMessage
    DEFAULT_ACCOUNT_ID orderKey ops initialState)).
  assert (H : forall m, paired m ->
    paired (runOps formatErrorMessage DEFAULT_ACCOUNT_ID orderKey ops m)).
  { induction ops as [|op ops IH]; intros m Hm; simpl; [done|].
    apply IH, paired_runOp, Hm. }
  apply H. intros p. reflexivity.
Qed.
End ManagerInvariants.

Section ManagerStops.
Import Providers Manager ManagerNotions.
Context {Err : Type}.
Variable formatErrorMessage : Err -> string.

(** Stopping an account that has neither a cancellation handle nor a
    task does nothing at all: the call returns, and the state, the
    snapshot of the account included, is the one before the call (no
    [lastStopAt] is written, no hook is invoked). *)
Theorem stopProvider_idle_is_noop (cfg : Config Err) (env : @StopEnv Err)
  (p : ProviderId) (a : string) (now : Z) (m : ManagerState) :
  a <> "" ->
  aborts (getStore p m) !! a = None ->
  tasks (getStore p m) !! a = None ->
  stopProvider formatErrorMessage cfg env p (Some a) now m = (m, Returns).
Proof.
  intros Ha Hab Ht. destruct (plugin_found p) as (pl & Hpl & _ & _ & _ & Hstop).
  unfold stopProvider, knownIds. rewrite Hpl, (truthy_Some _ Ha).
  cbn [stopEnterAll]. unfold stopAccountEnter. rewrite Hab, Ht.
  cbn [hasStopAccount]. rewrite Hstop. reflexivity.
Qed.

Lemma halted_spread_stopped (cur : ProviderAccountSnapshot) id now :
  running (spread cur (stoppedPatch id now) id) = Some false
  /\ lastStopAt (spread cur (stoppedPatch id now) id) = Some (Some now).
Proof. done. Qed.

Lemma halted_stopAccountFinish p id now q i (m : ManagerState) :
  halted q i now m -> halted q i now (stopAccountFinish p id now m).
Proof.
  unfold halted. rewrite getRuntime_stopAccountFinish.
  case_decide; [intros _; apply halted_spread_stopped | done].
Qed.

Lemma halted_settleTask t outcome now q i (m : ManagerState) :
  halted q i now m ->
  halted q i now (settleTask formatErrorMessage t outcome now m).
Proof.
  intros Hh. unfold settleTask.
  destruct (live m !! t) as [[p id]|] eqn:Hl.
  - set (m0 := match outcome with
               | Rejected e => taskCatch formatErrorMessage t e m
               | Resolved _ => m
               end).
    assert (H0 : halted q i now m0 /\ live m0 !! t = Some (p, id)).
    { subst m0. destruct outcome as [[]|e]; [done|].
      rewrite (taskCatch_live formatErrorMessage t e p id m Hl). split; [|done].
      unfold halted.
      rewrite (getRuntime_store q i _ _ (getStore_emit q _ _)).
      rewrite getRuntime_setRuntime. case_decide as Hd; [|done].
      destruct Hd as [-> ->]. destruct Hh as [H1 H2].
      unfold spread. simpl. by rewrite H1, H2. }
    destruct H0 as [H0 L0]. rewrite (taskFinally_live t now p id m0 L0).
    unfold halted.
    rewrite (getRuntime_store q i _ _ (getStore_dropLive q _ _)).
    by apply halted_stopAccountFinish.
  - assert (H0 : match outcome with
                 | Rejected e => taskCatch formatErrorMessage t e m
                 | Resolved _ => m
                 end = m).
    { destruct outcome as [[]|e]; [done|]. unfold taskCatch. by rewrite Hl. }
    rewrite H0. unfold taskFinally. by rewrite Hl.
Qed.

Lemma aborts_settleTask_shrinks t outcome now q i (m : ManagerState) :
  aborts (getStore q m) !! i = None ->
  aborts (getStore q (settleTask formatErrorMessage t outcome now m)) !! i
  = None.
Proof.
  intros Hn. unfold settleTask.
  set (m0 := match outcome with
             | Rejected e => taskCatch formatErrorMessage t e m
             | Resolved _ => m
             end).
  assert (H0 : aborts (getStore q m0) = aborts (getStore q m)).
  { subst m0. destruct outcome as [[]|e]; [done|]. unfold taskCatch.
    destruct (live m !! t) as [[p id]|]; [|done].
    rewrite getStore_emit. apply aborts_setRuntime. }
  unfold taskFinally. destruct (live m0 !! t) as [[p id]|]; [|by rewrite H0].
  rewrite getStore_dropLive, aborts_setRuntime, aborts_deleteTask,
    aborts_deleteAbort, H0.
  case_decide; [|done].
  destruct (decide (id = i)) as [->|Hne];
    [apply lookup_delete_eq | by rewrite lookup_delete_ne].
Qed.

Lemma tasks_stopAccountFinish_shrinks p id now q i (m : ManagerState) :
  tasks (getStore q m) !! i = None ->
  tasks (getStore q (stopAccountFinish p id now m)) !! i = None.
Proof.
  intros Hn. rewrite tasks_stopAccountFinish. case_decide; [|done].
  destruct (decide (id = i)) as [->|Hne];
    [apply lookup_delete_eq | by rewrite lookup_delete_ne].
Qed.

Lemma aborts_stopAccountFinish_shrinks p id now q i (m : ManagerState) :
  aborts (getStore q m) !! i = None ->
  aborts (getStore q (stopAccountFinish p id now m)) !! i = None.
Proof.
  intros Hn. rewrite aborts_stopAccountFinish. case_decide; [|done].
  destruct (decide (id = i)) as [->|Hne];
    [apply lookup_delete_eq | by rewrite lookup_delete_ne].
Qed.

(** What the code after the [await]s does for one account when the
    plugin has no [stopAccount] hook and every awaited task settles. *)
Lemma stopAccountResume_step (plugin : option ProviderPlugin)
  (env : @StopEnv Err) p id task now (m : ManagerState) :
  hasStopAccount plugin = false ->
  (forall t, is_Some (taskEnds env t)) ->
  let out := stopAccountResume formatErrorMessage plugin env p id task now m in
  out.2 = Returns
  /\ stoppedAt p id now out.1
  /\ (forall q i, tasks (getStore q m) !! i = None ->
                  tasks (getStore q out.1) !! i = None)
  /\ (forall q i, aborts (getStore q m) !! i = None ->
                  aborts (getStore q out.1) !! i = None)
  /\ (forall q i, halted q i now m -> halted q i now out.1)
  /\ aborted out.1 = aborted m.
Proof.
  intros Hstop Hends. cbv zeta. unfold stopAccountResume. rewrite Hstop.
  assert (Hfin : forall m0 : ManagerState,
    (forall q i, tasks (getStore q m) !! i = None ->
                 tasks (getStore q m0) !! i = None) ->
    (forall q i, aborts (getStore q m) !! i = None ->
                 aborts (getStore q m0) !! i = None) ->
    (forall q i, halted q i now m -> halted q i now m0) ->
    aborted m0 = aborted m ->
    stoppedAt p id now (stopAccountFinish p id now m0)
    /\ (forall q i, tasks (getStore q m) !! i = None ->
          tasks (getStore q (stopAccountFinish p id now m0)) !! i = None)
    /\ (forall q i, aborts (getStore q m) !! i = None ->
          aborts (getStore q (stopAccountFinish p id now m0)) !! i = None)
    /\ (forall q i, halted q i now m ->
          halted q i now (stopAccountFinish p id now m0))
    /\ aborted (stopAccountFinish p id now m0) = aborted m).
  { intros m0 HT HA HH HB. split; [apply stopAccountFinish_stoppedAt|].
    split; [|split; [|split]].
    - intros q i Hn. by apply tasks_stopAccountFinish_shrinks, HT.
    - intros q i Hn. by apply aborts_stopAccountFinish_shrinks, HA.
    - intros q i Hh. by apply halted_stopAccountFinish, HH.
    - by rewrite aborted_stopAccountFinish. }
  destruct task as [t|]; [|split; [done | by apply Hfin]].
  destruct (live m !! t); [|split; [done | by apply Hfin]].
  destruct (Hends t) as [outcome ->]. split; [done|]. apply Hfin.
  - intros q i. apply (settleTask_shrinks formatErrorMessage t outcome now m).
  - intros q i. apply aborts_settleTask_shrinks.
  - intros q i. apply halted_settleTask.
  - apply aborted_settleTask.
Qed.

Lemma stopResumeAll_steps (plugin : option ProviderPlugin)
  (env : @StopEnv Err) p now susp (m : ManagerState) :
  hasStopAccount plugin = false ->
  (forall t, is_Some (taskEnds env t)) ->
  let out := stopResumeAll formatErrorMessage plugin env p now susp m in
  out.2 = Returns
  /\ (forall id, id ∈ susp.*1 -> stoppedAt p id now out.1)
  /\ (forall q i, tasks (getStore q m) !! i = None ->
                  tasks (getStore q out.1) !! i = None)
  /\ (forall q i, aborts (getStore q m) !! i = None ->
                  aborts (getStore q out.1) !! i = None)
  /\ (forall q i, halted q i now m -> halted q i now out.1)
  /\ aborted out.1 = aborted m.
Proof.
  intros Hstop Hends. revert m.
  induction susp as [|[id task] susp IH]; intros m.
  - cbv zeta. simpl. split; [done|].
    split; [intros i Hid; by apply elem_of_nil in Hid|].
    split; [done|]. split; [done|]. split; done.
  - cbv zeta. cbn [stopResumeAll].
    pose proof (stopAccountResume_step plugin env p id task now m Hstop Hends)
      as H1. cbv zeta in H1.
    destruct (stopAccountResume formatErrorMessage plugin env p id task now m)
      as [m1 r]. cbn [fst snd] in H1.
    destruct H1 as (R1 & S1 & T1 & A1 & H1 & B1).
    specialize (IH m1). cbv zeta in IH.
    destruct (stopResumeAll formatErrorMessage plugin env p now susp m1)
      as [m2 rs]. cbn [fst snd] in IH |- *.
    destruct IH as (R2 & S2 & T2 & A2 & H2 & B2). subst r rs.
    split; [done|]. split; [|split; [|split; [|split]]].
    + intros i Hi. rewrite fmap_cons in Hi. apply elem_of_cons in Hi as [->|Hi];
        [|by apply S2].
      destruct S1 as (Sa & Sb & Sc & Sd). split; [by apply A2|].
      split; [by apply T2|]. by apply (H2 p id).
    + intros q i Hn. by apply T2, T1.
    + intros q i Hn. by apply A2, A1.
    + intros q i Hh. by apply H2, H1.
    + by rewrite B2, B1.
Qed.

(** The accounts that stay suspended in [stopProvider] are those with a
    handle or a task; the others are left at once. *)
Lemma stopEnterAll_suspended (plugin : option ProviderPlugin) p ids
  (m : ManagerState) :
  hasStopAccount plugin = false ->
  let out := stopEnterAll plugin p ids m in
  (forall id, id ∈ ids ->
     is_Some (aborts (getStore p m) !! id)
     \/ is_Some (tasks (getStore p m) !! id) -> id ∈ out.2.*1)
  /\ (forall x, x ∈ aborted m -> x ∈ aborted out.1)
  /\ (forall id x, id ∈ ids -> aborts (getStore p m) !! id = Some x ->
        x ∈ aborted out.1).
Proof.
  intros Hstop. revert m. induction ids as [|id ids IH]; intros m.
  - cbv zeta. simpl. split; [|split]; [|done|].
    + intros i Hid. by apply elem_of_nil in Hid.
    + intros i x Hid. by apply elem_of_nil in Hid.
  - cbv zeta. cbn [stopEnterAll].
    assert (H1 : let o := stopAccountEnter plugin p id m in
      (forall q, getStore q o.1 = getStore q m)
      /\ (forall x, x ∈ aborted m -> x ∈ aborted o.1)
      /\ (forall x, aborts (getStore p m) !! id = Some x -> x ∈ aborted o.1)
      /\ (is_Some (aborts (getStore p m) !! id)
          \/ is_Some (tasks (getStore p m) !! id) ->
          exists task, o.2 = StopAwaits task)).
    { cbv zeta. unfold stopAccountEnter. rewrite Hstop.
      destruct (aborts (getStore p m) !! id) as [x|] eqn:Hx;
        destruct (tasks (getStore p m) !! id) as [t|] eqn:Ht; simpl.
      - split; [done|].
        split; [intros y Hy; apply elem_of_union; by right|]. split; [|eauto].
        intros y [= <-]. apply elem_of_union. left. by apply elem_of_singleton.
      - split; [done|].
        split; [intros y Hy; apply elem_of_union; by right|]. split; [|eauto].
        intros y [= <-]. apply elem_of_union. left. by apply elem_of_singleton.
      - split; [done|]. split; [done|]. split; [done | eauto].
      - split; [done|]. split; [done|]. split; [done|].
        intros [[? ?]|[? ?]]; done. }
    cbv zeta in H1.
    destruct (stopAccountEnter plugin p id m) as [m1 phase].
    cbn [fst snd] in H1. destruct H1 as (G1 & B1 & X1 & P1).
    specialize (IH m1). cbv zeta in IH.
    destruct (stopEnterAll plugin p ids m1) as [m2 susp]. cbn [fst snd] in *.
    destruct IH as (I1 & I2 & I3). rewrite G1 in I1, I3.
    split; [|split].
    + intros i Hi Hsome. apply elem_of_cons in Hi as [->|Hi].
      * destruct (P1 Hsome) as [task ->]. rewrite fmap_cons. left.
      * specialize (I1 i Hi Hsome). destruct phase; [done|].
        rewrite fmap_cons. by right.
    + intros x Hx. by apply I2, B1.
    + intros i x Hi Hx. apply elem_of_cons in Hi as [->|Hi].
      * by apply I2, X1.
      * by apply (I3 i).
Qed.

Lemma knownIds_all (plugin : option ProviderPlugin) (cfg : Config Err) p
  (m : ManagerState) (id : string) :
  is_Some (aborts (getStore p m) !! id)
  \/ is_Some (tasks (getStore p m) !! id) ->
  id ∈ knownIds plugin cfg p None m.
Proof.
  intros H. unfold knownIds. simpl. apply elem_of_remove_dups.
  rewrite !elem_of_app.
  destruct H as [[x Hx]|[t Ht]]; [left | right; left];
    apply list_elem_of_fmap; eexists (id, _); (split; [done|]);
    by apply elem_of_map_to_list.
Qed.

(** [stopProvider] without an account id stops every account of the
    provider: provided each awaited connection task settles, the call
    returns, after it both tables of the provider's store are empty,
    every account that had a handle or a task has a snapshot with
    [running = false] and [lastStopAt] at the time of the stop, and every
    controller that was registered has been aborted. *)
Theorem stopProvider_all_clears (cfg : Config Err) (env : @StopEnv Err)
  (p : ProviderId) (now : Z) (m : ManagerState) :
  (forall t, is_Some (taskEnds env t)) ->
  let out := stopProvider formatErrorMessage cfg env p None now m in
  out.2 = Returns
  /\ tasks (getStore p out.1) = ∅
  /\ aborts (getStore p out.1) = ∅
  /\ (forall id, is_Some (aborts (getStore p m) !! id)
                 \/ is_Some (tasks (getStore p m) !! id) ->
                 halted p id now out.1)
  /\ (forall id x, aborts (getStore p m) !! id = Some x -> x ∈ aborted out.1).
Proof.
  intros Hends. cbv zeta. unfold stopProvider.
  destruct (plugin_found p) as (pl & Hpl & _ & _ & _ & Hstop0).
  assert (Hstop : hasStopAccount (getProviderPlugin p) = false)
    by (by rewrite Hpl).
  set (ids := knownIds (getProviderPlugin p) cfg p None m).
  pose proof (stopEnterAll_store (getProviderPlugin p) p ids m) as Hstore.
  pose proof (stopEnterAll_suspended (getProviderPlugin p) p ids m Hstop)
    as Henter. cbv zeta in Henter.
  destruct (stopEnterAll (getProviderPlugin p) p ids m) as [m1 susp].
  cbn [fst snd] in Hstore, Henter. destruct Henter as (E1 & E2 & E3).
  pose proof (stopResumeAll_steps (getProviderPlugin p) env p now susp m1
                Hstop Hends) as Hres. cbv zeta in Hres.
  destruct (stopResumeAll formatErrorMessage (getProviderPlugin p) env p now
              susp m1) as [m2 r]. cbn [fst snd] in Hres |- *.
  destruct Hres as (R & S & T & A & H & B).
  assert (Hcleared : forall id,
    tasks (getStore p m2) !! id = None /\ aborts (getStore p m2) !! id = None).
  { intros id.
    destruct (aborts (getStore p m) !! id) as [x|] eqn:Hx;
      [|destruct (tasks (getStore p m) !! id) as [t|] eqn:Ht].
    - assert (Hin : id ∈ susp.*1).
      { apply E1; [apply knownIds_all|]; left; by rewrite Hx. }
      destruct (S id Hin) as (? & ? & _). done.
    - assert (Hin : id ∈ susp.*1).
      { apply E1; [apply knownIds_all|]; right; by rewrite Ht. }
      destruct (S id Hin) as (? & ? & _). done.
    - split; [apply T | apply A]; by rewrite Hstore. }
  split; [done|]. split; [|split; [|split]].
  - apply map_eq. intros id. rewrite lookup_empty. apply Hcleared.
  - apply map_eq. intros id. rewrite lookup_empty. apply Hcleared.
  - intros id Hsome.
    assert (Hin : id ∈ susp.*1) by (apply E1; [by apply knownIds_all | done]).
    destruct (S id Hin) as (_ & _ & ? & ?). done.
  - intros id x Hx. rewrite B. apply (E3 id); [|done].
    apply knownIds_all. left. by rewrite Hx.
Qed.
End ManagerStops.

Section ManagerTasks.
Import Providers Manager ManagerNotions.
Context {Err : Type}.
Variable formatErrorMessage : Err -> string.
Variable DEFAULT_ACCOUNT_ID : string.
Variable orderKey : ProviderId -> Z.

Lemma nextHandle_launchAccount p id now (m : ManagerState) :
  nextHandle (launchAccount p id now m) = S (S (nextHandle m)).
Proof. reflexivity. Qed.

Lemma nextHandle_stopAccountFinish p id now (m : ManagerState) :
  nextHandle (stopAccountFinish p id now m) = nextHandle m.
Proof. reflexivity. Qed.

Lemma live_stopAccountFinish p id now (m : ManagerState) :
  live (stopAccountFinish p id now m) = live m.
Proof. reflexivity. Qed.

(** The settlement of a task that is still tracked, spelled out. *)
Lemma settleTask_live t outcome now p id (m : ManagerState) :
  live m !! t = Some (p, id) ->
  exists m0,
    settleTask formatErrorMessage t outcome now m
    = dropLive t (stopAccountFinish p id now m0)
    /\ live m0 = live m /\ nextHandle m0 = nextHandle m
    /\ (forall q, tasks (getStore q m0) = tasks (getStore q m))
    /\ (forall q, aborts (getStore q m0) = aborts (getStore q m)).
Proof.
  intros Hl. unfold settleTask. destruct outcome as [[]|e].
  - exists m. by rewrite (taskFinally_live t now p id m Hl).
  - rewrite (taskCatch_live formatErrorMessage t e p id m Hl).
    eexists. split; [apply taskFinally_live; exact Hl|].
    split; [done|]. split; [done|]. split; intros q.
    + rewrite getStore_emit. apply tasks_setRuntime.
    + rewrite getStore_emit. apply aborts_setRuntime.
Qed.

Lemma settleTask_dead t outcome now (m : ManagerState) :
  live m !! t = None -> settleTask formatErrorMessage t outcome now m = m.
Proof.
  intros Hl. unfold settleTask.
  assert (H0 : match outcome with
               | Rejected e => taskCatch formatErrorMessage t e m
               | Resolved _ => m
               end = m).
  { destruct outcome as [[]|e]; [done|]. unfold taskCatch. by rewrite Hl. }
  rewrite H0. unfold taskFinally. by rewrite Hl.
Qed.

Lemma tracked_frame (m m' : ManagerState) :
  live m' = live m -> nextHandle m' = nextHandle m ->
  (forall q, tasks (getStore q m') = tasks (getStore q m)) ->
  tracked m -> tracked m'.
Proof.
  intros Hl Hn Ht (T1 & T2 & T3). unfold tracked.
  rewrite Hl, Hn. split; [|split; [|done]].
  - intros p id t. rewrite Ht. apply T1.
  - intros t p id. rewrite Ht. apply T2.
Qed.

Lemma tracked_setRuntime p id patch (m : ManagerState) :
  tracked m -> tracked (setRuntime p id patch m).
Proof.
  apply tracked_frame; [done | done |]. intros q. apply tasks_setRuntime.
Qed.

Lemma tracked_launchAccount p id now (m : ManagerState) :
  tasks (getStore p m) !! id = None ->
  tracked m -> tracked (launchAccount p id now m).
Proof.
  intros Hnone (T1 & T2 & T3). unfold tracked.
  rewrite live_launchAccount, nextHandle_launchAccount.
  split; [|split].
  - intros q i t. rewrite tasks_launchAccount. case_decide as Hd.
    + subst q. destruct (decide (id = i)) as [->|Hne].
      * rewrite lookup_insert_eq. intros [= <-]. by rewrite lookup_insert_eq.
      * rewrite lookup_insert_ne by done. intros Ht.
        pose proof (T1 _ _ _ Ht) as Hl.
        assert (t < nextHandle m)%nat by (apply T3; by rewrite Hl).
        rewrite lookup_insert_ne by lia. done.
    + intros Ht. pose proof (T1 _ _ _ Ht) as Hl.
      assert (t < nextHandle m)%nat by (apply T3; by rewrite Hl).
      rewrite lookup_insert_ne by lia. done.
  - intros t q i. destruct (decide (S (nextHandle m) = t)) as [<-|Hne].
    + rewrite lookup_insert_eq. intros [= <- <-].
      rewrite tasks_launchAccount. case_decide; [|done].
      by rewrite lookup_insert_eq.
    + rewrite lookup_insert_ne by done. intros Hl.
      pose proof (T2 _ _ _ Hl) as Ht. rewrite tasks_launchAccount.
      case_decide as Hd; [|done]. subst q.
      rewrite lookup_insert_ne; [done|]. intros ->. congruence.
  - intros t. destruct (decide (S (nextHandle m) = t)) as [<-|Hne]; [lia|].
    rewrite lookup_insert_ne by done. intros Hl. specialize (T3 t Hl). lia.
Qed.

Lemma tracked_stopAccountFinish_absent p id now (m : ManagerState) :
  tasks (getStore p m) !! id = None ->
  tracked m -> tracked (stopAccountFinish p id now m).
Proof.
  intros Hnone. apply tracked_frame; [done | done |].
  intros q. rewrite tasks_stopAccountFinish. case_decide; [|done].
  subst q. by apply delete_id.
Qed.

Lemma tracked_settleTask t outcome now (m : ManagerState) :
  tracked m -> tracked (settleTask formatErrorMessage t outcome now m).
Proof.
  intros Hm. destruct (live m !! t) as [[p id]|] eqn:Hl;
    [|by rewrite settleTask_dead].
  destruct (settleTask_live t outcome now p id m Hl)
    as (m0 & -> & L0 & N0 & T0 & _).
  destruct Hm as (T1 & T2 & T3). unfold tracked. simpl.
  split; [|split].
  - intros q i t'. rewrite getStore_dropLive, tasks_stopAccountFinish, T0.
    intros Ht.
    assert (Ht' : tasks (getStore q m) !! i = Some t' /\ (q, i) <> (p, id)).
    { case_decide as Hd; [|split; [done | congruence]]. subst q.
      apply lookup_delete_Some in Ht as [Hne Ht]. split; [done | congruence]. }
    destruct Ht' as [Ht' Hne]. pose proof (T1 _ _ _ Ht') as Hl'.
    rewrite L0, lookup_delete_ne; [done|]. intros <-. congruence.
  - intros t' q i. rewrite L0. intros Hl'.
    apply lookup_delete_Some in Hl' as [Hne Hl'].
    pose proof (T2 _ _ _ Hl') as Ht'.
    rewrite getStore_dropLive, tasks_stopAccountFinish, T0.
    case_decide as Hd; [|done]. subst q.
    rewrite lookup_delete_ne; [done|]. intros <-.
    pose proof (T2 _ _ _ Hl) as Ht. congruence.
  - intros t'. rewrite L0, N0. intros Hl'. apply T3.
    destruct Hl' as [x Hx]. apply lookup_delete_Some in Hx as [_ Hx]. eauto.
Qed.

Lemma settleTask_clears t outcome now p id (m : ManagerState) :
  live m !! t = Some (p, id) ->
  tasks (getStore p (settleTask formatErrorMessage t outcome now m)) !! id
  = None.
Proof.
  intros Hl. destruct (settleTask_live t outcome now p id m Hl)
    as (m0 & -> & _ & _ & T0 & _).
  rewrite getStore_dropLive, tasks_stopAccountFinish.
  case_decide; [|done]. apply lookup_delete_eq.
Qed.

Lemma tracked_startAccountEnter plugin (cfg : Config Err) p id now
  (m : ManagerState) :
  tracked m -> tracked (startAccountEnter plugin cfg p id now m).1.
Proof.
  intros Hm. unfold startAccountEnter.
  case_bool_decide as Ht; [done|].
  destruct (negb (accountEnabled cfg p (resolveAccount cfg p id))); simpl.
  - by apply tracked_setRuntime.
  - destruct (has_isConfigured plugin); simpl; [done|].
    apply tracked_launchAccount; [|done].
    destruct (tasks (getStore p m) !! id) eqn:E; [|done].
    exfalso. apply Ht. eauto.
Qed.

Lemma tracked_startEnterAll plugin (cfg : Config Err) p now ids
  (m : ManagerState) :
  tracked m -> tracked (startEnterAll plugin cfg p now ids m).1.
Proof.
  revert m. induction ids as [|id ids IH]; intros m Hm; simpl; [done|].
  pose proof (tracked_startAccountEnter plugin cfg p id now m Hm) as H1.
  destruct (startAccountEnter plugin cfg p id now m) as [m1 ph]. simpl in H1.
  specialize (IH m1 H1).
  destruct (startEnterAll plugin cfg p now ids m1) as [m2 susp]. done.
Qed.

Lemma startEnterAll_sublist plugin (cfg : Config Err) p now ids
  (m : ManagerState) :
  (startEnterAll plugin cfg p now ids m).2 `sublist_of` ids.
Proof.
  revert m. induction ids as [|id ids IH]; intros m; simpl; [done|].
  destruct (startAccountEnter plugin cfg p id now m) as [m1 ph].
  specialize (IH m1).
  destruct (startEnterAll plugin cfg p now ids m1) as [m2 susp]. simpl in *.
  destruct ph; [by apply sublist_cons | by apply sublist_skip].
Qed.

Lemma tracked_startResumeAll (cfg : Config Err) p now susp (m : ManagerState) :
  NoDup susp ->
  (forall id, id ∈ susp -> tasks (getStore p m) !! id = None) ->
  tracked m -> tracked (startResumeAll cfg p now susp m).1.
Proof.
  revert m. induction susp as [|id susp IH]; intros m Hnd Hnone Hm; simpl;
    [done|].
  apply NoDup_cons in Hnd as [Hnotin Hnd].
  assert (H1 : tracked (startAccountResume p id (isConfigured cfg p id) now m).1
    /\ forall i, i ∈ susp ->
         tasks (getStore p
           (startAccountResume p id (isConfigured cfg p id) now m).1) !! i
         = None).
  { destruct (isConfigured cfg p id) as [[]|e]; simpl.
    - split; [apply tracked_launchAccount; [apply Hnone; left | done]|].
      intros i Hi. rewrite tasks_launchAccount. case_decide; [|done].
      rewrite lookup_insert_ne; [apply Hnone; by right|]. intros ->. done.
    - split; [by apply tracked_setRuntime|]. intros i Hi.
      rewrite tasks_setRuntime. apply Hnone. by right.
    - split; [done|]. intros i Hi. apply Hnone. by right. }
  destruct (startAccountResume p id (isConfigured cfg p id) now m) as [m1 r].
  simpl in H1. destruct H1 as [H1 H2]. specialize (IH m1 Hnd H2 H1).
  destruct (startResumeAll cfg p now susp m1) as [m2 rs]. done.
Qed.

Lemma tracked_startProvider (cfg : Config Err) p a now (m : ManagerState) :
  NoDup (listAccountIds cfg p) ->
  tracked m -> tracked (startProvider cfg p a now m).1.
Proof.
  intros Hnd Hm. unfold startProvider.
  destruct (plugin_found p) as (pl & -> & _ & _ & Hconf & _).
  destruct (negb (has_startAccount pl)); [done|].
  set (ids := match truthy a with
              | Some a0 => [a0]
              | None => listAccountIds cfg p
              end).
  assert (Hids : NoDup ids).
  { subst ids. destruct (truthy a); [apply NoDup_singleton | done]. }
  destruct ids as [|i0 ids0] eqn:Hi; [done|]. rewrite <- Hi in *. clear Hi.
  pose proof (tracked_startEnterAll pl cfg p now ids m Hm) as H1.
  pose proof (startEnterAll_sublist pl cfg p now ids m) as H2.
  pose proof (startEnterAll_spec pl cfg p now ids m Hconf) as H3.
  cbv zeta in H3.
  destruct (startEnterAll pl cfg p now ids m) as [m1 susp].
  cbn [fst snd] in *. destruct H3 as (Ht & _ & Hn).
  apply tracked_startResumeAll; [by eapply sublist_NoDup | | done].
  intros id Hid. rewrite Ht. by apply Hn.
Qed.

Lemma tracked_stopAccountEnter plugin p id (m : ManagerState) :
  tracked m -> tracked (stopAccountEnter plugin p id m).1.
Proof.
  intros Hm. unfold stopAccountEnter.
  destruct (_ && _ && _); [done|].
  destruct (aborts (getStore p m) !! id), (hasStopAccount plugin); done.
Qed.

Lemma stopEnterAll_tasks plugin p ids (m : ManagerState) :
  tracked m ->
  let out := stopEnterAll plugin p ids m in
  tracked out.1
  /\ forall id task, (id, task) ∈ out.2 ->
       task = tasks (getStore p m) !! id.
Proof.
  revert m. induction ids as [|id ids IH]; intros m Hm.
  - cbv zeta. simpl. split; [done|]. intros i task Hi.
    by apply elem_of_nil in Hi.
  - cbv zeta. cbn [stopEnterAll].
    pose proof (tracked_stopAccountEnter plugin p id m Hm) as H1.
    assert (H2 : forall task, (stopAccountEnter plugin p id m).2
                              = StopAwaits task ->
                              task = tasks (getStore p m) !! id).
    { unfold stopAccountEnter. destruct (_ && _ && _); [done|].
      by intros task [= <-]. }
    assert (H3 : forall q, getStore q (stopAccountEnter plugin p id m).1
                           = getStore q m).
    { intros q. unfold stopAccountEnter. destruct (_ && _ && _); [done|].
      destruct (aborts (getStore p m) !! id), (hasStopAccount plugin); done. }
    destruct (stopAccountEnter plugin p id m) as [m1 phase].
    cbn [fst snd] in *. specialize (IH m1 H1). cbv zeta in IH.
    destruct (stopEnterAll plugin p ids m1) as [m2 susp]. cbn [fst snd] in *.
    destruct IH as [I1 I2]. split; [done|]. intros i task Hi.
    rewrite H3 in I2. destruct phase as [|task0]; [by apply I2|].
    apply elem_of_cons in Hi as [[= -> ->]|Hi]; [by apply H2 | by apply I2].
Qed.

Lemma fewer_refl (m : ManagerState) : fewer m m.
Proof. intros q i. by right. Qed.

Lemma fewer_trans (m1 m2 m3 : ManagerState) :
  fewer m1 m2 -> fewer m2 m3 -> fewer m1 m3.
Proof.
  intros H1 H2 q i. destruct (H2 q i) as [?|E2]; [by left|].
  rewrite E2. apply H1.
Qed.

Lemma fewer_stopAccountFinish p id now (m : ManagerState) :
  fewer m (stopAccountFinish p id now m).
Proof.
  intros q i. rewrite tasks_stopAccountFinish. case_decide; [|by right].
  destruct (decide (id = i)) as [->|Hne];
    [left; apply lookup_delete_eq | right; by rewrite lookup_delete_ne].
Qed.

Lemma fewer_settleTask t outcome now (m : ManagerState) :
  fewer m (settleTask formatErrorMessage t outcome now m).
Proof.
  destruct (live m !! t) as [[p id]|] eqn:Hl;
    [|rewrite settleTask_dead by done; apply fewer_refl].
  destruct (settleTask_live t outcome now p id m Hl)
    as (m0 & -> & _ & _ & T0 & _).
  intros q i. rewrite getStore_dropLive, tasks_stopAccountFinish, T0.
  case_decide; [|by right].
  destruct (decide (id = i)) as [->|Hne];
    [left; apply lookup_delete_eq | right; by rewrite lookup_delete_ne].
Qed.

Lemma tracked_stopAccountResume plugin (env : @StopEnv Err) p id task now
  (m : ManagerState) :
  tracked m ->
  tasks (getStore p m) !! id = None \/ tasks (getStore p m) !! id = task ->
  let out := stopAccountResume formatErrorMessage plugin env p id task now m in
  tracked out.1 /\ fewer m out.1.
Proof.
  intros Hm Htask. cbv zeta. unfold stopAccountResume.
  destruct (if hasStopAccount plugin then stopAccountEnds env id
            else Resolved tt) as [[]|e]; [|split; [done | apply fewer_refl]].
  assert (Hfin : forall m0 : ManagerState,
    tracked m0 -> fewer m m0 -> tasks (getStore p m0) !! id = None ->
    tracked (stopAccountFinish p id now m0)
    /\ fewer m (stopAccountFinish p id now m0)).
  { intros m0 H0 F0 N0. split; [by apply tracked_stopAccountFinish_absent|].
    eapply fewer_trans; [exact F0 | apply fewer_stopAccountFinish]. }
  destruct task as [t|].
  - destruct (live m !! t) as [[q i]|] eqn:Hl.
    + destruct (taskEnds env t) as [outcome|];
        [|split; [done | apply fewer_refl]].
      apply Hfin; [by apply tracked_settleTask | apply fewer_settleTask |].
      destruct Htask as [Hn|Hs].
      * destruct (fewer_settleTask t outcome now m p id) as [?|E]; [done|].
        by rewrite E.
      * destruct Hm as (T1 & _). pose proof (T1 _ _ _ Hs) as Hl'.
        rewrite Hl in Hl'. injection Hl' as -> ->.
        by apply settleTask_clears.
    + apply Hfin; [done | apply fewer_refl |].
      destruct Htask as [Hn|Hs]; [done|].
      destruct Hm as (T1 & _). pose proof (T1 _ _ _ Hs) as Hl'. congruence.
  - apply Hfin; [done | apply fewer_refl |]. by destruct Htask.
Qed.

Lemma tracked_stopResumeAll plugin (env : @StopEnv Err) p now susp
  (m : ManagerState) :
  tracked m ->
  (forall id task, (id, task) ∈ susp ->
     tasks (getStore p m) !! id = None \/ tasks (getStore p m) !! id = task) ->
  tracked (stopResumeAll formatErrorMessage plugin env p now susp m).1.
Proof.
  revert m. induction susp as [|[id task] susp IH]; intros m Hm Hs; simpl;
    [done|].
  pose proof (tracked_stopAccountResume plugin env p id task now m Hm
                (Hs id task ltac:(left))) as H1. cbv zeta in H1.
  destruct (stopAccountResume formatErrorMessage plugin env p id task now m)
    as [m1 r]. cbn [fst snd] in H1. destruct H1 as [H1 F1].
  assert (Hs1 : forall i task0, (i, task0) ∈ susp ->
    tasks (getStore p m1) !! i = None
    \/ tasks (getStore p m1) !! i = task0).
  { intros i task0 Hi. destruct (F1 p i) as [?|E]; [by left|].
    rewrite E. apply Hs. by right. }
  specialize (IH m1 H1 Hs1).
  destruct (stopResumeAll formatErrorMessage plugin env p now susp m1)
    as [m2 rs]. done.
Qed.

Lemma tracked_stopProvider (cfg : Config Err) (env : @StopEnv Err) p a now
  (m : ManagerState) :
  tracked m -> tracked (stopProvider formatErrorMessage cfg env p a now m).1.
Proof.
  intros Hm. unfold stopProvider.
  set (ids := knownIds (getProviderPlugin p) cfg p a m).
  pose proof (stopEnterAll_store (getProviderPlugin p) p ids m) as Hs.
  pose proof (stopEnterAll_tasks (getProviderPlugin p) p ids m Hm) as He.
  cbv zeta in He.
  destruct (stopEnterAll (getProviderPlugin p) p ids m) as [m1 susp].
  cbn [fst snd] in *. destruct He as [H1 H2].
  apply tracked_stopResumeAll; [done|].
  intros id task Hi. right. rewrite Hs. symmetry. by apply H2.
Qed.

Lemma tracked_runOp (op : @Op Err) (m : ManagerState) :
  wellFormed op -> tracked m ->
  tracked (runOp formatErrorMessage DEFAULT_ACCOUNT_ID orderKey op m).
Proof.
  intros Hw Hm. destruct op; simpl.
  - by apply tracked_startProvider.
  - by apply tracked_stopProvider.
  - by apply tracked_settleTask.
  - by apply tracked_setRuntime.
  - done.
Qed.

Lemma tracked_runOps (ops : list (@Op Err)) (m : ManagerState) :
  Forall wellFormed ops -> tracked m ->
  tracked (runOps formatErrorMessage DEFAULT_ACCOUNT_ID orderKey ops m).
Proof.
  revert m. induction ops as [|op ops IH]; intros m Hw Hm; simpl; [done|].
  apply Forall_cons in Hw as [Hw Hws]. by apply IH, tracked_runOp.
Qed.

Lemma tracked_initial : tracked initialState.
Proof.
  split; [|split].
  - intros p id t. unfold getStore. simpl. rewrite lookup_empty. simpl.
    by rewrite lookup_empty.
  - intros t p id. simpl. by rewrite lookup_empty.
  - intros t [x Hx]. simpl in Hx. by rewrite lookup_empty in Hx.
Qed.

(** At every point reached by whole operations of the manager (with
    configurations that list no account twice), the tasks registered in
    the stores are exactly the connection tasks that have not settled,
    each under the account it was started for.  In particular no account
    ever has two unsettled connection tasks. *)
Theorem one_connection_task_per_account (ops : list (@Op Err)) :
  Forall wellFormed ops ->
  let m := runOps formatErrorMessage DEFAULT_ACCOUNT_ID orderKey ops
             initialState in
  (forall p id t, tasks (getStore p m) !! id = Some t
                  <-> live m !! t = Some (p, id))
  /\ (forall p id t t', live m !! t = Some (p, id) ->
                        live m !! t' = Some (p, id) -> t = t').
Proof.
  intros Hw m.
  destruct (tracked_runOps ops initialState Hw tracked_initial)
    as (T1 & T2 & _). fold m in T1, T2. split.
  - intros p id t. split; [apply T1 | apply T2].
  - intros p id t t' H1 H2. apply T2 in H1, H2. congruence.
Qed.

(** An account whose connection task has ended, by fulfilling or by
    rejecting, can be started again: the end of the task leaves the
    account stopped and without a task (a rejection is kept as
    [lastError]), and the next [startProvider] starts a new connection
    task, marks the account as running with the new start time and clears
    the recorded error. *)
Theorem restart_after_task_ended (cfg1 cfg2 : Config Err) (p : ProviderId)
  (a : string) (now1 now2 now3 : Z) (outcome : Settled Err unit)
  (m : ManagerState) :
  a <> "" ->
  tasks (getStore p m) !! a = None ->
  accountEnabled cfg1 p (resolveAccount cfg1 p a) = true ->
  isConfigured cfg1 p a = Resolved true ->
  accountEnabled cfg2 p (resolveAccount cfg2 p a) = true ->
  isConfigured cfg2 p a = Resolved true ->
  let m1 := (startProvider cfg1 p (Some a) now1 m).1 in
  exists t,
    tasks (getStore p m1) !! a = Some t
    /\ let m2 := settleTask formatErrorMessage t outcome now2 m1 in
       let m3 := (startProvider cfg2 p (Some a) now3 m2).1 in
       halted p a now2 m2
       /\ tasks (getStore p m2) !! a = None
       /\ (forall e, outcome = Rejected e ->
             lastError (getRuntime p a m2)
             = Some (Some (formatErrorMessage e)))
       /\ (exists t', tasks (getStore p m3) !! a = Some t' /\ t' <> t
                      /\ live m3 !! t' = Some (p, a))
       /\ running (getRuntime p a m3) = Some true
       /\ lastStartAt (getRuntime p a m3) = Some (Some now3)
       /\ lastError (getRuntime p a m3) = Some None.
Proof.
  intros Ha Hnone He1 Hc1 He2 Hc2. cbv zeta.
  rewrite (startProvider_launches cfg1 p a now1 m Ha Hnone He1 Hc1).
  cbn [fst]. set (m1 := launchAccount p a now1 m).
  exists (S (nextHandle m)).
  assert (Ht1 : tasks (getStore p m1) !! a = Some (S (nextHandle m))).
  { subst m1. rewrite tasks_launchAccount. case_decide; [|done].
    apply lookup_insert_eq. }
  assert (Hl1 : live m1 !! S (nextHandle m) = Some (p, a)).
  { subst m1. rewrite live_launchAccount. apply lookup_insert_eq. }
  split; [exact Ht1|].
  destruct (settleTask_live (S (nextHandle m)) outcome now2 p a m1 Hl1)
    as (m0 & Hm2 & L0 & N0 & T0 & _).
  set (m2 := settleTask formatErrorMessage (S (nextHandle m)) outcome now2 m1)
    in *.
  assert (Hn2 : tasks (getStore p m2) !! a = None).
  { subst m2. by apply settleTask_clears. }
  assert (Hh2 : halted p a now2 m2).
  { rewrite Hm2. unfold halted.
    rewrite (getRuntime_store p a _ _ (getStore_dropLive p _ _)).
    rewrite getRuntime_stopAccountFinish. case_decide as Hd; [done|].
    exfalso. by apply Hd. }
  assert (Hnext : nextHandle m2 = S (S (nextHandle m))).
  { rewrite Hm2. simpl. rewrite N0. reflexivity. }
  rewrite (startProvider_launches cfg2 p a now3 m2 Ha Hn2 He2 Hc2).
  cbn [fst]. split; [exact Hh2|]. split; [exact Hn2|].
  split; [|split; [|split; [|split]]].
  - intros e ->. subst m2.
    rewrite (getRuntime_settleTask_rejected formatErrorMessage _ e now2 p a m1
               Hl1). reflexivity.
  - exists (S (nextHandle m2)). split; [|split].
    + rewrite tasks_launchAccount. case_decide; [|done]. apply lookup_insert_eq.
    + rewrite Hnext. lia.
    + rewrite live_launchAccount. apply lookup_insert_eq.
  - rewrite getRuntime_launchAccount. case_decide as Hd; [done|].
    exfalso. by apply Hd.
  - rewrite getRuntime_launchAccount. case_decide as Hd; [done|].
    exfalso. by apply Hd.
  - rewrite getRuntime_launchAccount. case_decide as Hd; [done|].
    exfalso. by apply Hd.
Qed.
End ManagerTasks.

Section ManagerSnapshot.
Import Providers Manager ManagerNotions.
Context {Err : Type}.
Variable DEFAULT_ACCOUNT_ID : string.
Variable orderKey : ProviderId -> Z.

(** A map filled by a loop of assignments whose value depends on the key
    only. *)
Lemma foldl_insert_lookup {K V A : Type} `{Countable K} (key : A -> K)
  (val : A -> V) (g : K -> V) (l : list A) (acc : gmap K V) (k : K) :
  (forall x, x ∈ l -> val x = g (key x)) ->
  foldl (fun acc x => <[key x := val x]> acc) acc l !! k
  = if decide (k ∈ key <$> l) then Some (g k) else acc !! k.
Proof.
  revert acc. induction l as [|x l IH]; intros acc Hval; simpl.
  - destruct (decide (k ∈ key <$> [])) as [Hd|Hd]; [by apply elem_of_nil in Hd | done].
  - rewrite IH by (intros y Hy; apply Hval; by right).
    destruct (decide (k ∈ key <$> l)) as [Hin|Hnin].
    + rewrite decide_True; [done | by right].
    + destruct (decide (key x = k)) as [<-|Hne].
      * rewrite decide_True by left. rewrite lookup_insert_eq.
        rewrite Hval; [done | left].
      * rewrite lookup_insert_ne by done. rewrite decide_False; [done|].
        intros [?|?]%elem_of_cons; [congruence | done].
Qed.

Lemma listed_plugin_is_registered (pl : ProviderPlugin) :
  pl ∈ PROVIDERS -> getProviderPlugin (plugin_id pl) = Some pl.
Proof.
  unfold PROVIDERS. intros Hin.
  repeat (apply elem_of_cons in Hin as [->|Hin]; [reflexivity|]).
  by apply elem_of_nil in Hin.
Qed.

(** The [accounts] object after the loop of assignments. *)
Lemma foldl_setAccount (f : string -> ProviderAccountSnapshot)
  (ids : list string) (acc : AccountsObject) :
  let accounts := foldl (fun acc id => setAccount id (f id) acc) acc ids in
  (forall k, ownAccounts accounts !! k
             = if decide (k ∈ ids /\ k <> "__proto__") then Some (f k)
               else ownAccounts acc !! k)
  /\ accountsProto accounts
     = if decide ("__proto__" ∈ ids) then Some (f "__proto__")
       else accountsProto acc.
Proof.
  revert acc. induction ids as [|id ids IH]; intros acc; cbn [foldl].
  - split.
    + intros k. destruct (decide _) as [[Hk _]|_]; [|done].
      by apply elem_of_nil in Hk.
    + destruct (decide _) as [Hk|_]; [|done]. by apply elem_of_nil in Hk.
  - destruct (IH (setAccount id (f id) acc)) as [Hown Hproto]. split.
    + intros k. rewrite Hown. unfold setAccount.
      destruct (decide (k ∈ ids /\ k <> "__proto__")) as [[Hin Hne]|Hn].
      * destruct (decide (k ∈ id :: ids /\ k <> "__proto__")) as [_|Hn];
          [done|]. exfalso. apply Hn. split; [by right | done].
      * case_bool_decide as Hid; cbn [ownAccounts].
        -- subst id.
           destruct (decide (k ∈ "__proto__" :: ids /\ k <> "__proto__"))
             as [[Hk Hne]|_]; [|done].
           exfalso. apply elem_of_cons in Hk as [->|Hin]; [done|].
           by apply Hn.
        -- destruct (decide (id = k)) as [->|Hk].
           ++ rewrite lookup_insert_eq.
              destruct (decide (k ∈ k :: ids /\ k <> "__proto__"))
                as [_|Hn']; [done|].
              exfalso. apply Hn'. split; [left | done].
           ++ rewrite lookup_insert_ne by done.
              destruct (decide (k ∈ id :: ids /\ k <> "__proto__"))
                as [[Hin Hne]|_]; [|done].
              exfalso. apply elem_of_cons in Hin as [->|Hin]; [done|].
              by apply Hn.
    + rewrite Hproto. unfold setAccount.
      destruct (decide ("__proto__" ∈ ids)) as [Hin|Hn].
      * destruct (decide ("__proto__" ∈ id :: ids)) as [_|Hn]; [done|].
        exfalso. apply Hn. by right.
      * case_bool_decide as Hid; cbn [accountsProto].
        -- subst id.
           destruct (decide ("__proto__" ∈ "__proto__" :: ids)) as [_|Hn'];
             [done|]. exfalso. apply Hn'. left.
        -- destruct (decide ("__proto__" ∈ id :: ids)) as [Hin|_]; [|done].
           exfalso. apply elem_of_cons in Hin as [?|?]; [by subst | done].
Qed.

(** [getRuntimeSnapshot] has an entry for every provider.  Its account
    table has an own entry exactly for the configured account ids other
    than ["__proto__"]; each entry carries its own id and the [running]
    flag of the stored runtime record; an error recorded for the account
    is never replaced, and a running account is reported with the
    [lastError] it has.  The entry of the provider itself is the entry of
    the default account when the table has one; when it has none, no
    account is called ["__proto__"] and the default id is no member of
    [Object.prototype], it is a default record. *)
Theorem getRuntimeSnapshot_reports (cfg : Config Err) (m : ManagerState)
  (p : ProviderId) :
  exists def accounts,
    getRuntimeSnapshot DEFAULT_ACCOUNT_ID orderKey cfg m !! p
    = Some (def, accounts)
    /\ (forall id, is_Some (ownAccounts accounts !! id)
                   <-> id ∈ listAccountIds cfg p /\ id <> "__proto__")
    /\ (forall id snap, ownAccounts accounts !! id = Some snap ->
          accountId snap = id
          /\ running snap = running (getRuntime p id m)
          /\ (forall e, lastError (getRuntime p id m) = Some (Some e) ->
                        lastError snap = Some (Some e))
          /\ (running (getRuntime p id m) = Some true ->
              lastError snap = lastError (getRuntime p id m)))
    /\ (forall snap,
          ownAccounts accounts !! defaultAccountId cfg p = Some snap ->
          def = TheAccount snap)
    /\ ("__proto__" ∉ listAccountIds cfg p ->
        defaultAccountId cfg p ∉ listAccountIds cfg p ->
        defaultAccountId cfg p ∉ objectPrototypeMembers ->
        def = TheAccount (cloneDefaultRuntime p (defaultAccountId cfg p))).
Proof.
  destruct (plugin_found p) as (pl & Hpl & Hid & _).
  set (g := fun q => match getProviderPlugin q with
                     | Some plugin =>
                         pluginSnapshot DEFAULT_ACCOUNT_ID cfg plugin m
                     | None =>
                         (TheAccount (cloneDefaultRuntime q ""), emptyAccounts)
                     end).
  assert (Hsnap : getRuntimeSnapshot DEFAULT_ACCOUNT_ID orderKey cfg m !! p
                  = Some (pluginSnapshot DEFAULT_ACCOUNT_ID cfg pl m)).
  { unfold getRuntimeSnapshot.
    rewrite (foldl_insert_lookup plugin_id
               (fun plugin => pluginSnapshot DEFAULT_ACCOUNT_ID cfg plugin m) g).
    - rewrite decide_True by apply every_provider_listed.
      unfold g. by rewrite Hpl.
    - intros x Hx. unfold g. rewrite listed_plugin_is_registered; [done|].
      by rewrite <- (listProviderPlugins_perm orderKey). }
  rewrite Hsnap. unfold pluginSnapshot. rewrite Hid.
  destruct (foldl_setAccount (fun id => accountSnapshot cfg pl id m)
              (listAccountIds cfg p) emptyAccounts) as [Hacc Hproto].
  cbv zeta in Hacc, Hproto.
  set (accounts := foldl _ emptyAccounts (listAccountIds cfg p)) in *.
  assert (Hdef : has_defaultAccountId pl = true).
  { assert (Hin : pl ∈ PROVIDERS).
    { unfold getProviderPlugin in Hpl. apply find_some in Hpl as [Hin _].
      by apply list_elem_of_In. }
    unfold PROVIDERS in Hin.
    repeat (apply elem_of_cons in Hin as [->|Hin]; [reflexivity|]).
    by apply elem_of_nil in Hin. }
  rewrite Hdef.
  eexists _, accounts. split; [reflexivity|]. split; [|split; [|split]].
  - intros id. rewrite Hacc.
    destruct (decide (id ∈ listAccountIds cfg p /\ id <> "__proto__"))
      as [Hd|Hd].
    + split; [intros _; exact Hd | intros _; eauto].
    + split; [|intros ?; done]. intros [? H].
      cbn [ownAccounts emptyAccounts] in H. by rewrite lookup_empty in H.
  - intros id snap. rewrite Hacc.
    destruct (decide (id ∈ listAccountIds cfg p /\ id <> "__proto__"));
      [|intros H; cbn [ownAccounts emptyAccounts] in H;
        by rewrite lookup_empty in H].
    intros [= <-].
    unfold accountSnapshot. rewrite Hid.
    change (default (cloneDefaultRuntime p id)
                    (runtimes (getStore p m) !! id))
      with (getRuntime p id m).
    set (cur := getRuntime p id m).
    assert (Hd : forall msg s, accountId (defaultLastError msg s) = accountId s
      /\ running (defaultLastError msg s) = running s
      /\ (forall e, lastError s = Some (Some e) ->
                    lastError (defaultLastError msg s) = Some (Some e))).
    { intros msg s. unfold defaultLastError.
      destruct (lastError s) as [[e|]|] eqn:E; simpl; rewrite ?E;
        repeat split; auto; done. }
    unfold isRunning.
    destruct (running cur) as [[]|] eqn:Hr; simpl; rewrite ?Hr; simpl.
    + repeat split; auto.
    + destruct (negb _); [|destruct (bool_decide _)];
        try destruct (Hd "disabled" (spread cur (patch0 id) id)) as (D1 & D2 & D3);
        try destruct (Hd "not configured" (spread cur (patch0 id) id))
          as (E1 & E2 & E3); simpl in *;
        repeat split; auto; try done; rewrite ?D2, ?E2, ?Hr; auto.
    + destruct (negb _); [|destruct (bool_decide _)];
        try destruct (Hd "disabled" (spread cur (patch0 id) id)) as (D1 & D2 & D3);
        try destruct (Hd "not configured" (spread cur (patch0 id) id))
          as (E1 & E2 & E3); simpl in *;
        repeat split; auto; try done; rewrite ?D2, ?E2, ?Hr; auto.
  - intros snap Hsome. unfold defaultAccountOf. by rewrite Hsome.
  - intros Hnp Hnl Hnm. unfold defaultAccountOf.
    rewrite Hacc.
    destruct (decide (defaultAccountId cfg p ∈ listAccountIds cfg p
                      /\ defaultAccountId cfg p <> "__proto__"))
      as [[? _]|_]; [done|].
    rewrite Hproto.
    destruct (decide ("__proto__" ∈ listAccountIds cfg p)); [done|].
    cbn [ownAccounts accountsProto emptyAccounts]. rewrite lookup_empty.
    by rewrite bool_decide_eq_false_2.
Qed.
End ManagerSnapshot.

Section ManagerMoreWitnesses.
Import Providers Manager ManagerNotions Examples.

Lemma stopProvider_idle_is_noop_witness :
  stopProvider sameMessage oneAccount crashingTasks telegram (Some "main") 5
    initialState
  = (initialState, Returns).
Proof.
  apply (stopProvider_idle_is_noop sameMessage oneAccount crashingTasks
           telegram "main" 5 initialState);
    [discriminate | reflexivity | reflexivity].
Defined.

Lemma stopProvider_all_clears_witness :
  let started := (startProvider oneAccount slack None 10 initialState).1 in
  let out := stopProvider sameMessage oneAccount crashingTasks slack None 20
               started in
  tasks (getStore slack started) !! "main" = Some 1%nat
  /\ out.2 = Returns
  /\ tasks (getStore slack out.1) = ∅.
Proof.
  cbv zeta. split; [vm_compute; reflexivity|].
  destruct (stopProvider_all_clears sameMessage oneAccount crashingTasks
              slack 20
              (startProvider oneAccount slack None 10 initialState).1)
    as (H1 & H2 & _).
  - intros t. simpl. eauto.
  - split; [exact H1 | exact H2].
Defined.

Lemma one_connection_task_per_account_witness :
  let m := runOps sameMessage "default" noOrder
             [OpStartProvider oneAccount whatsapp None 10;
              OpStartProvider oneAccount whatsapp (Some "main") 20]
             initialState in
  live m !! 1%nat = Some (whatsapp, "main").
Proof.
  cbv zeta.
  destruct (one_connection_task_per_account sameMessage "default" noOrder
              [OpStartProvider oneAccount whatsapp None 10;
               OpStartProvider oneAccount whatsapp (Some "main") 20])
    as [H _].
  - constructor; [simpl; apply NoDup_singleton|].
    constructor; [simpl; apply NoDup_singleton|]. constructor.
  - apply H. vm_compute. reflexivity.
Defined.

Lemma restart_after_task_ended_witness :
  exists t,
    tasks (getStore discord
             (startProvider oneAccount discord (Some "main") 10
                initialState).1) !! "main" = Some t.
Proof.
  destruct (restart_after_task_ended sameMessage oneAccount oneAccount discord
              "main" 10 20 30 (Rejected "boom") initialState)
    as (t & Ht & _);
    [discriminate | reflexivity | reflexivity | reflexivity | reflexivity
     | reflexivity |].
  exists t. exact Ht.
Defined.
End ManagerMoreWitnesses.

(** ** The restart loop, continued *)

Section SupervisorRuns.
Import Supervisor.

Lemma run_snoc (events : list Event) (e : Event) (s : GatewayLoop) :
  run (events ++ [e]) s = step e (run events s).
Proof. unfold run. by rewrite foldl_app. Qed.

Lemma step_exit_code (e : Event) (s : GatewayLoop) :
  (exited s = None \/ exited s = Some 0) ->
  exited (step e s) = None \/ exited (step e s) = Some 0.
Proof.
  intros Hs. unfold step. destruct (exited s) eqn:He; [by rewrite He|].
  destruct e as [sig|r|r|].
  - destruct (listening s); [|by rewrite He]. unfold request.
    destruct (shuttingDown s); simpl; auto.
  - destruct (phase s); try (by rewrite He). destruct r; simpl; auto.
  - destruct (closing s) as [[]|]; [| |by rewrite He].
    + right. reflexivity.
    + unfold closeSettled, callRestartResolver. left.
      destruct r; simpl; destruct (restartResolver s), (phase s); simpl;
        try case_bool_decide; simpl; done.
  - destruct (forceExitTimer s); [|by rewrite He]. right. reflexivity.
Qed.

Lemma step_quiet (e : Event) (s : GatewayLoop) :
  (forall sig, e <> Receive sig) ->
  exited s = None /\ closing s = None /\ forceExitTimer s = None ->
  exited (step e s) = None /\ closing (step e s) = None
  /\ forceExitTimer (step e s) = None.
Proof.
  intros Hsig (He & Hc & Ht). unfold step. rewrite He.
  destruct e as [sig|r|r|]; [by destruct (Hsig sig)| | |].
  - destruct (phase s); try done. by destruct r.
  - by rewrite Hc.
  - by rewrite Ht.
Qed.

(** The process only exits after a signal, and only with code 0:
    whatever happens to it, [runtime.exit] is not called before one of the
    three signals has been received, and the code it is given is 0. *)
Theorem exit_only_after_signal (events : list Event) (c : Z) :
  exited (run events initialLoop) = Some c ->
  c = 0 /\ exists sig, Receive sig ∈ events.
Proof.
  intros Hc. split.
  - assert (H : exited (run events initialLoop) = None
                \/ exited (run events initialLoop) = Some 0).
    { clear Hc. induction events as [|e events IH] using rev_ind; [by left|].
      rewrite run_snoc. by apply step_exit_code. }
    destruct H as [H|H]; congruence.
  - assert (H : forall s,
      exited s = None /\ closing s = None /\ forceExitTimer s = None ->
      exited (run events s) = Some c -> exists sig, Receive sig ∈ events).
    { clear Hc. induction events as [|e events IH]; intros s Hq Hc.
      - simpl in Hc. destruct Hq as [Hq _]. congruence.
      - destruct e as [sig|r|r|]; [exists sig; left| | |].
        all: match goal with
             | |- exists sig, Receive sig ∈ ?e :: _ =>
                 destruct (IH (step e s)) as [sig Hin];
                 [apply step_quiet; [done | exact Hq] | exact Hc
                 | exists sig; by right]
             end. }
    apply (H initialLoop); [done | exact Hc].
Qed.

(** While the process is alive it is in one of two conditions. *)
Lemma step_shutdown_state (e : Event) (s : GatewayLoop) :
  (exited s = None ->
     (shuttingDown s = false /\ closing s = None /\ forceExitTimer s = None)
     \/ (shuttingDown s = true /\ is_Some (closing s)
         /\ forceExitTimer s = Some 5000)) ->
  exited (step e s) = None ->
  (shuttingDown (step e s) = false /\ closing (step e s) = None
   /\ forceExitTimer (step e s) = None)
  \/ (shuttingDown (step e s) = true /\ is_Some (closing (step e s))
      /\ forceExitTimer (step e s) = Some 5000).
Proof.
  intros Hs. unfold step. destruct (exited s) eqn:He; [by rewrite He|].
  specialize (Hs eq_refl).
  destruct e as [sig|r|r|].
  - destruct (listening s); [|done]. unfold request.
    destruct (shuttingDown s) eqn:Hd.
    + intros _. destruct Hs as [(? & _)|(_ & H2 & H3)]; [done|].
      right. simpl. by rewrite Hd.
    + intros _. right. simpl. eauto.
  - destruct (phase s); [|intros _; exact Hs..].
    destruct r; simpl; intros _; exact Hs.
  - destruct (closing s) as [[]|] eqn:Hc; [| |intros _; by rewrite Hc].
    + done.
    + intros _. left. unfold closeSettled, callRestartResolver.
      destruct r; simpl; destruct (restartResolver s), (phase s); simpl;
        try case_bool_decide; simpl; done.
  - destruct (forceExitTimer s) eqn:Ht; [done|]. intros _. by rewrite Ht.
Qed.

(** While the process is alive, the forced-exit timer is armed exactly
    while a shutdown is in progress: either no shutdown is under way, no
    [close] is pending and no timer is armed, or [shuttingDown] is set, a
    [close] is pending and the timer is armed with 5000 ms.  So in normal
    operation there is no timer that could fire. *)
Theorem timer_armed_iff_shutting_down (events : list Event) :
  let s := run events initialLoop in
  exited s = None ->
  ((shuttingDown s = false /\ closing s = None /\ forceExitTimer s = None)
   \/ (shuttingDown s = true /\ is_Some (closing s)
       /\ forceExitTimer s = Some 5000))
  /\ (shuttingDown s = false -> step TimerFires s = s).
Proof.
  cbv zeta.
  assert (H : exited (run events initialLoop) = None ->
    (shuttingDown (run events initialLoop) = false
     /\ closing (run events initialLoop) = None
     /\ forceExitTimer (run events initialLoop) = None)
    \/ (shuttingDown (run events initialLoop) = true
        /\ is_Some (closing (run events initialLoop))
        /\ forceExitTimer (run events initialLoop) = Some 5000)).
  { induction events as [|e events IH] using rev_ind.
    - intros _. by left.
    - rewrite run_snoc. by apply step_shutdown_state. }
  intros He. split; [by apply H|].
  intros Hd. unfold step. rewrite He.
  destruct (H He) as [(_ & _ & ->)|(Hd' & _)]; [done | congruence].
Qed.
End SupervisorRuns.

Section SupervisorRunsWitnesses.
Import Supervisor.

Lemma exit_only_after_signal_witness :
  exited (run [StartSettles (Resolved 7%nat); Receive SIGTERM;
               CloseSettles (Resolved tt)] initialLoop) = Some 0
  /\ exists sig, Receive sig ∈ [StartSettles (Resolved 7%nat); Receive SIGTERM;
                                CloseSettles (Resolved tt)].
Proof.
  split; [reflexivity|].
  apply (exit_only_after_signal
           [StartSettles (Resolved 7%nat); Receive SIGTERM;
            CloseSettles (Resolved tt)] 0).
  reflexivity.
Defined.

Lemma timer_armed_iff_shutting_down_witness :
  let s := run [StartSettles (Resolved 7%nat)] initialLoop in
  shuttingDown s = false /\ step TimerFires s = s.
Proof.
  cbv zeta. split; [reflexivity|].
  apply (timer_armed_iff_shutting_down [StartSettles (Resolved 7%nat)]);
    reflexivity.
Defined.
End SupervisorRunsWitnesses.

(** ** The order of the plugin list *)

Section ListingOrder.
Import Providers.
Variable orderKey : ProviderId -> Z.

Lemma provider_name_leb_trans (p q r : ProviderId) :
  String.leb (provider_name p) (provider_name q) = true ->
  String.leb (provider_name q) (provider_name r) = true ->
  String.leb (provider_name p) (provider_name r) = true.
Proof. destruct p, q, r; vm_compute; congruence. Qed.

Lemma plugin_leb_spec (a b : ProviderPlugin) :
  plugin_leb orderKey a b = true <->
  orderKey (plugin_id a) < orderKey (plugin_id b)
  \/ (orderKey (plugin_id a) = orderKey (plugin_id b)
      /\ String.leb (provider_name (plugin_id a))
                    (provider_name (plugin_id b)) = true).
Proof.
  unfold plugin_leb.
  destruct (Z.eqb_spec (orderKey (plugin_id a)) (orderKey (plugin_id b)))
    as [E|N]; simpl.
  - split; [by right | intros [?|[_ ?]]; [lia | done]].
  - rewrite Z.ltb_lt. split; [by left | intros [?|[? _]]; [done | lia]].
Qed.

Lemma plugin_leb_total (a b : ProviderPlugin) :
  plugin_leb orderKey a b = false -> plugin_leb orderKey b a = true.
Proof.
  intros H. apply plugin_leb_spec.
  destruct (plugin_leb orderKey a b) eqn:E; [done|]. clear H.
  unfold plugin_leb in E.
  destruct (Z.eqb_spec (orderKey (plugin_id a)) (orderKey (plugin_id b)))
    as [Ek|N]; simpl in E.
  - right. split; [done|].
    destruct (String.leb_total (provider_name (plugin_id a))
                (provider_name (plugin_id b))); [congruence | done].
  - apply Z.ltb_ge in E. left. lia.
Qed.

Lemma plugin_leb_trans (a b c : ProviderPlugin) :
  plugin_leb orderKey a b = true -> plugin_leb orderKey b c = true ->
  plugin_leb orderKey a c = true.
Proof.
  rewrite !plugin_leb_spec. intros [H1|[H1 N1]] [H2|[H2 N2]]; try (left; lia).
  right. split; [lia|]. by eapply provider_name_leb_trans.
Qed.

Lemma insert_sorted_sorted (x : ProviderPlugin) (l : list ProviderPlugin) :
  StronglySorted (fun a b => plugin_leb orderKey a b = true) l ->
  StronglySorted (fun a b => plugin_leb orderKey a b = true)
    (insert_sorted orderKey x l).
Proof.
  induction l as [|y l IH]; intros Hs; simpl.
  - repeat constructor.
  - apply StronglySorted_inv in Hs as [Hs Hy].
    destruct (plugin_leb orderKey x y) eqn:E.
    + constructor; [by constructor|]. constructor; [done|].
      eapply Forall_impl; [exact Hy|]. intros z Hz. simpl in Hz.
      by eapply plugin_leb_trans.
    + constructor; [by apply IH|].
      rewrite (insert_sorted_perm orderKey x l). constructor; [|done].
      by apply plugin_leb_total.
Qed.

(** [listProviderPlugins] returns the seven plugins, each once, ordered
    by their sort key and, among equal keys, by their id. *)
Theorem listProviderPlugins_sorted :
  listProviderPlugins orderKey ≡ₚ PROVIDERS
  /\ StronglySorted
       (fun a b =>
          orderKey (plugin_id a) < orderKey (plugin_id b)
          \/ (orderKey (plugin_id a) = orderKey (plugin_id b)
              /\ String.leb (provider_name (plugin_id a))
                            (provider_name (plugin_id b)) = true))
       (listProviderPlugins orderKey).
Proof.
  split; [apply listProviderPlugins_perm|].
  assert (H : StronglySorted (fun a b => plugin_leb orderKey a b = true)
                (listProviderPlugins orderKey)).
  { unfold listProviderPlugins.
    induction PROVIDERS as [|x l IH]; simpl; [constructor|].
    by apply insert_sorted_sorted. }
  induction H as [|a l Hs IH Ha]; constructor; [done|].
  eapply Forall_impl; [exact Ha|]. intros b Hb. by apply plugin_leb_spec.
Qed.
End ListingOrder.

(** ** The choice of a message provider *)

Section SelectionProps.
Import Providers Manager Selection.
Context {Err : Type}.
Variable orderKey : ProviderId -> Z.
Variable normalizeMessageProvider : option string -> option string.

Lemma listed_plugin_facts (pl : ProviderPlugin) :
  pl ∈ listProviderPlugins orderKey ->
  has_isConfigured pl = true /\ getProviderPlugin (plugin_id pl) = Some pl.
Proof.
  rewrite (listProviderPlugins_perm orderKey). unfold PROVIDERS. intros Hin.
  repeat (apply elem_of_cons in Hin as [->|Hin]; [by split|]).
  by apply elem_of_nil in Hin.
Qed.

Lemma listMessageProviders_NoDup : NoDup (listMessageProviders orderKey).
Proof.
  unfold listMessageProviders. rewrite (listProviderPlugins_perm orderKey).
  compute_done.
Qed.

Lemma isProviderConfiguredFrom_spec (plugin : ProviderPlugin)
  (cfg : Config Err) (ids : list string) :
  has_isConfigured plugin = true ->
  checksSettle cfg ->
  exists b,
    isProviderConfiguredFrom plugin cfg ids = Resolved b
    /\ (b = true <->
        exists id, id ∈ ids /\ usable cfg (plugin_id plugin) id).
Proof.
  intros Hconf Hsettle. induction ids as [|id ids IH]; simpl.
  - exists false. split; [done|]. split; [done|].
    intros (id & Hin & _). by apply elem_of_nil in Hin.
  - destruct IH as (b & Hb & Hiff). rewrite Hconf.
    case_bool_decide as Hen.
    + exists b. split; [done|]. rewrite Hiff. split.
      * intros (i & Hi & Hu). exists i. split; [by right | done].
      * intros (i & Hi & Hu). apply elem_of_cons in Hi as [->|Hi]; [|eauto].
        destruct Hu as [Hu _]. done.
    + destruct (Hsettle (plugin_id plugin) id) as [[] Hc]; rewrite Hc.
      * exists true. split; [done|]. split; [|done]. intros _.
        exists id. split; [left | by split].
      * exists b. split; [done|]. rewrite Hiff. split.
        -- intros (i & Hi & Hu). exists i. split; [by right | done].
        -- intros (i & Hi & Hu). apply elem_of_cons in Hi as [->|Hi]; [|eauto].
           destruct Hu as [_ Hu]. congruence.
Qed.

Lemma listConfiguredFrom_spec (cfg : Config Err)
  (plugins : list ProviderPlugin) (acc : list ProviderId) :
  (forall pl, pl ∈ plugins -> has_isConfigured pl = true) ->
  checksSettle cfg ->
  exists l,
    listConfiguredFrom cfg plugins acc = Resolved (acc ++ l)%list
    /\ l `sublist_of` plugin_id <$> plugins
    /\ (forall p, p ∈ l <->
          p ∈ plugin_id <$> plugins
          /\ exists id, id ∈ listAccountIds cfg p /\ usable cfg p id).
Proof.
  intros Hconf Hsettle. revert acc.
  induction plugins as [|pl plugins IH]; intros acc; simpl.
  - exists []. rewrite app_nil_r. split; [done|]. split; [done|].
    intros p. split; [intros Hp; by apply elem_of_nil in Hp|].
    intros [Hp _]. by apply elem_of_nil in Hp.
  - assert (Hrest : forall x, x ∈ plugins -> has_isConfigured x = true)
      by (intros x Hx; apply Hconf; by right).
    destruct (isProviderConfiguredFrom_spec pl cfg
                (listAccountIds cfg (plugin_id pl))
                (Hconf pl ltac:(left)) Hsettle) as (b & Hb & Hiff).
    unfold isProviderConfigured. rewrite Hb. destruct b.
    + destruct (IH Hrest (acc ++ [plugin_id pl])%list) as (l & Hl & Hsub & Hmem).
      exists (plugin_id pl :: l). rewrite Hl, <- app_assoc. split; [done|].
      split; [by apply sublist_skip|]. intros p. rewrite !elem_of_cons, Hmem.
      split.
      * intros [->|[Hp Hu]]; [|by auto]. split; [by left|]. by apply Hiff.
      * intros [[->|Hp] Hu]; [by left | by right].
    + destruct (IH Hrest acc) as (l & Hl & Hsub & Hmem).
      exists l. split; [done|]. split; [by apply sublist_cons|].
      intros p. rewrite Hmem, elem_of_cons. split; [intros [? ?]; auto|].
      intros [[->|Hp] Hu]; [|done]. apply Hiff in Hu. done.
Qed.

Lemma listConfigured_result (cfg : Config Err) :
  checksSettle cfg ->
  exists configured,
    listConfiguredMessageProviders orderKey cfg = Resolved configured
    /\ (forall p, p ∈ configured <->
          exists id, id ∈ listAccountIds cfg p /\ usable cfg p id)
    /\ NoDup configured
    /\ configured `sublist_of` listMessageProviders orderKey.
Proof.
  intros Hsettle.
  destruct (listConfiguredFrom_spec cfg (listProviderPlugins orderKey) []
              (fun pl Hpl => proj1 (listed_plugin_facts pl Hpl)) Hsettle)
    as (l & Hl & Hsub & Hmem).
  exists l. split; [exact Hl|]. split; [|split; [|exact Hsub]].
  - intros p. rewrite Hmem. split; [by intros [_ ?]|].
    intros Hu. split; [apply every_provider_listed | done].
  - eapply sublist_NoDup; [apply listMessageProviders_NoDup | exact Hsub]. 
Qed.

(** When no [isConfigured] check rejects, [listConfiguredMessageProviders]
    fulfils with exactly the providers that have a listed account which
    is not disabled and is configured; each one once, in the order of
    the plugin list. *)
Theorem listConfiguredMessageProviders_spec (cfg : Config Err) :
  checksSettle cfg ->
  exists configured,
    listConfiguredMessageProviders orderKey cfg = Resolved configured
    /\ (forall p, p ∈ configured <->
          exists id, id ∈ listAccountIds cfg p /\ usable cfg p id)
    /\ NoDup configured
    /\ configured `sublist_of` listMessageProviders orderKey.
Proof. exact (listConfigured_result cfg). Qed.

(** Without a provider name, [resolveMessageProviderSelection] fulfils
    with provider [p] exactly when [p] is the one and only provider with
    a usable account. *)
Theorem selection_without_provider (cfg : Config Err)
  (provider : option string) (p : ProviderId) :
  checksSettle cfg ->
  truthy (normalizeMessageProvider provider) = None ->
  (exists configured,
     resolveMessageProviderSelection orderKey normalizeMessageProvider cfg
       provider = Resolved (p, configured))
  <-> (exists id, id ∈ listAccountIds cfg p /\ usable cfg p id)
      /\ (forall q, (exists id, id ∈ listAccountIds cfg q /\ usable cfg q id) ->
                    q = p).
Proof.
  intros Hsettle Hnone. unfold resolveMessageProviderSelection. rewrite Hnone.
  destruct (listConfigured_result cfg Hsettle) as (l & -> & Hmem & Hnd & _).
  split.
  - intros (configured & Hres).
    destruct l as [|x [|y l]]; [done| |done]. injection Hres as -> <-.
    split; [apply Hmem; left|]. intros q Hq. apply Hmem in Hq.
    by apply list_elem_of_singleton in Hq.
  - intros [Hp Honly]. apply Hmem in Hp.
    destruct l as [|x [|y l]]; [by apply elem_of_nil in Hp | |].
    + apply list_elem_of_singleton in Hp as ->. eauto.
    + exfalso. assert (x = p) by (apply Honly, Hmem; left).
      assert (y = p) by (apply Honly, Hmem; right; left). subst.
      apply NoDup_cons in Hnd as [Hnotin _]. apply Hnotin. left.
Qed.

Lemma isKnownProvider_name (p : ProviderId) :
  isKnownProvider orderKey (provider_name p) = Some p.
Proof.
  unfold isKnownProvider.
  destruct (List.find _ (listMessageProviders orderKey)) as [q|] eqn:Hf.
  - apply find_some in Hf as [_ Hq]. apply bool_decide_eq_true_1 in Hq.
    f_equal. destruct p, q; simpl in Hq; congruence.
  - exfalso. pose proof (every_provider_listed orderKey p) as Hin.
    apply list_elem_of_In in Hin.
    apply (find_none _ _ Hf) in Hin. by rewrite bool_decide_eq_true_2 in Hin.
Qed.

(** With a provider name, [resolveMessageProviderSelection] rejects with
    "Unknown provider: <name>" when no plugin has that id; otherwise it
    fulfils with that provider, also when the provider is not configured,
    together with the list of configured providers. *)
Theorem selection_with_provider (cfg : Config Err) (provider : option string)
  (name : string) :
  truthy (normalizeMessageProvider provider) = Some name ->
  let result :=
    resolveMessageProviderSelection orderKey normalizeMessageProvider cfg
      provider in
  ((forall p, provider_name p <> name) ->
   result = Rejected (ErrorMessage ("Unknown provider: " ++ name)))
  /\ (forall p, provider_name p = name -> checksSettle cfg ->
        exists configured,
          result = Resolved (p, configured)
          /\ (p ∈ configured <->
              exists id, id ∈ listAccountIds cfg p /\ usable cfg p id)).
Proof.
  intros Hname. cbv zeta. unfold resolveMessageProviderSelection.
  rewrite Hname. split.
  - intros Hunknown.
    destruct (isKnownProvider orderKey name) as [q|] eqn:Hk; [|done].
    unfold isKnownProvider in Hk. apply find_some in Hk as [_ Hq].
    apply bool_decide_eq_true_1 in Hq. by destruct (Hunknown q).
  - intros p <- Hsettle. rewrite isKnownProvider_name.
    destruct (listConfigured_result cfg Hsettle) as (l & -> & Hmem & _).
    exists l. split; [done | apply Hmem].
Qed.

(** A provider that [listConfiguredMessageProviders] reports has an
    account that [startProvider] launches on an idle manager, unless the
    provider is WhatsApp and [web.enabled] is false. *)
Theorem configured_provider_can_start (cfg : Config Err) (p : ProviderId)
  (configured : list ProviderId) (now : Z) (m : ManagerState) :
  checksSettle cfg ->
  listConfiguredMessageProviders orderKey cfg = Resolved configured ->
  p ∈ configured ->
  ~ (p = whatsapp /\ web_enabled cfg = Some false) ->
  tasks (getStore p m) = ∅ ->
  exists id ab t,
    id ∈ listAccountIds cfg p
    /\ CallStartAccount p id ab t ∈ effects (startProvider cfg p None now m).1.
Proof.
  intros Hsettle Hres Hin Hweb Hidle.
  destruct (listConfigured_result cfg Hsettle) as (l & Hl & Hmem & _).
  rewrite Hl in Hres. injection Hres as <-.
  apply Hmem in Hin as (id & Hid & Hen & Hc).
  destruct (startProvider_all_launches cfg p now m id Hid) as (ab & t & Ht).
  - by rewrite Hidle, lookup_empty.
  - unfold accountEnabled, isAccountEnabled.
    rewrite (bool_decide_eq_false_2 _ Hen). simpl.
    destruct (decide (p = whatsapp)) as [->|Hne].
    + rewrite bool_decide_eq_true_2 by done. simpl.
      rewrite bool_decide_eq_false_2; [done|]. intros Hw. by apply Hweb.
    + by rewrite (bool_decide_eq_false_2 _ Hne).
  - exact Hc.
  - eauto.
Qed.
End SelectionProps.

Section SelectionWitnesses.
Import Providers Manager Selection Examples MessageExamples.

Lemma listConfiguredMessageProviders_spec_witness :
  exists configured,
    listConfiguredMessageProviders noOrder mixedAccounts = Resolved configured
    /\ (forall p, p ∈ configured <->
          exists id, id ∈ listAccountIds mixedAccounts p
                     /\ usable mixedAccounts p id)
    /\ NoDup configured
    /\ configured `sublist_of` listMessageProviders noOrder.
Proof.
  apply (listConfiguredMessageProviders_spec noOrder mixedAccounts).
  intros p id. eexists. reflexivity.
Defined.

Lemma selection_without_provider_witness :
  exists configured,
    resolveMessageProviderSelection noOrder asTyped onlySlack None
    = Resolved (slack, configured).
Proof.
  apply (selection_without_provider noOrder asTyped onlySlack None slack).
  - intros p id. eexists. reflexivity.
  - reflexivity.
  - split.
    + exists "main". split; [left|]. split; [discriminate | reflexivity].
    + intros q (id & _ & _ & Hc). simpl in Hc.
      destruct q; first [reflexivity | discriminate Hc].
Defined.

Lemma selection_with_provider_witness :
  exists configured,
    resolveMessageProviderSelection noOrder asTyped mixedAccounts
      (Some "telegram") = Resolved (telegram, configured).
Proof.
  destruct (selection_with_provider noOrder asTyped mixedAccounts
              (Some "telegram") "telegram" eq_refl) as [_ H].
  destruct (H telegram eq_refl) as (configured & Hres & _).
  - intros p id. eexists. reflexivity.
  - exists configured. exact Hres.
Defined.

Lemma configured_provider_can_start_witness :
  exists id ab t,
    id ∈ listAccountIds oneAccount slack
    /\ CallStartAccount slack id ab t
       ∈ effects (startProvider oneAccount slack None 10 initialState).1.
Proof.
  eapply (configured_provider_can_start noOrder oneAccount slack _ 10
            initialState).
  - intros p id. eexists. reflexivity.
  - vm_compute. reflexivity.
  - compute_done.
  - intros [H _]. discriminate H.
  - reflexivity.
Defined.
End SelectionWitnesses.

(** ** Sending one message or poll *)

Section MessageProps.
Import Providers Targets Selection Message.
Context {Err Res GatewayRes PollInput Poll : Type}.
Variable chunkTextFn : string -> Z -> list string.
Variable chunkMarkdownTextFn : string -> Z -> list string.
Variable resolveTextChunkLimit : ProviderId -> option string -> Z.
Variable normalizeOutboundPayloads :
  list MessagePayload -> list Deliver.NormalizedOutboundPayload.
Variable normalizeE164 : JsString -> JsString.
Variable normalizeMessageProvider : option string -> option string.
Variable respondAt :
  JsString -> list Deliver.SendCall -> Deliver.SendCall -> Settled Err Res.
Variable callGateway : GatewayCall Poll -> Settled Err GatewayRes.
Variable randomIdempotencyKey : string.
Variable normalizePollInput : PollInput -> Z -> Settled Err Poll.

Local Abbreviation sendMessage :=
  (Message.sendMessage chunkTextFn chunkMarkdownTextFn resolveTextChunkLimit
     normalizeOutboundPayloads normalizeE164 normalizeMessageProvider
     respondAt callGateway randomIdempotencyKey).
Local Abbreviation sendPoll :=
  (Message.sendPoll normalizeMessageProvider callGateway
     randomIdempotencyKey normalizePollInput).
Local Abbreviation providerOf params :=
  (default "whatsapp" (normalizeMessageProvider (send_provider params))).

Lemma pluginByName_name (p : ProviderId) :
  exists plugin,
    pluginByName (provider_name p) = Some plugin
    /\ plugin_id plugin = p
    /\ deliveryModeOf plugin (provider_name p)
       = (if decide (p = whatsapp) then gateway else direct)
    /\ provider_name p <> "none".
Proof. destruct p; eexists; (split; [reflexivity|]); by repeat split. Qed.

Lemma pluginByName_Some (name : string) (plugin : ProviderPlugin) :
  pluginByName name = Some plugin -> name = provider_name (plugin_id plugin).
Proof.
  unfold pluginByName. intros [_ H]%find_some.
  by apply bool_decide_eq_true_1 in H.
Qed.

Lemma resolveTimeoutMs_positive (timeout : option JsNumber) :
  1 <= resolveTimeoutMs timeout.
Proof. destruct timeout as [[q| |]|]; simpl; lia. Qed.

(** A dry run of [sendMessage] sends nothing and calls no gateway; it
    reports the provider, no result, and the route: the gateway for
    WhatsApp and direct for every other provider.  It rejects only for a
    name that no plugin has. *)
Theorem sendMessage_dry_run (params : MessageSendParams) :
  send_dryRun params = true ->
  let out := sendMessage params in
  sends out = [] /\ gatewayCalls out = []
  /\ match outcome out with
     | Resolved r =>
         sent_dryRun r = true /\ sent_result r = None
         /\ sent_provider r = providerOf params
         /\ (sent_via r = ViaGateway <-> providerOf params = "whatsapp")
     | Rejected err =>
         err = ErrorMessage ("Unknown provider: " ++ providerOf params)
         /\ forall p, provider_name p <> providerOf params
     end.
Proof.
  intros Hdry. cbv zeta. unfold Message.sendMessage.
  destruct (pluginByName (providerOf params)) as [plugin|] eqn:Hp.
  - rewrite Hdry. simpl. split; [done|]. split; [done|].
    split; [done|]. split; [done|]. split; [done|].
    pose proof (pluginByName_Some _ _ Hp) as Hname.
    destruct (pluginByName_name (plugin_id plugin))
      as (pl & Hpl & _ & Hmode & _).
    rewrite <- Hname, Hp in Hpl. injection Hpl as <-.
    rewrite <- Hname in Hmode. rewrite Hmode, Hname.
    destruct (plugin_id plugin); simpl; split; done.
  - simpl. split; [done|]. split; [done|]. split; [done|]. intros p Hname.
    destruct (pluginByName_name p) as (pl & Hpl & _). congruence.
Qed.

(** The route of [sendMessage]: WhatsApp goes through one gateway call
    of method "send" with a timeout of at least 1 ms and no direct send;
    every other provider makes no gateway call and reports a direct
    delivery. *)
Theorem sendMessage_routes (params : MessageSendParams) (p : ProviderId) :
  providerOf params = provider_name p ->
  send_dryRun params = false ->
  let out := sendMessage params in
  if decide (p = whatsapp) then
    sends out = [] /\ target out = None
    /\ exists call,
         gatewayCalls out = [call]
         /\ call_method call = "send"
         /\ 1 <= timeoutMs (call_options call)
         /\ (outcome out = match callGateway call with
                           | Resolved result =>
                               Resolved
                                 {| sent_provider := "whatsapp";
                                    sent_to := send_to params;
                                    sent_via := ViaGateway;
                                    sent_mediaUrl := send_mediaUrl params;
                                    sent_result := Some (inr result);
                                    sent_dryRun := false |}
                           | Rejected e => Rejected (Thrown e)
                           end)
  else
    gatewayCalls out = []
    /\ match outcome out with
       | Resolved r => sent_via r = ViaDirect /\ sent_to r = send_to params
       | Rejected _ => True
       end.
Proof.
  intros Hname Hdry. cbv zeta. unfold Message.sendMessage.
  rewrite Hname, Hdry.
  destruct (pluginByName_name p) as (plugin & -> & Hid & -> & Hnone).
  destruct (decide (p = whatsapp)) as [->|Hne]; simpl.
  - split; [done|]. split; [done|]. eexists. split; [reflexivity|].
    split; [done|]. split; [apply resolveTimeoutMs_positive | done].
  - rewrite (bool_decide_eq_false_2 _ Hnone). rewrite Hid.
    destruct (resolveOutboundTarget normalizeE164 (Chat p)
                (Some (send_to params)) None) as [resolved|msg]; simpl;
      [|done].
    split; [done|]. by destruct (Deliver.deliverOutboundPayloads _ _ _ _ _ _ _ _ _).2.
Qed.

(** For a provider with direct delivery a destination that is empty or
    all white space makes [sendMessage] reject with the provider's
    missing-target error before anything is sent. *)
Theorem sendMessage_blank_target (params : MessageSendParams)
  (p : ProviderId) :
  providerOf params = provider_name p ->
  p <> whatsapp ->
  send_dryRun params = false ->
  blank (Some (send_to params)) ->
  let out := sendMessage params in
  outcome out = Rejected (ErrorMessage (missingTargetMessage p))
  /\ sends out = [] /\ gatewayCalls out = [].
Proof.
  intros Hname Hne Hdry Hblank. cbv zeta. unfold Message.sendMessage.
  rewrite Hname, Hdry.
  destruct (pluginByName_name p) as (plugin & -> & Hid & -> & Hnone).
  rewrite decide_False by done. simpl.
  rewrite (bool_decide_eq_false_2 _ Hnone), Hid.
  rewrite every_plugin_resolves. unfold pluginResolveTarget.
  rewrite (trimmedTruthy_blank _ Hblank). by destruct p.
Qed.

Lemma answer_all_rejected (respond : list Deliver.SendCall ->
                                     Deliver.SendCall -> Settled Err Res)
  (hist calls : list Deliver.SendCall) :
  (forall h c, exists e, respond h c = Rejected e) ->
  (Deliver.answer respond hist calls).1.2 = [].
Proof.
  intros Hrej. destruct calls as [|c calls]; [done|]. simpl.
  destruct (Hrej hist c) as [e ->]. done.
Qed.

Lemma deliverLoop_all_rejected
  (respond : list Deliver.SendCall -> Deliver.SendCall -> Settled Err Res)
  (opts : @Deliver.DeliverOptions Err) (h : option Deliver.Chunker)
  (limit : option Z) (payloads : list Deliver.NormalizedOutboundPayload)
  (s : @Deliver.DeliveryState Err Res) :
  Deliver.onPayload opts = None ->
  (forall hist c, exists e, respond hist c = Rejected e) ->
  Deliver.results (Deliver.deliverLoop respond opts h limit payloads s).1
  = Deliver.results s.
Proof.
  intros Hq Hrej. revert s.
  induction payloads as [|payload rest IH]; intros s; [done|].
  rewrite deliverLoop_cons.
  assert (Hquiet : Deliver.quietOnPayload opts payload).
  { intros f Hf. congruence. }
  rewrite (deliverPayload_answer respond opts h limit payload s Hquiet).
  rewrite (answer_all_rejected respond _ _ Hrej).
  set (s1 := Deliver.afterSends _ [] (Deliver.announce opts payload s)).
  assert (Hres : Deliver.results s1 = Deliver.results s).
  { subst s1. unfold Deliver.afterSends, Deliver.announce. rewrite Hq. simpl.
    by rewrite app_nil_r. }
  destruct (Deliver.settledOf _) as [[]|e].
  - by rewrite IH, Hres.
  - destruct (Deliver.bestEffort opts); [|exact Hres].
    rewrite IH. unfold Deliver.reportIf, Deliver.report.
    destruct (Deliver.onError opts); exact Hres.
Qed.

(** With [bestEffort], a direct [sendMessage] to a destination with
    content fulfils whatever the sends do; the delivery goes to the
    trimmed destination while the answer names the destination as it was
    given, and when every send is rejected the answer carries no result. *)
Theorem sendMessage_best_effort (params : MessageSendParams)
  (p : ProviderId) :
  providerOf params = provider_name p ->
  p <> whatsapp ->
  send_dryRun params = false ->
  ~ blank (Some (send_to params)) ->
  send_bestEffort params = true ->
  let out := sendMessage params in
  target out = Some (trim (send_to params))
  /\ gatewayCalls out = []
  /\ exists r,
       outcome out = Resolved r
       /\ sent_via r = ViaDirect
       /\ sent_to r = send_to params
       /\ ((forall hist c, exists e,
              respondAt (trim (send_to params)) hist c = Rejected e) ->
           sent_result r = None).
Proof.
  intros Hname Hne Hdry Hnb Hbest. cbv zeta. unfold Message.sendMessage.
  rewrite Hname, Hdry.
  destruct (pluginByName_name p) as (plugin & -> & Hid & -> & Hnone).
  rewrite decide_False by done. simpl.
  rewrite (bool_decide_eq_false_2 _ Hnone), Hid.
  rewrite every_plugin_resolves. unfold pluginResolveTarget.
  destruct (trimmedTruthy_nonblank _ Hnb) as (t & Ht & _).
  assert (Ht' : t = trim (send_to params)).
  { simpl in Ht. destruct (trim (send_to params)); [done|]. congruence. }
  subst t. rewrite Ht.
  assert (Hok : forall q, match q with
                          | whatsapp => TargetOk (normalizeE164 (trim (send_to params)))
                          | _ => TargetOk (trim (send_to params))
                          end = if decide (q = whatsapp)
                                then TargetOk (normalizeE164 (trim (send_to params)))
                                else TargetOk (trim (send_to params)))
    by (by intros []).
  rewrite Hok, decide_False by done. cbn [sends target gatewayCalls outcome].
  split; [done|]. split; [done|].
  set (opts := {| Deliver.bestEffort := send_bestEffort params;
                  Deliver.onError := false; Deliver.onPayload := None |}).
  destruct (best_effort_outcome chunkTextFn chunkMarkdownTextFn
              resolveTextChunkLimit normalizeOutboundPayloads
              (respondAt (trim (send_to params))) opts p
              (send_accountId params)
              [{| payload_text := send_content params;
                  payload_mediaUrl := send_mediaUrl params |}] Hbest)
    as [Hres _].
  rewrite Hres. eexists. split; [reflexivity|]. split; [done|].
  split; [done|]. intros Hrej. simpl.
  unfold Deliver.deliverOutboundPayloads, Deliver.deliverNormalized.
  pose proof (deliverLoop_all_rejected (respondAt (trim (send_to params)))
                opts (Deliver.createProviderHandler chunkTextFn
                        chunkMarkdownTextFn p)
                (Deliver.textLimitOf resolveTextChunkLimit
                   (Deliver.createProviderHandler chunkTextFn
                      chunkMarkdownTextFn p) p (send_accountId params))
                (normalizeOutboundPayloads
                   [{| payload_text := send_content params;
                       payload_mediaUrl := send_mediaUrl params |}])
                Deliver.emptyDelivery eq_refl Hrej) as Hempty.
  destruct (Deliver.deliverLoop _ _ _ _ _ _) as [s [[]|e]]; simpl in *;
    by rewrite Hempty.
Qed.

(** [sendPoll] never sends directly.  It makes at most one gateway call,
    of method "poll", only outside a dry run, for WhatsApp, Discord or
    MS Teams, and with the poll that [normalizePollInput] accepted under
    the provider's option limit (10 for Discord, 12 otherwise); any other
    provider is rejected as unsupported. *)
Theorem sendPoll_gateway_only (params : MessagePollParams PollInput) :
  let provider :=
    default "whatsapp" (normalizeMessageProvider (poll_provider params)) in
  let out := sendPoll params in
  sends out = [] /\ target out = None
  /\ (length (gatewayCalls out) <= 1)%nat
  /\ (forall call, call ∈ gatewayCalls out ->
        call_method call = "poll"
        /\ 1 <= timeoutMs (call_options call)
        /\ poll_dryRun params = false
        /\ provider ∈ ["whatsapp"; "discord"; "msteams"]
        /\ exists poll key,
             call_params call = PollParams (poll_to params) poll provider key
             /\ normalizePollInput (poll_input params)
                  (if bool_decide (provider = "discord") then 10 else 12)
                = Resolved poll)
  /\ (provider ∉ ["whatsapp"; "discord"; "msteams"] ->
      outcome out
      = Rejected (ErrorMessage ("Unsupported poll provider: " ++ provider))).
Proof.
  cbv zeta. unfold Message.sendPoll.
  set (provider := default "whatsapp"
                     (normalizeMessageProvider (poll_provider params))).
  assert (Hmem : provider ∈ ["whatsapp"; "discord"; "msteams"]
                 <-> bool_decide (provider = "whatsapp")
                     || bool_decide (provider = "discord")
                     || bool_decide (provider = "msteams") = true).
  { rewrite !orb_true_iff, !bool_decide_eq_true, !elem_of_cons.
    split; [intros [?|[?|[?|H]]]; auto; by apply elem_of_nil in H|].
    intros [[?|?]|?]; auto. }
  assert (Hnil : forall P : GatewayCall Poll -> Prop,
            forall c, c ∈ @nil (GatewayCall Poll) -> P c).
  { intros P c Hc. by apply elem_of_nil in Hc. }
  destruct (bool_decide (provider = "whatsapp")
            || bool_decide (provider = "discord")
            || bool_decide (provider = "msteams")) eqn:Hsup; simpl.
  - assert (Hin : provider ∈ ["whatsapp"; "discord"; "msteams"])
      by (by apply Hmem).
    destruct (normalizePollInput (poll_input params) _) as [poll|e] eqn:Hn;
      simpl.
    + destruct (poll_dryRun params) eqn:Hdry; simpl.
      * split; [done|]. split; [done|]. split; [lia|].
        split; [apply Hnil | done].
      * split; [done|]. split; [done|]. split; [lia|]. split; [|done].
        intros c Hc. apply list_elem_of_singleton in Hc as ->. simpl.
        split; [done|]. split; [apply resolveTimeoutMs_positive|].
        split; [done|]. split; [done|]. eauto.
    + split; [done|]. split; [done|]. split; [lia|].
      split; [apply Hnil | done].
  - split; [done|]. split; [done|]. split; [lia|].
    split; [apply Hnil | done].
Qed.
End MessageProps.

Section MessageWitnesses.
Import Providers Targets Selection Message Examples MessageExamples.

Local Abbreviation send :=
  (sendMessage (Poll := unit) cutOnce cutOnce limitFive onePerPayload
     (fun s => s) asTyped (fun _ => rejectingAll) queueing "key-1").

Lemma sendMessage_dry_run_witness :
  outcome (send (message [55; 55]%N "telegram" true false))
  = Resolved {| sent_provider := "telegram"; sent_to := [55; 55]%N;
                sent_via := ViaDirect; sent_mediaUrl := None;
                sent_result := None; sent_dryRun := true |}.
Proof.
  pose proof (sendMessage_dry_run cutOnce cutOnce limitFive onePerPayload
                (fun s => s) asTyped (fun _ => rejectingAll) queueing "key-1"
                (message [55; 55]%N "telegram" true false) eq_refl) as H.
  cbv zeta in H. destruct H as (_ & _ & _). reflexivity.
Defined.

Lemma sendMessage_routes_witness :
  gatewayCalls (send (message [43; 49; 53]%N "whatsapp" false false))
  = [{| call_method := "send";
        call_params :=
          SendParams [43; 49; 53]%N "hello" None None None "whatsapp" "key-1";
        call_options := resolveGatewayOptions None |}].
Proof.
  pose proof (sendMessage_routes cutOnce cutOnce limitFive onePerPayload
                (fun s => s) asTyped (fun _ => rejectingAll) queueing "key-1"
                (message [43; 49; 53]%N "whatsapp" false false) whatsapp
                eq_refl eq_refl) as H.
  cbv zeta in H. simpl in H. destruct H as (_ & _ & call & Hcall & _).
  reflexivity.
Defined.

Lemma sendMessage_blank_target_witness :
  outcome (send (message [32; 32]%N "slack" false false))
  = Rejected (ErrorMessage (missingTargetMessage slack)).
Proof.
  apply (sendMessage_blank_target cutOnce cutOnce limitFive onePerPayload
           (fun s => s) asTyped (fun _ => rejectingAll) queueing "key-1"
           (message [32; 32]%N "slack" false false) slack);
    [reflexivity | discriminate | reflexivity | vm_compute; auto].
Defined.

Lemma sendMessage_best_effort_witness :
  let out := send (message [32; 67; 49]%N "slack" false true) in
  target out = Some [67; 49]%N
  /\ exists r, outcome out = Resolved r /\ sent_to r = [32; 67; 49]%N
               /\ sent_result r = None.
Proof.
  cbv zeta.
  destruct (sendMessage_best_effort cutOnce cutOnce limitFive onePerPayload
              (fun s => s) asTyped (fun _ => rejectingAll) queueing "key-1"
              (message [32; 67; 49]%N "slack" false true) slack)
    as (Ht & _ & r & Hr & _ & Hto & Hnone);
    [reflexivity | discriminate | reflexivity | | reflexivity |].
  - vm_compute. intros H. discriminate H.
  - split; [exact Ht|]. exists r. split; [exact Hr|]. split; [exact Hto|].
    apply Hnone. intros hist c. eexists. reflexivity.
Defined.
End MessageWitnesses.

(** ** Port options and the service commands *)

Section PortProps.
Import Targets GatewayCli.

Lemma isDigit_not_space (c : N) : isDigit c = true -> isWhiteSpace c = false.
Proof.
  unfold isDigit, isWhiteSpace. intros H.
  apply andb_true_iff in H as [H1%N.leb_le H2%N.leb_le].
  repeat match goal with
         | |- context [(?a <=? ?b)%N] =>
             destruct (N.leb_spec a b); try lia
         | |- context [(?a =? ?b)%N] =>
             destruct (N.eqb_spec a b); try lia
         end.
Qed.

Lemma trimStart_split (s : JsString) :
  exists ws : JsString,
    s = (ws ++ trimStart s)%list /\ forallb isWhiteSpace ws = true.
Proof.
  induction s as [|c s (ws & Hs & Hws)]; [by exists []|]. simpl.
  destruct (isWhiteSpace c) eqn:Hc.
  - exists (c :: ws). simpl. rewrite Hc, Hws. split; [by f_equal | done].
  - by exists [].
Qed.

Lemma trimStart_app (ws s : JsString) :
  forallb isWhiteSpace ws = true ->
  trimStart (ws ++ s)%list = trimStart s.
Proof.
  induction ws as [|c ws IH]; [done|]. simpl.
  intros [-> H]%andb_true_iff. by apply IH.
Qed.

Lemma leadingDigits_split (s : JsString) :
  exists rest : JsString,
    s = (leadingDigits s ++ rest)%list
    /\ forallb isDigit (leadingDigits s) = true
    /\ match rest with c :: _ => isDigit c = false | [] => True end.
Proof.
  induction s as [|c s (rest & Hs & Hd & Hr)]; [by exists []|]. simpl.
  destruct (isDigit c) eqn:Hc.
  - exists rest. simpl. rewrite Hc, Hd. split; [by f_equal | done].
  - exists (c :: s). by split.
Qed.

Lemma leadingDigits_app (digits rest : JsString) :
  forallb isDigit digits = true ->
  match rest with c :: _ => isDigit c = false | [] => True end ->
  leadingDigits (digits ++ rest)%list = digits.
Proof.
  intros Hd Hr. induction digits as [|c digits IH]; simpl.
  - destruct rest as [|c rest]; [done|]. simpl. by rewrite Hr.
  - simpl in Hd. apply andb_true_iff in Hd as [-> Hd]. f_equal. by apply IH.
Qed.

Lemma digits_from_nonneg (digits : JsString) (acc : Z) :
  forallb isDigit digits = true -> 0 <= acc ->
  0 <= foldl (fun acc c => 10 * acc + (Z.of_N c - 48)) acc digits.
Proof.
  revert acc. induction digits as [|c digits IH]; intros acc Hd Hacc; [done|].
  simpl in *. apply andb_true_iff in Hd as [Hc Hd]. apply IH; [done|].
  unfold isDigit in Hc. apply andb_true_iff in Hc as [H1 H2].
  apply N.leb_le in H1. lia.
Qed.

Lemma digitsValue_nonneg (digits : JsString) :
  forallb isDigit digits = true -> 0 <= digitsValue digits.
Proof. intros H. by apply digits_from_nonneg. Qed.

Lemma parseInt10_reads (text digits : JsString) :
  readsAs text digits -> parseInt10 text = Some (digitsValue digits).
Proof.
  intros (ws & sign & rest & -> & Hws & Hsign & Hne & Hd & Hr).
  unfold parseInt10. rewrite trimStart_app by done.
  destruct digits as [|d digits]; [done|].
  pose proof Hd as Hd'. cbn [forallb] in Hd'.
  apply andb_true_iff in Hd' as [Hd0 _].
  pose proof (isDigit_not_space d Hd0) as Hsp.
  assert (Hd45 : d <> 45%N /\ d <> 43%N).
  { unfold isDigit in Hd0. apply andb_true_iff in Hd0 as [H1 H2].
    apply N.leb_le in H1. lia. }
  destruct Hd45 as [H45 H43].
  assert (Hl : leadingDigits ((d :: digits) ++ rest)%list = d :: digits)
    by (by apply leadingDigits_app).
  destruct Hsign as [->| ->].
  - cbn [app trimStart]. rewrite Hsp. cbn [head].
    rewrite (bool_decide_eq_false_2 (Some d = Some 45%N)) by congruence.
    rewrite (bool_decide_eq_false_2 (Some d = Some 43%N)) by congruence.
    cbn [orb]. cbn [app] in Hl. by rewrite Hl.
  - cbn [app trimStart]. change (isWhiteSpace 43) with false. cbn [head].
    rewrite (bool_decide_eq_false_2 (Some 43%N = Some 45%N)) by done.
    rewrite (bool_decide_eq_true_2 (Some 43%N = Some 43%N)) by done.
    cbn [orb tail]. cbn [app] in Hl. by rewrite Hl.
Qed.

Lemma parseInt10_inv (text : JsString) (v : Z) :
  parseInt10 text = Some v ->
  v <= 0 \/ exists digits, readsAs text digits /\ v = digitsValue digits.
Proof.
  unfold parseInt10.
  destruct (trimStart_split text) as (ws & Htext & Hws).
  destruct (bool_decide (head (trimStart text) = Some 45%N)) eqn:Hneg;
    cbn [orb].
  - destruct (leadingDigits_split (tail (trimStart text)))
      as (rest & _ & Hd & _).
    destruct (leadingDigits (tail (trimStart text))) as [|d ds] eqn:Hl;
      [done|].
    intros [= <-]. left. pose proof (digitsValue_nonneg (d :: ds) Hd). lia.
  - set (s := if bool_decide (head (trimStart text) = Some 43%N)
              then tail (trimStart text) else trimStart text).
    destruct (leadingDigits_split s) as (rest & Hs & Hd & Hr).
    destruct (leadingDigits s) as [|d ds] eqn:Hl; [done|].
    intros [= <-]. right. exists (d :: ds). split; [|done].
    unfold readsAs.
    exists ws, (if bool_decide (head (trimStart text) = Some 43%N)
                then [43%N] else []), rest.
    apply conj.
    { rewrite <- Hs. subst s. rewrite Htext at 1. f_equal.
      case_bool_decide as H43; [|done].
      destruct (trimStart text) as [|c t]; [done|]. simpl in *. congruence. }
    split; [exact Hws|]. split.
    { generalize (bool_decide (head (trimStart text) = Some 43%N)).
      intros []; auto. }
    split; [done|]. split; [exact Hd | exact Hr].
Qed.

Lemma decimalFrom_value (fuel : nat) (n : Z) (acc : JsString) :
  0 <= n < 2 ^ (Z.of_nat fuel + 1) ->
  foldl (fun acc c => 10 * acc + (Z.of_N c - 48)) 0 (decimalFrom fuel n acc)
  = foldl (fun acc c => 10 * acc + (Z.of_N c - 48)) n acc.
Proof.
  revert n acc. induction fuel as [|fuel IH]; intros n acc Hn.
  - simpl in *. f_equal. assert (n mod 10 = n) by (apply Z.mod_small; lia).
    lia.
  - cbn [decimalFrom]. destruct (n <? 10)%Z eqn:Hlt.
    + apply Z.ltb_lt in Hlt. simpl. f_equal.
      assert (n mod 10 = n) by (apply Z.mod_small; lia). lia.
    + apply Z.ltb_ge in Hlt. rewrite IH.
      * simpl. f_equal. pose proof (Z.mod_pos_bound n 10 ltac:(lia)).
        pose proof (Z.div_mod n 10 ltac:(lia)). lia.
      * split; [apply Z.div_pos; lia|].
        apply Z.div_lt_upper_bound; [lia|].
        replace (Z.of_nat (S fuel) + 1) with (Z.succ (Z.of_nat fuel + 1)) in Hn
          by lia.
        rewrite Z.pow_succ_r in Hn by lia. lia.
Qed.

Lemma decimalFrom_digits (fuel : nat) (n : Z) (acc : JsString) :
  0 <= n -> forallb isDigit acc = true ->
  forallb isDigit (decimalFrom fuel n acc) = true
  /\ decimalFrom fuel n acc <> [].
Proof.
  revert n acc. induction fuel as [|fuel IH]; intros n acc Hn Hacc.
  - simpl. split; [|done]. rewrite Hacc, andb_true_r.
    pose proof (Z.mod_pos_bound n 10 ltac:(lia)).
    unfold isDigit. apply andb_true_iff. split; apply N.leb_le; lia.
  - assert (Hd : isDigit (Z.to_N (48 + n mod 10)) = true).
    { pose proof (Z.mod_pos_bound n 10 ltac:(lia)).
      unfold isDigit. apply andb_true_iff. split; apply N.leb_le; lia. }
    cbn [decimalFrom]. destruct (n <? 10)%Z.
    + simpl. by rewrite Hd, Hacc.
    + apply IH; [apply Z.div_pos; lia|]. simpl. by rewrite Hd, Hacc.
Qed.

Lemma decimal_reads (n : Z) :
  0 < n -> readsAs (decimal n) (decimal n) /\ digitsValue (decimal n) = n.
Proof.
  intros Hn. unfold decimal.
  destruct (decimalFrom_digits (Z.to_nat (Z.log2 n)) n [] ltac:(lia) eq_refl)
    as [Hd Hne].
  split.
  - exists [], [], []. rewrite !app_nil_r. simpl. by repeat split; auto.
  - unfold digitsValue. rewrite decimalFrom_value; [done|].
    pose proof (Z.log2_nonneg n). rewrite Z2Nat.id by done.
    pose proof (Z.log2_spec n Hn) as [_ Hlt].
    replace (Z.log2 n + 1) with (Z.succ (Z.log2 n)) by lia. lia.
Qed.

(** [parsePort] yields a port exactly for a string, or a number or bigint,
    whose text is white space, an optional plus sign and a run of digits
    that is not continued by a digit: the port is the number the digits
    write, and it is above 0.  Everything else, a minus sign included,
    yields [null]. *)
Theorem parsePort_accepts (roundToNumber : Z -> option Z) (raw : RawOption)
  (n : Z) :
  rounds roundToNumber ->
  parsePort roundToNumber raw = Some n
  <-> 0 < n
      /\ exists text digits,
           (raw = RawString text \/ raw = RawNumber text)
           /\ readsAs text digits
           /\ roundToNumber (digitsValue digits) = Some n.
Proof.
  intros [_ Hsign]. split.
  - assert (Htext : forall text,
              match parseInt10 text ≫= roundToNumber with
              | Some parsed => if (parsed <=? 0)%Z then None else Some parsed
              | None => None
              end = Some n ->
              0 < n /\ exists digits,
                         readsAs text digits
                         /\ roundToNumber (digitsValue digits) = Some n).
    { intros text. destruct (parseInt10 text) as [v|] eqn:Hv; [|done]. simpl.
      destruct (roundToNumber v) as [r|] eqn:Hr; [|done].
      destruct (r <=? 0)%Z eqn:Hle; [done|]. intros [= ->].
      apply Z.leb_gt in Hle. split; [done|].
      destruct (parseInt10_inv text v Hv) as [Hneg|(digits & Hreads & ->)].
      - pose proof (Hsign v n Hr Hneg). lia.
      - eauto. }
    destruct raw as [| |text|text|]; simpl; try done.
    + intros (H & digits & ? & ?)%Htext. eauto 10.
    + intros (H & digits & ? & ?)%Htext. eauto 10.
  - intros (Hn & text & digits & Hraw & Hreads & Hr).
    assert (match parseInt10 text ≫= roundToNumber with
            | Some parsed => if (parsed <=? 0)%Z then None else Some parsed
            | None => None
            end = Some n) as Hres.
    { rewrite (parseInt10_reads text digits Hreads). simpl. rewrite Hr.
      destruct (n <=? 0)%Z eqn:Hle; [|done]. apply Z.leb_le in Hle. lia. }
    by destruct Hraw as [-> | ->].
Qed.

(** A port number from 1 to 2^53, given as a number or as its decimal
    text, is what [parsePort] yields. *)
Theorem parsePort_decimal (roundToNumber : Z -> option Z) (n : Z) :
  rounds roundToNumber ->
  0 < n <= 2 ^ 53 ->
  parsePort roundToNumber (RawNumber (decimal n)) = Some n
  /\ parsePort roundToNumber (RawString (decimal n)) = Some n.
Proof.
  intros [Hexact _] Hn. destruct (decimal_reads n) as [Hreads Hv]; [lia|].
  simpl. rewrite (parseInt10_reads _ _ Hreads), Hv. simpl.
  rewrite Hexact by lia.
  destruct (n <=? 0)%Z eqn:Hle; [|done]. apply Z.leb_le in Hle. lia.
Qed.
End PortProps.

Section PortWitnesses.
Import Targets GatewayCli PortExamples.

Lemma rounds_exactUpTo53 : rounds exactUpTo53.
Proof.
  unfold rounds, exactUpTo53. change (2 ^ 53) with 9007199254740992. split.
  - intros n Hn. destruct (Z.leb_spec (Z.abs n) 9007199254740992); [done|].
    lia.
  - intros n r H Hn.
    destruct (Z.abs n <=? 9007199254740992)%Z; [|done]. by injection H as <-.
Qed.

Lemma parsePort_accepts_witness :
  parsePort exactUpTo53 (RawString [32; 43; 49; 56; 55; 56; 57; 120]%N)
  = Some 18789.
Proof.
  apply (parsePort_accepts exactUpTo53
           (RawString [32; 43; 49; 56; 55; 56; 57; 120]%N) 18789
           rounds_exactUpTo53).
  split; [lia|].
  exists [32; 43; 49; 56; 55; 56; 57; 120]%N, [49; 56; 55; 56; 57]%N.
  split; [by left|]. split; [|reflexivity].
  exists [32]%N, [43]%N, [120]%N. repeat split; auto.
Defined.

Lemma parsePort_decimal_witness :
  parsePort exactUpTo53 (RawNumber (decimal 18789)) = Some 18789.
Proof.
  apply (parsePort_decimal exactUpTo53 18789 rounds_exactUpTo53).
  split; [lia | by vm_compute].
Defined.
End PortWitnesses.

(** Membership in a list that is written out. *)
Ltac here := repeat first [apply list_elem_of_here | apply list_elem_of_further].
Ltac nowhere H :=
  exfalso;
  repeat (apply elem_of_cons in H as [H|H]; [discriminate H|]);
  by apply elem_of_nil in H.
Ltac only_exit H c :=
  repeat (apply elem_of_cons in H as [H|H];
          [first [discriminate H | injection H as H; subst c]|]);
  [..|by apply elem_of_nil in H].

Section ServiceProps.
Import Targets GatewayCli.
Context {Err Cfg Args : Type}.
Variable roundToNumber : Z -> option Z.
Variable stringOf : Err -> string.
Variable startHints : list string.
Variable service : GatewayService Err.
Variable loadConfig : Settled Err Cfg.
Variable resolveGatewayPort : Cfg -> Message.JsNumber.
Variable devMode : bool.
Variable resolveGatewayProgramArguments :
  QArith_base.Q -> bool -> Settled Err Args.

Local Abbreviation Effects := (list (CliEffect Args)).

(** The commands [gateway stop] and [gateway restart] never reject.  Each
    first asks whether the service is loaded; it calls the service's
    [stop], respectively [restart], exactly when the answer is yes; it
    exits, always with code 1 and as its last effect, exactly when the
    question or the call fails. *)
Theorem stop_and_restart_guarded :
  let stopped := stopGatewayService (Args := Args) stringOf service in
  let restarted :=
    restartGatewayService (Args := Args) stringOf startHints service in
  (stopped.2 = Resolved tt
   /\ head stopped.1 = Some (Service CallIsLoaded)
   /\ (Service CallStop ∈ stopped.1 <-> isLoaded service = Resolved true)
   /\ (Exit 1 ∈ stopped.1
       <-> (exists e, isLoaded service = Rejected e)
           \/ (isLoaded service = Resolved true
               /\ exists e, stop service = Rejected e))
   /\ (forall c, Exit c ∈ stopped.1 ->
                 c = 1 /\ last stopped.1 = Some (Exit 1)))
  /\ (restarted.2 = Resolved tt
      /\ head restarted.1 = Some (Service CallIsLoaded)
      /\ (Service CallRestart ∈ restarted.1
          <-> isLoaded service = Resolved true)
      /\ (Exit 1 ∈ restarted.1
          <-> (exists e, isLoaded service = Rejected e)
              \/ (isLoaded service = Resolved true
                  /\ exists e, restart service = Rejected e))
      /\ (forall c, Exit c ∈ restarted.1 ->
                    c = 1 /\ last restarted.1 = Some (Exit 1))).
Proof.
  cbv zeta. unfold stopGatewayService, restartGatewayService, failWith.
  assert (Hlogs : forall (e : CliEffect Args),
            (forall line, e <> LogLine line) ->
            e ∉ (((fun hint => @LogLine Args ("Start with: " ++ hint)%string)
                    <$> startHints)
                 ++ (@LogLine Args <$> renderGatewayServiceInstallHints))%list).
  { intros e Hne [H|H]%elem_of_app.
    - apply list_elem_of_fmap in H as (line & -> & _). by eapply Hne.
    - apply list_elem_of_fmap in H as (line & -> & _). by eapply Hne. }
  split.
  - destruct (isLoaded service) as [[]|e]; cbn [fst snd app].
    + destruct (stop service) as [[]|e]; cbn [fst snd app];
        (split; [done|]); (split; [done|]); split.
      * split; [done|]. intros _. here.
      * split.
        -- split; [intros H; nowhere H|].
           intros [[e H]|[_ [e H]]]; done.
        -- intros c H. nowhere H.
      * split; [done|]. intros _. here.
      * split.
        -- split; [intros _; right; eauto | intros _; here].
        -- intros c H. only_exit H c. done.
    + split; [done|]. split; [done|]. split; [|split].
      * split; [intros H; nowhere H | done].
      * split; [intros H; nowhere H|].
        intros [[e H]|[H _]]; done.
      * intros c H. nowhere H.
    + split; [done|]. split; [done|]. split; [|split].
      * split; [intros H; nowhere H | done].
      * split; [eauto | intros _; here].
      * intros c H. only_exit H c. done.
  - destruct (isLoaded service) as [[]|e]; cbn [fst snd].
    + destruct (restart service) as [[]|e]; cbn [fst snd app];
        (split; [done|]); (split; [done|]); split.
      * split; [done|]. intros _. here.
      * split.
        -- split; [intros H; nowhere H|].
           intros [[e H]|[_ [e H]]]; done.
        -- intros c H. nowhere H.
      * split; [done|]. intros _. here.
      * split.
        -- split; [intros _; right; eauto | intros _; here].
        -- intros c H. only_exit H c. done.
    + split; [done|]. split; [done|].
      assert (Hno : forall e : CliEffect Args,
                (forall line, e <> LogLine line) ->
                e <> Service CallIsLoaded ->
                e ∉ ([Service CallIsLoaded;
                      LogLine ("Gateway service " ++ notLoadedText service
                               ++ ".")%string]
                     ++ ((fun hint =>
                            @LogLine Args ("Start with: " ++ hint)%string)
                           <$> startHints)
                     ++ (@LogLine Args
                           <$> renderGatewayServiceInstallHints))%list).
      { intros e Hl Hs [H|H]%elem_of_app; [|by apply (Hlogs e Hl)].
        apply elem_of_cons in H as [->|H]; [done|].
        apply list_elem_of_singleton in H. by eapply Hl. }
      split; [|split].
      * split; [|done]. intros H. exfalso. revert H. by apply Hno.
      * split.
        -- intros H. exfalso. revert H. by apply Hno.
        -- intros [[e H]|[H _]]; done.
      * intros c H. exfalso. revert H. by apply Hno.
    + cbn [app]. split; [done|]. split; [done|]. split; [|split].
      * split; [intros H; nowhere H | done].
      * split; [eauto | intros _; here].
      * intros c H. only_exit H c. done.
Qed.

Lemma validPort_spec (portOverride : option Z) (cfg : Cfg)
  (port : QArith_base.Q) :
  validPort resolveGatewayPort portOverride cfg = Some port ->
  QArith_base.Qlt (QArith_base.inject_Z 0) port
  /\ (forall n, portOverride = Some n -> port = QArith_base.inject_Z n)
  /\ (portOverride = None -> resolveGatewayPort cfg = Message.Finite port).
Proof.
  unfold validPort. intros H.
  assert (Hpos : forall q,
            (if QArith_base.Qle_bool q (QArith_base.inject_Z 0)
             then None else Some q) = Some port ->
            QArith_base.Qlt (QArith_base.inject_Z 0) port /\ q = port).
  { intros q Hq.
    destruct (QArith_base.Qle_bool q (QArith_base.inject_Z 0)) eqn:Hle;
      [done|]. injection Hq as <-. split; [|done].
    apply QArith_base.Qnot_le_lt. intros Hc.
    apply QArith_base.Qle_bool_iff in Hc. congruence. }
  destruct portOverride as [n|].
  - apply Hpos in H as [H1 H2]. split; [done|]. split; [|done].
    by intros ? [= <-].
  - destruct (resolveGatewayPort cfg) as [q| |]; try done.
    apply Hpos in H as [H1 ->]. split; [done|]. split; [done|]. done.
Qed.

Lemma installAtPort_spec (opts : GatewayServiceInstallOpts)
  (port : QArith_base.Q) :
  let out :=
    installAtPort stringOf service devMode resolveGatewayProgramArguments
      opts port in
  head out.1 = Some (Service CallIsLoaded)
  /\ (forall program token password,
        Service (CallInstall program token password) ∈ out.1 ->
        resolveGatewayProgramArguments port devMode = Resolved program
        /\ token = opt_token opts /\ password = opt_password opts
        /\ exists loaded,
             isLoaded service = Resolved loaded
             /\ (loaded = true ->
                 opt_reinstall opts = true
                 /\ uninstall service = Resolved tt
                 /\ exists after,
                      out.1 = (Service CallIsLoaded :: Service CallUninstall
                               :: after)%list
                      /\ Service (CallInstall program token password)
                         ∈ after))
  /\ (forall c, Exit c ∈ out.1 -> c = 1 /\ last out.1 = Some (Exit 1))
  /\ (forall port' dev,
        Service (CallResolveProgramArguments port' dev) ∈ out.1 ->
        port' = port /\ dev = devMode).
Proof.
  cbv zeta. unfold installAtPort, failWith.
  destruct (isLoaded service) as [loaded|e]; cbn [fst snd].
  2:{ split; [done|]. split; [intros ? ? ? H; nowhere H|].
      split; [intros c H; only_exit H c; done|].
      intros ? ? H. nowhere H. }
  destruct loaded, (opt_reinstall opts); cbn [andb negb fst snd].
  - (* loaded, reinstall *)
    destruct (uninstall service) as [[]|e]; cbn [fst snd app].
    2:{ split; [done|]. split; [intros ? ? ? H; nowhere H|].
        split; [intros c H; nowhere H|]. intros ? ? H. nowhere H. }
    destruct (resolveGatewayProgramArguments port devMode) as [program|e];
      cbn [fst snd app].
    2:{ split; [done|]. split; [intros ? ? ? H; nowhere H|].
        split; [intros c H; nowhere H|].
        intros ? ? H.
        repeat (apply elem_of_cons in H as [H|H];
                [first [discriminate H | by injection H as -> ->]|]).
        by apply elem_of_nil in H. }
    destruct (install service) as [[]|e]; cbn [fst snd app].
    + split; [done|]. split; [|split].
      * intros ? ? ? H.
        repeat (apply elem_of_cons in H as [H|H];
                [first [discriminate H | injection H as -> -> ->]|]);
          [|by apply elem_of_nil in H].
        split; [done|]. split; [done|]. split; [done|].
        exists true. split; [done|]. intros _. split; [done|].
        split; [done|]. eexists. split; [reflexivity|]. here.
      * intros c H. nowhere H.
      * intros ? ? H.
        repeat (apply elem_of_cons in H as [H|H];
                [first [discriminate H | by injection H as -> ->]|]).
        by apply elem_of_nil in H.
    + split; [done|]. split; [|split].
      * intros ? ? ? H.
        repeat (apply elem_of_cons in H as [H|H];
                [first [discriminate H | injection H as -> -> ->]|]);
          [|by apply elem_of_nil in H].
        split; [done|]. split; [done|]. split; [done|].
        exists true. split; [done|]. intros _. split; [done|].
        split; [done|]. eexists. split; [reflexivity|]. here.
      * intros c H. only_exit H c. done.
      * intros ? ? H.
        repeat (apply elem_of_cons in H as [H|H];
                [first [discriminate H | by injection H as -> ->]|]).
        by apply elem_of_nil in H.
  - (* loaded, no reinstall *)
    split; [done|]. split; [intros ? ? ? H; nowhere H|].
    split; [intros c H; nowhere H|]. intros ? ? H. nowhere H.
  - (* not loaded, reinstall *)
    destruct (resolveGatewayProgramArguments port devMode) as [program|e];
      cbn [fst snd app].
    2:{ split; [done|]. split; [intros ? ? ? H; nowhere H|].
        split; [intros c H; nowhere H|].
        intros ? ? H.
        repeat (apply elem_of_cons in H as [H|H];
                [first [discriminate H | by injection H as -> ->]|]).
        by apply elem_of_nil in H. }
    destruct (install service) as [[]|e]; cbn [fst snd app].
    + split; [done|]. split; [|split].
      * intros ? ? ? H.
        repeat (apply elem_of_cons in H as [H|H];
                [first [discriminate H | injection H as -> -> ->]|]);
          [|by apply elem_of_nil in H].
        split; [done|]. split; [done|]. split; [done|].
        exists false. split; [done|]. done.
      * intros c H. nowhere H.
      * intros ? ? H.
        repeat (apply elem_of_cons in H as [H|H];
                [first [discriminate H | by injection H as -> ->]|]).
        by apply elem_of_nil in H.
    + split; [done|]. split; [|split].
      * intros ? ? ? H.
        repeat (apply elem_of_cons in H as [H|H];
                [first [discriminate H | injection H as -> -> ->]|]);
          [|by apply elem_of_nil in H].
        split; [done|]. split; [done|]. split; [done|].
        exists false. split; [done|]. done.
      * intros c H. only_exit H c. done.
      * intros ? ? H.
        repeat (apply elem_of_cons in H as [H|H];
                [first [discriminate H | by injection H as -> ->]|]).
        by apply elem_of_nil in H.
  - (* not loaded, no reinstall *)
    destruct (resolveGatewayProgramArguments port devMode) as [program|e];
      cbn [fst snd app].
    2:{ split; [done|]. split; [intros ? ? ? H; nowhere H|].
        split; [intros c H; nowhere H|].
        intros ? ? H.
        repeat (apply elem_of_cons in H as [H|H];
                [first [discriminate H | by injection H as -> ->]|]).
        by apply elem_of_nil in H. }
    destruct (install service) as [[]|e]; cbn [fst snd app].
    + split; [done|]. split; [|split].
      * intros ? ? ? H.
        repeat (apply elem_of_cons in H as [H|H];
                [first [discriminate H | injection H as -> -> ->]|]);
          [|by apply elem_of_nil in H].
        split; [done|]. split; [done|]. split; [done|].
        exists false. split; [done|]. done.
      * intros c H. nowhere H.
      * intros ? ? H.
        repeat (apply elem_of_cons in H as [H|H];
                [first [discriminate H | by injection H as -> ->]|]).
        by apply elem_of_nil in H.
    + split; [done|]. split; [|split].
      * intros ? ? ? H.
        repeat (apply elem_of_cons in H as [H|H];
                [first [discriminate H | injection H as -> -> ->]|]);
          [|by apply elem_of_nil in H].
        split; [done|]. split; [done|]. split; [done|].
        exists false. split; [done|]. done.
      * intros c H. only_exit H c. done.
      * intros ? ? H.
        repeat (apply elem_of_cons in H as [H|H];
                [first [discriminate H | by injection H as -> ->]|]).
        by apply elem_of_nil in H.
Qed.

(** [gateway install] touches the service only with a valid port: the
    service is asked or called only when the configuration was read and
    the port, the one of the [--port] option if that is given and else
    the configured one, is a finite number above 0; an option that is
    given and that [parsePort] rejects ends the command with "Invalid
    port" and exit code 1.  The service's [install] is called only with
    the program arguments resolved for that port, and for a service that
    is loaded only with [--reinstall] and after its [uninstall] has been
    called and has succeeded.  The command exits only with code 1, as its
    last effect. *)
Theorem installGatewayService_guarded (opts : GatewayServiceInstallOpts) :
  let out :=
    installGatewayService roundToNumber stringOf service loadConfig
      resolveGatewayPort devMode resolveGatewayProgramArguments opts in
  let portOverride := parsePort roundToNumber (opt_port opts) in
  (forall call, Service call ∈ out.1 ->
     exists cfg port,
       loadConfig = Resolved cfg
       /\ validPort resolveGatewayPort portOverride cfg = Some port
       /\ QArith_base.Qlt (QArith_base.inject_Z 0) port
       /\ (opt_port opts = RawUndefined
           \/ exists n, portOverride = Some n
                        /\ port = QArith_base.inject_Z n)
       /\ forall program token password,
            call = CallInstall program token password ->
            resolveGatewayProgramArguments port devMode = Resolved program
            /\ token = opt_token opts /\ password = opt_password opts
            /\ exists loaded,
                 isLoaded service = Resolved loaded
                 /\ (loaded = true ->
                     opt_reinstall opts = true
                     /\ uninstall service = Resolved tt
                     /\ exists after,
                          out.1 = (Service CallIsLoaded
                                   :: Service CallUninstall :: after)%list
                          /\ Service call ∈ after))
  /\ (forall cfg, loadConfig = Resolved cfg ->
        opt_port opts <> RawUndefined -> portOverride = None ->
        out = ([ErrorLine "Invalid port"; Exit 1], Resolved tt))
  /\ (forall c, Exit c ∈ out.1 -> c = 1 /\ last out.1 = Some (Exit 1)).
Proof.
  cbv zeta. unfold installGatewayService, invalidPort.
  destruct loadConfig as [cfg|e]; cbn [fst snd].
  2:{ split; [intros call H; by apply elem_of_nil in H|].
      split; [done|]. intros c H. by apply elem_of_nil in H. }
  set (portOverride := parsePort roundToNumber (opt_port opts)).
  assert (Hinvalid :
    let out : Effects * Settled Err unit :=
      ([ErrorLine "Invalid port"; Exit 1], Resolved tt) in
    (forall call, Service call ∈ out.1 -> False)
    /\ (forall c, Exit c ∈ out.1 -> c = 1 /\ last out.1 = Some (Exit 1))).
  { cbv zeta. cbn [fst snd]. split; [intros call H; nowhere H|].
    intros c H. only_exit H c. done. }
  assert (Hvalid : forall port,
    validPort resolveGatewayPort portOverride cfg = Some port ->
    (opt_port opts = RawUndefined
     \/ exists n, portOverride = Some n) ->
    let out :=
      installAtPort stringOf service devMode resolveGatewayProgramArguments
        opts port in
    (forall call, Service call ∈ out.1 ->
       exists cfg' port',
         @Resolved Err Cfg cfg = Resolved cfg'
         /\ validPort resolveGatewayPort portOverride cfg' = Some port'
         /\ QArith_base.Qlt (QArith_base.inject_Z 0) port'
         /\ (opt_port opts = RawUndefined
             \/ exists n, portOverride = Some n
                          /\ port' = QArith_base.inject_Z n)
         /\ forall program token password,
              call = CallInstall program token password ->
              resolveGatewayProgramArguments port' devMode = Resolved program
              /\ token = opt_token opts /\ password = opt_password opts
              /\ exists loaded,
                   isLoaded service = Resolved loaded
                   /\ (loaded = true ->
                       opt_reinstall opts = true
                       /\ uninstall service = Resolved tt
                       /\ exists after,
                            out.1 = (Service CallIsLoaded
                                     :: Service CallUninstall :: after)%list
                            /\ Service call ∈ after))
    /\ (forall c, Exit c ∈ out.1 -> c = 1 /\ last out.1 = Some (Exit 1))).
  { intros port Hport Hgiven. cbv zeta.
    destruct (validPort_spec portOverride cfg port Hport) as (Hpos & Hn & _).
    destruct (installAtPort_spec opts port) as (_ & Hinst & Hexit & _).
    cbv zeta in Hinst, Hexit. split; [|exact Hexit].
    intros call Hcall. exists cfg, port. split; [done|]. split; [done|].
    split; [done|]. split.
    - destruct Hgiven as [?|[n Hsome]]; [by left|]. right. exists n.
      split; [done | by apply Hn].
    - intros program token password ->. by apply Hinst. }
  destruct (opt_port opts) eqn:Hraw.
  - (* undefined *)
    destruct (validPort resolveGatewayPort portOverride cfg) as [port|]
      eqn:Hport.
    + destruct (Hvalid port eq_refl (or_introl eq_refl)) as [H1 H2].
      split; [exact H1|]. split; [done | exact H2].
    + destruct Hinvalid as [H1 H2]. split; [intros call H; by apply H1 in H|].
      split; [done | exact H2].
  - destruct portOverride as [n|] eqn:Hn.
    + discriminate Hn.
    + destruct Hinvalid as [H1 H2]. split; [intros call H; by apply H1 in H|].
      split; [done | exact H2].
  - destruct portOverride as [n|] eqn:Hn.
    + destruct (validPort resolveGatewayPort (Some n) cfg) as [port|]
        eqn:Hport.
      * destruct (Hvalid port eq_refl (or_intror (ex_intro _ n eq_refl)))
          as [H1 H2].
        split; [exact H1|]. split; [done | exact H2].
      * destruct Hinvalid as [H1 H2].
        split; [intros call H; by apply H1 in H|].
        split; [done | exact H2].
    + destruct Hinvalid as [H1 H2]. split; [intros call H; by apply H1 in H|].
      split; [done | exact H2].
  - destruct portOverride as [n|] eqn:Hn.
    + destruct (validPort resolveGatewayPort (Some n) cfg) as [port|]
        eqn:Hport.
      * destruct (Hvalid port eq_refl (or_intror (ex_intro _ n eq_refl)))
          as [H1 H2].
        split; [exact H1|]. split; [done | exact H2].
      * destruct Hinvalid as [H1 H2].
        split; [intros call H; by apply H1 in H|].
        split; [done | exact H2].
    + destruct Hinvalid as [H1 H2]. split; [intros call H; by apply H1 in H|].
      split; [done | exact H2].
  - destruct portOverride as [n|] eqn:Hn.
    + discriminate Hn.
    + destruct Hinvalid as [H1 H2]. split; [intros call H; by apply H1 in H|].
      split; [done | exact H2].
Qed.
End ServiceProps.
